(** * CloudReferee: the constraint-weighted evaluation engine

    A shallow embedding of the engine of the cloud platform comparison tool
    (src/engine/comparisonEngine.js, src/engine/constraintProcessor.js,
    src/engine/outputFormatter.js, src/config/constraintRules.js) and the
    properties its specification states about it.

    Modelling conventions.
    - A JavaScript number is the rational it denotes ([Q]). The functions
      of the engine are given with exact arithmetic, operation by operation
      and in the source's order; what is stated of them depends on the
      structure of the computation and not on its last digits. The bounds
      on the weights and on the scores are stated of [Binary64], the same
      functions with every operation rounded to binary64 ([round64]).
    - A JavaScript object or [Map] is an association list in enumeration
      order ([obj]); assignment [o[k] = v] is [obj_set], which overwrites in
      place or appends.  Property names are assumed not to be array indices
      (the names of this program are identifiers), and inherited properties
      are not modelled: a name that is looked up is assumed not to be one
      of [Object.prototype] ([inheritedNames]).
    - A thrown exception is the [Throw] case of [result].
    - Text is ASCII; a generated sentence is a list of fragments ([text]),
      so that a number interpolated by a template literal stays visible as
      the number it is. *)

From Stdlib Require Import List String Ascii ZArith QArith Qabs Qround Qpower.
From Stdlib Require Import Lia Lqa Bool Permutation DecimalString.
Import ListNotations.

Set Warnings "-register-all".

Local Open Scope string_scope.
Local Open Scope Q_scope.

(** ** Results of fallible code *)

Inductive result (A : Type) : Type :=
| Ok (a : A)
| Throw (message : string).
Arguments Ok {A} a.
Arguments Throw {A} message.

Definition bind {A B} (r : result A) (k : A -> result B) : result B :=
  match r with
  | Ok a => k a
  | Throw m => Throw m
  end.

Notation "'do' x <- c1 ; c2" := (bind c1 (fun x => c2))
  (at level 60, x name, c1 at next level, right associativity).

(** ** Objects as association lists *)

Definition obj (A : Type) : Type := list (string * A).

Definition keys {A} (o : obj A) : list string := map fst o.
Definition values {A} (o : obj A) : list A := map snd o.

Fixpoint obj_get {A} (o : obj A) (k : string) : option A :=
  match o with
  | [] => None
  | (k', v) :: o' => if String.eqb k' k then Some v else obj_get o' k
  end.

Definition obj_has {A} (o : obj A) (k : string) : bool :=
  match obj_get o k with Some _ => true | None => false end.

(** [o[k] = v]: an existing property keeps its place, a new one goes last. *)
Fixpoint obj_set {A} (o : obj A) (k : string) (v : A) : obj A :=
  match o with
  | [] => [(k, v)]
  | (k', v') :: o' =>
      if String.eqb k' k then (k', v) :: o' else (k', v') :: obj_set o' k v
  end.

Fixpoint obj_delete {A} (o : obj A) (k : string) : obj A :=
  match o with
  | [] => []
  | (k', v') :: o' =>
      if String.eqb k' k then o' else (k', v') :: obj_delete o' k
  end.

Definition includes (l : list string) (s : string) : bool :=
  existsb (String.eqb s) l.

(** [xs.join(sep)] on an array of strings *)
Fixpoint join (sep : string) (xs : list string) : string :=
  match xs with
  | [] => ""
  | [x] => x
  | x :: xs' => x ++ sep ++ join sep xs'
  end.

(** [arr.slice(0, n)] *)
Definition slice0 {A} (n : nat) (l : list A) : list A := firstn n l.

(** ** Numbers *)

Definition Qltb (x y : Q) : bool := negb (Qle_bool y x).
Definition Qgeb (x y : Q) : bool := Qle_bool y x.

(** [xs.reduce((sum, x) => sum + x, 0)] *)
Definition sumQ (xs : list Q) : Q := fold_left Qplus xs 0.

(** [Math.round]: the nearest integer, a half going up. *)
Definition Math_round (x : Q) : Z := Qfloor (x + (1 # 2)).

(** [Math.round(x * 10) / 10] *)
Definition round1 (x : Q) : Q := inject_Z (Math_round (x * 10)) / 10.

(** ** src/config/constraintRules.js *)

Record criteria : Type := { cmin : option Q; cmax : option Q }.

(** A rule entry; its [emphasis] list is read nowhere in the engine and is
    left out.  The priority entries have no [filters] property. *)
Record rule : Type := {
  weightings : obj Q;
  filters : option (obj criteria)
}.

Record ruleTable : Type := {
  rules_budget : obj rule;
  rules_experience : obj rule;
  rules_workload : obj rule;
  rules_priorities : obj rule
}.

Definition atLeast (q : Q) : criteria := {| cmin := Some q; cmax := None |}.

Definition constraintRules : ruleTable := {|
  rules_budget := [
    ("low", {|
      weightings := [("cost", 0.4); ("easeOfUse", 0.3); ("scalability", 0.1);
                     ("enterprise", 0.1); ("ecosystem", 0.1); ("devops", 0.0);
                     ("aiml", 0.0); ("vendorLockIn", 0.0)];
      filters := Some [("cost.budgetFriendliness", atLeast 6);
                       ("cost.costPredictability", atLeast 6)] |});
    ("medium", {|
      weightings := [("cost", 0.25); ("scalability", 0.25); ("ecosystem", 0.2);
                     ("easeOfUse", 0.15); ("enterprise", 0.1); ("devops", 0.05);
                     ("aiml", 0.0); ("vendorLockIn", 0.0)];
      filters := Some [] |});
    ("high", {|
      weightings := [("enterprise", 0.3); ("scalability", 0.25); ("ecosystem", 0.2);
                     ("cost", 0.1); ("easeOfUse", 0.05); ("devops", 0.05);
                     ("aiml", 0.05); ("vendorLockIn", 0.0)];
      filters := Some [("enterprise.compliance", atLeast 7);
                       ("enterprise.support", atLeast 7)] |}) ];
  rules_experience := [
    ("beginner", {|
      weightings := [("easeOfUse", 0.4); ("cost", 0.3); ("ecosystem", 0.15);
                     ("scalability", 0.1); ("enterprise", 0.05); ("devops", 0.0);
                     ("aiml", 0.0); ("vendorLockIn", 0.0)];
      filters := Some [("easeOfUse.learningCurve", atLeast 6);
                       ("easeOfUse.setupComplexity", atLeast 6);
                       ("easeOfUse.uiIntuitiveness", atLeast 6)] |});
    ("intermediate", {|
      weightings := [("scalability", 0.25); ("ecosystem", 0.25); ("easeOfUse", 0.2);
                     ("cost", 0.15); ("devops", 0.1); ("enterprise", 0.05);
                     ("aiml", 0.0); ("vendorLockIn", 0.0)];
      filters := Some [] |});
    ("expert", {|
      weightings := [("ecosystem", 0.3); ("scalability", 0.25); ("devops", 0.2);
                     ("enterprise", 0.15); ("aiml", 0.05); ("cost", 0.05);
                     ("easeOfUse", 0.0); ("vendorLockIn", 0.0)];
      filters := Some [("ecosystem.serviceCount", atLeast 7);
                       ("devops.automationTools", atLeast 7)] |}) ];
  rules_workload := [
    ("startup", {|
      weightings := [("cost", 0.35); ("easeOfUse", 0.25); ("scalability", 0.2);
                     ("ecosystem", 0.15); ("enterprise", 0.05); ("devops", 0.0);
                     ("aiml", 0.0); ("vendorLockIn", 0.0)];
      filters := Some [("cost.budgetFriendliness", atLeast 6)] |});
    ("enterprise", {|
      weightings := [("enterprise", 0.35); ("scalability", 0.25); ("ecosystem", 0.2);
                     ("devops", 0.1); ("cost", 0.05); ("easeOfUse", 0.05);
                     ("aiml", 0.0); ("vendorLockIn", 0.0)];
      filters := Some [("enterprise.compliance", atLeast 8);
                       ("enterprise.support", atLeast 8);
                       ("enterprise.sla", atLeast 8)] |});
    ("research", {|
      weightings := [("aiml", 0.4); ("scalability", 0.25); ("cost", 0.2);
                     ("ecosystem", 0.1); ("easeOfUse", 0.05); ("enterprise", 0.0);
                     ("devops", 0.0); ("vendorLockIn", 0.0)];
      filters := Some [("aiml.mlServices", atLeast 7);
                       ("aiml.dataProcessing", atLeast 7)] |}) ];
  rules_priorities := [
    ("cost", {|
      weightings := [("cost", 0.5); ("vendorLockIn", 0.2); ("easeOfUse", 0.15);
                     ("scalability", 0.1); ("ecosystem", 0.05); ("enterprise", 0.0);
                     ("devops", 0.0); ("aiml", 0.0)];
      filters := None |});
    ("scalability", {|
      weightings := [("scalability", 0.4); ("ecosystem", 0.25); ("enterprise", 0.2);
                     ("devops", 0.1); ("cost", 0.05); ("easeOfUse", 0.0);
                     ("aiml", 0.0); ("vendorLockIn", 0.0)];
      filters := None |});
    ("ease-of-use", {|
      weightings := [("easeOfUse", 0.5); ("cost", 0.2); ("ecosystem", 0.15);
                     ("scalability", 0.1); ("enterprise", 0.05); ("devops", 0.0);
                     ("aiml", 0.0); ("vendorLockIn", 0.0)];
      filters := None |});
    ("compliance", {|
      weightings := [("enterprise", 0.5); ("scalability", 0.2); ("ecosystem", 0.15);
                     ("cost", 0.1); ("easeOfUse", 0.05); ("devops", 0.0);
                     ("aiml", 0.0); ("vendorLockIn", 0.0)];
      filters := None |});
    ("devops", {|
      weightings := [("devops", 0.4); ("ecosystem", 0.25); ("scalability", 0.2);
                     ("enterprise", 0.1); ("cost", 0.05); ("easeOfUse", 0.0);
                     ("aiml", 0.0); ("vendorLockIn", 0.0)];
      filters := None |});
    ("aiml", {|
      weightings := [("aiml", 0.5); ("scalability", 0.2); ("ecosystem", 0.15);
                     ("cost", 0.1); ("enterprise", 0.05); ("easeOfUse", 0.0);
                     ("devops", 0.0); ("vendorLockIn", 0.0)];
      filters := None |});
    ("performance", {|
      weightings := [("scalability", 0.4); ("enterprise", 0.25); ("ecosystem", 0.2);
                     ("devops", 0.1); ("cost", 0.05); ("easeOfUse", 0.0);
                     ("aiml", 0.0); ("vendorLockIn", 0.0)];
      filters := None |});
    ("reliability", {|
      weightings := [("enterprise", 0.4); ("scalability", 0.3); ("ecosystem", 0.15);
                     ("devops", 0.1); ("cost", 0.05); ("easeOfUse", 0.0);
                     ("aiml", 0.0); ("vendorLockIn", 0.0)];
      filters := None |});
    ("innovation", {|
      weightings := [("ecosystem", 0.35); ("aiml", 0.25); ("devops", 0.2);
                     ("scalability", 0.15); ("enterprise", 0.05); ("cost", 0.0);
                     ("easeOfUse", 0.0); ("vendorLockIn", 0.0)];
      filters := None |});
    ("support", {|
      weightings := [("enterprise", 0.5); ("ecosystem", 0.2); ("scalability", 0.15);
                     ("cost", 0.1); ("easeOfUse", 0.05); ("devops", 0.0);
                     ("aiml", 0.0); ("vendorLockIn", 0.0)];
      filters := None |});
    ("integration", {|
      weightings := [("ecosystem", 0.4); ("easeOfUse", 0.25); ("devops", 0.2);
                     ("enterprise", 0.1); ("scalability", 0.05); ("cost", 0.0);
                     ("aiml", 0.0); ("vendorLockIn", 0.0)];
      filters := None |});
    ("security", {|
      weightings := [("enterprise", 0.5); ("scalability", 0.2); ("ecosystem", 0.15);
                     ("devops", 0.1); ("cost", 0.05); ("easeOfUse", 0.0);
                     ("aiml", 0.0); ("vendorLockIn", 0.0)];
      filters := None |}) ]
|}.

(** ** The normalized constraint *)

Record Constraint : Type := {
  budget : string;
  experience : string;
  workload : string;
  priorities : list string
}.

(** ** ComparisonEngine: the weighting composer *)

Definition typeError : string := "TypeError".

(** [mergeWeightings(base, overlay, influence)]: the loop runs over the
    overlay's entries and rewrites [base] in place. *)
Definition mergeWeightings (base overlay : obj Q) (influence : Q) : obj Q :=
  fold_left
    (fun b entry =>
       let '(dimension, weight) := entry in
       match obj_get b dimension with
       | Some x => obj_set b dimension (x * (1 - influence) + weight * influence)
       | None => b
       end)
    overlay base.

(** [normalizeWeightings(weightings)] *)
Definition normalizeWeightings (w : obj Q) : obj Q :=
  let total := sumQ (values w) in
  fold_left
    (fun normalized entry =>
       let '(dimension, weight) := entry in
       obj_set normalized dimension (if Qltb 0 total then weight / total else 0))
    w [].

(** [rules.budget[constraints.budget].weightings]: reading [.weightings] of
    a missing entry throws. *)
Definition ruleWeightings (table : obj rule) (k : string) : result (obj Q) :=
  match obj_get table k with
  | Some r => Ok (weightings r)
  | None => Throw typeError
  end.

(** The loop over [constraints.priorities]; a priority without a rule entry
    is skipped. *)
Definition applyPriorities (rules : ruleTable) (base : obj Q) (ps : list string) : obj Q :=
  fold_left
    (fun b priority =>
       match obj_get (rules_priorities rules) priority with
       | Some r => mergeWeightings b (weightings r) 0.2
       | None => b
       end)
    ps base.

Definition calculateWeightings (rules : ruleTable) (c : Constraint) : result (obj Q) :=
  do baseWeightings <- ruleWeightings (rules_budget rules) (budget c);
  do experienceWeightings <- ruleWeightings (rules_experience rules) (experience c);
  let base1 := mergeWeightings baseWeightings experienceWeightings 0.3 in
  do workloadWeightings <- ruleWeightings (rules_workload rules) (workload c);
  let base2 := mergeWeightings base1 workloadWeightings 0.4 in
  Ok (normalizeWeightings (applyPriorities rules base2 (priorities c))).

(** ** JavaScript values *)

Inductive value : Type :=
| VUndefined
| VNull
| VBool (b : bool)
| VNumber (q : Q)
| VString (s : string)
| VArray (items : list value)
| VObject (fields : list (string * value)).

(** Truthiness: [undefined], [null], [false], [0] and the empty string are
    falsy. *)
Definition truthy (v : value) : bool :=
  match v with
  | VUndefined | VNull => false
  | VBool b => b
  | VNumber q => negb (Qeq_bool q 0)
  | VString s => negb (String.eqb s "")
  | VArray _ | VObject _ => true
  end.

(** [a || b] *)
Definition js_or (a b : value) : value := if truthy a then a else b.

Definition nat_to_string (n : nat) : string :=
  DecimalString.NilEmpty.string_of_uint (Nat.to_uint n).

Fixpoint index_entries {A} (i : nat) (l : list A) : obj A :=
  match l with
  | [] => []
  | x :: l' => (nat_to_string i, x) :: index_entries (S i) l'
  end.

Definition chars (s : string) : list string :=
  map (fun c => String c EmptyString) (list_ascii_of_string s).

(** [Object.entries(v)]; it throws on [undefined] and [null]. *)
Definition Object_entries (v : value) : result (obj value) :=
  match v with
  | VUndefined | VNull => Throw typeError
  | VBool _ | VNumber _ => Ok []
  | VString s => Ok (index_entries 0 (map VString (chars s)))
  | VArray items => Ok (index_entries 0 items)
  | VObject fields => Ok fields
  end.

Definition lengthValue {A} (l : list A) : value :=
  VNumber (inject_Z (Z.of_nat (List.length l))).

(** [v?.[k]]: a read through optional chaining never throws. *)
Definition get_opt (v : value) (k : string) : value :=
  match v with
  | VUndefined | VNull | VBool _ | VNumber _ => VUndefined
  | VString s =>
      if String.eqb k "length" then lengthValue (chars s)
      else match obj_get (index_entries 0 (map VString (chars s))) k with
           | Some x => x
           | None => VUndefined
           end
  | VArray items =>
      if String.eqb k "length" then lengthValue items
      else match obj_get (index_entries 0 items) k with
           | Some x => x
           | None => VUndefined
           end
  | VObject fields =>
      match obj_get fields k with
      | Some x => x
      | None => VUndefined
      end
  end.

(** [v.k] and [v[k]]: reading a property of [undefined] or [null] throws. *)
Definition get (v : value) (k : string) : result value :=
  match v with
  | VUndefined | VNull => Throw typeError
  | _ => Ok (get_opt v k)
  end.

(** [k in v]: it throws unless [v] is an object (or an array). *)
Definition js_in (k : string) (v : value) : result bool :=
  match v with
  | VObject fields => Ok (obj_has fields k)
  | VArray items =>
      Ok (String.eqb k "length" || obj_has (index_entries 0 items) k)
  | _ => Throw typeError
  end.

(** [ToNumber] on the values compared against a numeric bound; [None] is
    [NaN].  The numeric reading of a string, and of an array or object
    through its string form, is not modelled: such a value compares as
    not-a-number. *)
Definition toNumber (v : value) : option Q :=
  match v with
  | VNumber q => Some q
  | VNull => Some 0
  | VBool b => Some (if b then 1 else 0)
  | VUndefined | VString _ | VArray _ | VObject _ => None
  end.

(** [v < bound] and [v > bound] for a numeric [bound] *)
Definition js_lt (v : value) (bound : Q) : bool :=
  match toNumber v with Some q => Qltb q bound | None => false end.
Definition js_gt (v : value) (bound : Q) : bool :=
  match toNumber v with Some q => Qltb bound q | None => false end.

(** [path.split('.')] *)
Fixpoint split_dot_aux (cur : string) (s : string) : list string :=
  match s with
  | EmptyString => [cur]
  | String c s' =>
      if Ascii.eqb c "."%char then cur :: split_dot_aux "" s'
      else split_dot_aux (cur ++ String c EmptyString) s'
  end.
Definition split_dot (s : string) : list string := split_dot_aux "" s.

(** ** Provider records (src/schemas/providerSchema.js) *)

Record providerInfo : Type := {
  name : string;
  displayName : string;
  lastUpdated : string
}.

Record tradeoffs : Type := {
  gains : list string;
  losses : list string
}.

(** A record accepted by the data manager: the declared properties, and the
    further top-level properties the schema does not forbid ([extra]). A
    dimension block maps sub-metric names to values, numbers among them. *)
Record providerData : Type := {
  provider : providerInfo;
  dimensions : obj (obj value);
  strengths : list string;
  weaknesses : list string;
  idealUseCases : list string;
  tradeOffs : tradeoffs;
  extra : obj value
}.

(** The record as the JavaScript object the filters walk through. *)
Definition providerValue (p : providerData) : value :=
  VObject
    ([("provider", VObject [("name", VString (name (provider p)));
                            ("displayName", VString (displayName (provider p)));
                            ("lastUpdated", VString (lastUpdated (provider p)))]);
      ("dimensions", VObject (map (fun e => (fst e, VObject (snd e))) (dimensions p)));
      ("strengths", VArray (map VString (strengths p)));
      ("weaknesses", VArray (map VString (weaknesses p)));
      ("idealUseCases", VArray (map VString (idealUseCases p)));
      ("tradeOffs", VObject [("gains", VArray (map VString (gains (tradeOffs p))));
                             ("losses", VArray (map VString (losses (tradeOffs p))))])]
     ++ extra p)%list.

(** ** ComparisonEngine: the provider evaluator *)

(** The numeric sub-metrics of a block, in enumeration order. *)
Fixpoint numericScores (dimensionData : obj value) : list Q :=
  match dimensionData with
  | [] => []
  | (_, VNumber q) :: rest => q :: numericScores rest
  | _ :: rest => numericScores rest
  end.

Definition lengthQ {A} (l : list A) : Q := inject_Z (Z.of_nat (List.length l)).

Definition calculateDimensionScore (dimensionData : obj value) : Q :=
  let scores := numericScores dimensionData in
  match scores with
  | [] => 0
  | _ => sumQ scores / lengthQ scores
  end.

Definition getNestedValue (o : value) (path : string) : value :=
  fold_left get_opt (split_dot path) o.

(** A filter object [{ path, criteria }] *)
Record ruleFilter : Type := { path : string; filter_criteria : criteria }.

Definition applyFilter (p : providerData) (f : ruleFilter) : bool :=
  match getNestedValue (providerValue p) (path f) with
  | VUndefined => false
  | v =>
      if match cmin (filter_criteria f) with
         | Some lo => js_lt v lo
         | None => false
         end then false
      else if match cmax (filter_criteria f) with
              | Some hi => js_gt v hi
              | None => false
              end then false
      else true
  end.

Definition ruleGroup (rules : ruleTable) (constraintType : string) : option (obj rule) :=
  if String.eqb constraintType "budget" then Some (rules_budget rules)
  else if String.eqb constraintType "experience" then Some (rules_experience rules)
  else if String.eqb constraintType "workload" then Some (rules_workload rules)
  else if String.eqb constraintType "priorities" then Some (rules_priorities rules)
  else None.

Definition getFiltersForConstraint (rules : ruleTable)
    (constraintType constraintValue : string) : list ruleFilter :=
  match ruleGroup rules constraintType with
  | None => []
  | Some group =>
      match obj_get group constraintValue with
      | None => []
      | Some r =>
          match filters r with
          | None => []
          | Some fs => map (fun e => {| path := fst e; filter_criteria := snd e |}) fs
          end
      end
  end.

Definition checkConstraintFilters (rules : ruleTable) (p : providerData)
    (c : Constraint) : bool :=
  let allFilters :=
    (getFiltersForConstraint rules "budget" (budget c)
     ++ getFiltersForConstraint rules "experience" (experience c)
     ++ getFiltersForConstraint rules "workload" (workload c))%list in
  forallb (applyFilter p) allFilters.

Record Evaluation : Type := {
  ev_provider : providerInfo;
  totalScore : Q;
  dimensionScores : obj Q;
  passesFilters : bool;
  ev_strengths : list string;
  ev_weaknesses : list string;
  ev_idealUseCases : list string;
  ev_tradeOffs : tradeoffs
}.

(** The scoring loop of [evaluateProvider]: the running [totalScore] and
    [dimensionScores] after the entries of [weightings]. *)
Definition scoreStep (dims : obj (obj value)) (acc : Q * obj Q)
    (entry : string * Q) : Q * obj Q :=
  let '(dimensionName, weight) := entry in
  if Qltb 0 weight then
    match obj_get dims dimensionName with
    | Some block =>
        let dimensionScore := calculateDimensionScore block in
        (fst acc + dimensionScore * weight,
         obj_set (snd acc) dimensionName dimensionScore)
    | None => acc
    end
  else acc.

Definition scoreLoop (dims : obj (obj value)) (w : obj Q) : Q * obj Q :=
  fold_left (scoreStep dims) w (0, []).

Definition evaluateProvider (rules : ruleTable) (p : providerData)
    (c : Constraint) (w : obj Q) : Evaluation :=
  let scored := scoreLoop (dimensions p) w in
  {| ev_provider := provider p;
     totalScore := fst scored;
     dimensionScores := snd scored;
     passesFilters := checkConstraintFilters rules p c;
     ev_strengths := strengths p;
     ev_weaknesses := weaknesses p;
     ev_idealUseCases := idealUseCases p;
     ev_tradeOffs := tradeOffs p |}.

(** ** Generated text *)

(** A piece of a template literal: literal characters, or an interpolated
    number. *)
Inductive frag : Type :=
| Lit (s : string)
| Num (q : Q).

Definition text : Type := list frag.

Definition plain (s : string) : text := [Lit s].

Definition upperChar (c : ascii) : ascii :=
  let n := nat_of_ascii c in
  if (97 <=? n)%nat && (n <=? 122)%nat then ascii_of_nat (n - 32) else c.
Definition lowerChar (c : ascii) : ascii :=
  let n := nat_of_ascii c in
  if (65 <=? n)%nat && (n <=? 90)%nat then ascii_of_nat (n + 32) else c.

Fixpoint mapString (f : ascii -> ascii) (s : string) : string :=
  match s with
  | EmptyString => EmptyString
  | String c s' => String (f c) (mapString f s')
  end.

Definition toUpperCase : string -> string := mapString upperChar.
Definition toLowerCase : string -> string := mapString lowerChar.

(** ** Array.prototype.sort *)

(** [arr.sort(cmp)] is stable, and the comparators of this program are
    differences of two numbers, for which every stable sort gives the same
    array; insertion sort stands for it.  [x] is placed before [y] unless
    [cmp x y] is positive. *)
Fixpoint sort_insert {A} (cmp : A -> A -> Q) (x : A) (l : list A) : list A :=
  match l with
  | [] => [x]
  | y :: l' =>
      if Qle_bool (cmp x y) 0 then x :: y :: l' else y :: sort_insert cmp x l'
  end.

Fixpoint js_sort {A} (cmp : A -> A -> Q) (l : list A) : list A :=
  match l with
  | [] => []
  | x :: l' => sort_insert cmp x (js_sort cmp l')
  end.

(** ** ComparisonEngine: the narrative generator *)

Definition getDimensionStrengthText (dimension : string) (score : Q)
    (c : Constraint) : option text :=
  let strengthMap : obj text := [
    ("cost", [Lit "Excellent cost optimization ("; Num score;
              Lit "/10) - great for budget-conscious projects"]);
    ("easeOfUse", [Lit "Very user-friendly ("; Num score;
                   Lit "/10) - ideal for teams prioritizing simplicity"]);
    ("scalability", [Lit "Outstanding scalability ("; Num score;
                     Lit "/10) - perfect for growing applications"]);
    ("ecosystem", [Lit "Rich service ecosystem ("; Num score;
                   Lit "/10) - extensive integration options"]);
    ("devops", [Lit "Strong DevOps support ("; Num score;
                Lit "/10) - excellent automation capabilities"]);
    ("aiml", [Lit "Advanced AI/ML services ("; Num score;
              Lit "/10) - leading machine learning platform"]);
    ("enterprise", [Lit "Enterprise-ready ("; Num score;
                    Lit "/10) - comprehensive compliance and support"]);
    ("vendorLockIn", [Lit "Good portability ("; Num score;
                      Lit "/10) - easier migration and flexibility"]) ] in
  obj_get strengthMap dimension.

Definition getDimensionWeaknessText (dimension : string) (score : Q)
    (c : Constraint) : option text :=
  let weaknessMap : obj text := [
    ("cost", [Lit "Higher costs ("; Num score;
              Lit "/10) - may exceed budget constraints"]);
    ("easeOfUse", [Lit "Steeper learning curve ("; Num score;
                   Lit "/10) - requires more technical expertise"]);
    ("scalability", [Lit "Limited scalability ("; Num score;
                     Lit "/10) - may not handle rapid growth well"]);
    ("ecosystem", [Lit "Smaller service portfolio ("; Num score;
                   Lit "/10) - fewer integration options"]);
    ("devops", [Lit "Basic DevOps tools ("; Num score;
                Lit "/10) - limited automation capabilities"]);
    ("aiml", [Lit "Limited AI/ML services ("; Num score;
              Lit "/10) - fewer machine learning options"]);
    ("enterprise", [Lit "Less enterprise focus ("; Num score;
                    Lit "/10) - limited compliance features"]);
    ("vendorLockIn", [Lit "Higher lock-in risk ("; Num score;
                      Lit "/10) - harder to migrate later"]) ] in
  obj_get weaknessMap dimension.

(** The loop that keeps the sentences a table has an entry for. *)
Fixpoint collectTexts (f : string -> Q -> option text) (l : obj Q) : list text :=
  match l with
  | [] => []
  | (dimension, score) :: l' =>
      match f dimension score with
      | Some t => t :: collectTexts f l'
      | None => collectTexts f l'
      end
  end.

Definition getConstraintSpecificStrengths (ev : Evaluation) (c : Constraint) : list text :=
  let baseStrengths := ev_strengths ev in
  let topDimensions :=
    slice0 3
      (js_sort (fun a b => snd b - snd a)
         (List.filter (fun e => Qgeb (snd e) 7) (dimensionScores ev))) in
  let constraintStrengths :=
    collectTexts (fun d s => getDimensionStrengthText d s c) topDimensions in
  slice0 5 (constraintStrengths ++ map plain baseStrengths)%list.

Definition getConstraintSpecificWeaknesses (ev : Evaluation) (c : Constraint) : list text :=
  let baseWeaknesses := ev_weaknesses ev in
  let lowDimensions :=
    slice0 3
      (js_sort (fun a b => snd a - snd b)
         (List.filter (fun e => Qle_bool (snd e) 5) (dimensionScores ev))) in
  let constraintWeaknesses :=
    collectTexts (fun d s => getDimensionWeaknessText d s c) lowDimensions in
  slice0 4 (constraintWeaknesses ++ map plain baseWeaknesses)%list.

Definition pushIf {A} (b : bool) (x : A) : list A := if b then [x] else [].

Definition getConstraintSpecificUseCases (ev : Evaluation) (c : Constraint) : list text :=
  let baseUseCases := ev_idealUseCases ev in
  let constraintUseCases :=
    (pushIf (String.eqb (budget c) "low")
       "Cost-sensitive projects with budget constraints"
     ++ pushIf (String.eqb (experience c) "beginner")
       "Teams new to cloud platforms seeking ease of use"
     ++ pushIf (String.eqb (workload c) "enterprise")
       "Large-scale enterprise applications requiring compliance"
     ++ pushIf (includes (priorities c) "aiml")
       "AI/ML projects requiring advanced data processing"
     ++ pushIf (includes (priorities c) "devops")
       "DevOps-focused teams needing automation tools")%list in
  slice0 4 (map plain (constraintUseCases ++ baseUseCases)%list).

(** The engine's own [formatTradeOffs]; the arrays of a record are always
    there, so the fallback sentence is never produced. *)
Definition formatTradeOffs (t : tradeoffs) : text :=
  plain ("Gains: " ++ join ", " (gains t) ++ ". Losses: " ++ join ", " (losses t) ++ ".").

(** [score >= bound] where [score] may be [undefined] *)
Definition optGe (score : option Q) (bound : Q) : bool :=
  match score with Some s => Qgeb s bound | None => false end.
Definition optLe (score : option Q) (bound : Q) : bool :=
  match score with Some s => Qle_bool s bound | None => false end.

(** One [if ... else if ...] of [generateConstraintSpecificTradeOffs]: what
    it pushes onto [gains] and onto [losses]. *)
Definition tradeOffStep (c : Constraint) (ev : Evaluation)
    (priority dimension : string) (hi lo : Q) (gain loss : string)
    : list string * list string :=
  let score := obj_get (dimensionScores ev) dimension in
  if includes (priorities c) priority && optGe score hi then ([gain], [])
  else if includes (priorities c) priority && optLe score lo then ([], [loss])
  else ([], []).

Definition orDefault (s fallback : string) : string :=
  if String.eqb s "" then fallback else s.

Definition generateConstraintSpecificTradeOffs (ev : Evaluation) (c : Constraint) : text :=
  let s1 := tradeOffStep c ev "cost" "cost" 7 5
              "cost-effective pricing" "higher costs" in
  let s2 := tradeOffStep c ev "ease-of-use" "easeOfUse" 7 5
              "user-friendly experience" "steeper learning curve" in
  let s3 := tradeOffStep c ev "scalability" "scalability" 8 6
              "excellent scalability" "limited scaling options" in
  let gains := (fst s1 ++ fst s2 ++ fst s3)%list in
  let losses := (snd s1 ++ snd s2 ++ snd s3)%list in
  match gains, losses with
  | [], [] => formatTradeOffs (ev_tradeOffs ev)
  | _, _ =>
      plain ("Choosing this provider gains you: "
             ++ orDefault (join ", " gains) "various benefits"
             ++ ". However, you may lose: "
             ++ orDefault (join ", " losses) "some capabilities" ++ ".")
  end.

Record constraintSummary : Type := {
  topMatch : string;
  matchReason : text;
  allProviders : list (string * Q)
}.

(** [sortedEvaluations[0]] is [undefined] on an empty array, and reading
    its first component throws. *)
Definition generateConstraintBasedSummary (c : Constraint)
    (sortedEvaluations : obj Evaluation) : result constraintSummary :=
  match sortedEvaluations with
  | [] => Throw typeError
  | topProvider :: _ =>
      Ok {| topMatch := fst topProvider;
            matchReason :=
              plain ("Based on your " ++ budget c ++ " budget, " ++ experience c
                     ++ " experience level, " ++ workload c
                     ++ " workload, and priorities in " ++ join ", " (priorities c));
            allProviders :=
              map (fun e => (fst e, round1 (totalScore (snd e)))) sortedEvaluations |}
  end.

(** ** ComparisonEngine: cross-provider analysis and decision guidance *)

Definition scoreOr0 (scores : obj Q) (dimension : string) : Q :=
  match obj_get scores dimension with
  | Some s => s
  | None => 0
  end.

Definition dimensionNames : obj string := [
  ("cost", "cost-effectiveness");
  ("easeOfUse", "ease of use");
  ("ecosystem", "service ecosystem");
  ("vendorLockIn", "flexibility and portability") ].

(** [best] is the first and [worst] the last element of the sorted array;
    on an empty array both are [undefined] and reading [.provider] throws. *)
Definition generateDimensionAnalysis (dimension : string) (scores : obj (obj Q))
    (c : Constraint) : result text :=
  let providerScores :=
    js_sort (fun a b => snd b - snd a)
      (map (fun e => (fst e, scoreOr0 (snd e) dimension)) scores) in
  match providerScores with
  | [] => Throw typeError
  | best :: _ =>
      let worst := last providerScores best in
      let dimName :=
        match obj_get dimensionNames dimension with
        | Some n => n
        | None => dimension
        end in
      Ok [Lit ("For " ++ dimName ++ ": " ++ toUpperCase (fst best) ++ " leads with ");
          Num (snd best);
          Lit ("/10, offering the best value in this area. "
               ++ toUpperCase (fst worst) ++ " scores ");
          Num (snd worst);
          Lit ("/10, which may be a consideration for your " ++ workload c
               ++ " workload.")]
  end.

Record crossProviderAnalysis : Type := {
  costTradeOffs : text;
  complexityTradeOffs : text;
  ecosystemTradeOffs : text;
  flexibilityTradeOffs : text
}.

Definition generateCrossProviderAnalysis (evaluations : obj Evaluation)
    (c : Constraint) : result crossProviderAnalysis :=
  let scores :=
    fold_left (fun acc e => obj_set acc (fst e) (dimensionScores (snd e)))
      evaluations [] in
  do t1 <- generateDimensionAnalysis "cost" scores c;
  do t2 <- generateDimensionAnalysis "easeOfUse" scores c;
  do t3 <- generateDimensionAnalysis "ecosystem" scores c;
  do t4 <- generateDimensionAnalysis "vendorLockIn" scores c;
  Ok {| costTradeOffs := t1; complexityTradeOffs := t2;
        ecosystemTradeOffs := t3; flexibilityTradeOffs := t4 |}.

Record decisionGuidance : Type := {
  costOptimized : list text;
  dg_easeOfUse : list text;
  dg_enterprise : list text;
  innovation : list text;
  overallBest : text
}.

(** [sorted.slice(0, 2).map(...)] for one guidance category *)
Definition guidanceEntries (evaluations : obj Evaluation) (dimension : string)
    : list text :=
  let sorted :=
    js_sort (fun a b => scoreOr0 (dimensionScores (snd b)) dimension
                        - scoreOr0 (dimensionScores (snd a)) dimension)
      evaluations in
  map (fun e => [Lit (toUpperCase (fst e) ++ " (");
                 Num (round1 (scoreOr0 (dimensionScores (snd e)) dimension));
                 Lit "/10)"])
    (slice0 2 sorted).

Definition generateDecisionGuidance (evaluations : obj Evaluation) (c : Constraint)
    : result decisionGuidance :=
  let sortedByScore :=
    js_sort (fun a b => totalScore (snd b) - totalScore (snd a)) evaluations in
  match sortedByScore with
  | [] => Throw typeError
  | top :: _ =>
      Ok {| costOptimized := guidanceEntries evaluations "cost";
            dg_easeOfUse := guidanceEntries evaluations "easeOfUse";
            dg_enterprise := guidanceEntries evaluations "enterprise";
            innovation := guidanceEntries evaluations "aiml";
            overallBest :=
              [Lit (toUpperCase (fst top) ++ " (");
               Num (round1 (totalScore (snd top)));
               Lit "/10) - Best match for your specific requirements"] |}
  end.

(** ** ComparisonEngine: the comparison output *)

Record providerSection : Type := {
  ps_strengths : list text;
  ps_weaknesses : list text;
  ps_idealUseCases : list text;
  ps_tradeOffs : text;
  matchScore : Q
}.

Record comparisonOutput : Type := {
  providers : obj providerSection;
  co_crossProviderAnalysis : crossProviderAnalysis;
  co_decisionGuidance : decisionGuidance;
  co_constraintSummary : constraintSummary
}.

Definition formatProvider (ev : Evaluation) (c : Constraint) : providerSection :=
  {| ps_strengths := getConstraintSpecificStrengths ev c;
     ps_weaknesses := getConstraintSpecificWeaknesses ev c;
     ps_idealUseCases := getConstraintSpecificUseCases ev c;
     ps_tradeOffs := generateConstraintSpecificTradeOffs ev c;
     matchScore := round1 (totalScore ev) |}.

Definition generateComparisonOutput (evaluations : obj Evaluation) (c : Constraint)
    : result comparisonOutput :=
  let sortedEvaluations :=
    js_sort (fun a b => totalScore (snd b) - totalScore (snd a)) evaluations in
  let providers :=
    fold_left (fun acc e => obj_set acc (fst e) (formatProvider (snd e) c))
      sortedEvaluations [] in
  do analysis <- generateCrossProviderAnalysis evaluations c;
  do guidance <- generateDecisionGuidance evaluations c;
  do summary <- generateConstraintBasedSummary c sortedEvaluations;
  Ok {| providers := providers;
        co_crossProviderAnalysis := analysis;
        co_decisionGuidance := guidance;
        co_constraintSummary := summary |}.

(** The loop of [processConstraints] that fills [evaluations]. *)
Definition evaluateAll (rules : ruleTable) (dataset : obj providerData)
    (c : Constraint) (w : obj Q) : obj Evaluation :=
  fold_left
    (fun evaluations e =>
       obj_set evaluations (fst e) (evaluateProvider rules (snd e) c w))
    dataset [].

(** ** Strings of the cache key *)

Definition dquote : string := String (ascii_of_nat 34) EmptyString.

Definition hexDigit (n : nat) : string :=
  String (ascii_of_nat (if (n <? 10)%nat then 48 + n else 87 + n)) EmptyString.

(** The escape of one code unit in [QuoteJSONString]. *)
Definition quoteChar (c : ascii) : string :=
  let n := nat_of_ascii c in
  if (n =? 8)%nat then "\b"
  else if (n =? 9)%nat then "\t"
  else if (n =? 10)%nat then "\n"
  else if (n =? 12)%nat then "\f"
  else if (n =? 13)%nat then "\r"
  else if (n =? 34)%nat then "\" ++ dquote
  else if (n =? 92)%nat then "\\"
  else if (n <? 32)%nat then "\u00" ++ hexDigit (n / 16) ++ hexDigit (n mod 16)
  else String c EmptyString.

Definition quoteJSON (s : string) : string :=
  (dquote ++ concat "" (map quoteChar (list_ascii_of_string s)) ++ dquote)%string.

(** [Object.keys(o).sort()]: the default order compares code units. *)
Fixpoint insertString (x : string) (l : list string) : list string :=
  match l with
  | [] => [x]
  | y :: l' => if String.leb x y then x :: y :: l' else y :: insertString x l'
  end.

Fixpoint sortStrings (l : list string) : list string :=
  match l with
  | [] => []
  | x :: l' => insertString x (sortStrings l')
  end.

(** [hash | 0]: the 32-bit two's complement reading of an integer. *)
Definition toInt32 (z : Z) : Z := ((z + 2 ^ 31) mod 2 ^ 32 - 2 ^ 31)%Z.

Definition digit36 (d : Z) : string :=
  String (ascii_of_nat (Z.to_nat (if (d <? 10)%Z then 48 + d else 87 + d)%Z)) EmptyString.

Fixpoint toString36_aux (fuel : nat) (z : Z) (acc : string) : string :=
  match fuel with
  | O => acc
  | S fuel' =>
      let acc' := (digit36 (z mod 36) ++ acc)%string in
      if (z <? 36)%Z then acc' else toString36_aux fuel' (z / 36) acc'
  end.

(** [n.toString(36)] for a non-negative integer *)
Definition toString36 (z : Z) : string :=
  toString36_aux (S (Z.to_nat (Z.log2 z))) z "".

(** [hashString(str)] *)
Definition hashStep (hash : Z) (c : ascii) : Z :=
  let char := Z.of_nat (nat_of_ascii c) in
  toInt32 (toInt32 (Z.shiftl hash 5) - hash + char)%Z.

Definition hashString (str : string) : string :=
  toString36 (Z.abs (fold_left hashStep (list_ascii_of_string str) 0%Z)).

Section Engine.

(** [Number.prototype.toString]: how a number prints is left open, and
    everything below holds for every way of printing. *)
Variable number_to_string : Q -> string.

(** [String(v)], as a template literal applies it *)
Fixpoint js_toString (v : value) : string :=
  match v with
  | VUndefined => "undefined"
  | VNull => "null"
  | VBool b => if b then "true" else "false"
  | VNumber q => number_to_string q
  | VString s => s
  | VArray items =>
      join ","
        (map (fun x => match x with
                       | VUndefined | VNull => ""
                       | _ => js_toString x
                       end) items)
  | VObject _ => "[object Object]"
  end.

(** The members of a serialized object: the names of the replacer array in
    its order, each with the serialization of the property when it has
    one. *)
Definition jsonMembers (K : list string) (ser : obj (option string)) : list string :=
  flat_map
    (fun P => match obj_get ser P with
              | Some (Some s) => [(quoteJSON P ++ ":" ++ s)%string]
              | _ => []
              end)
    K.

(** [JSON.stringify(v, K)] with an array [K] of names as replacer; [None]
    is [undefined]. The names of [K] are distinct, coming from
    [Object.keys]. *)
Fixpoint serializeJSON (K : list string) (v : value) : option string :=
  match v with
  | VUndefined => None
  | VNull => Some "null"
  | VBool b => Some (if b then "true" else "false")
  | VNumber q => Some (number_to_string q)
  | VString s => Some (quoteJSON s)
  | VArray items =>
      Some ("[" ++ join ","
                     (map (fun x => match serializeJSON K x with
                                    | Some s => s
                                    | None => "null"
                                    end) items) ++ "]")%string
  | VObject fields =>
      let ser :=
        (fix each (fs : list (string * value)) : obj (option string) :=
           match fs with
           | [] => []
           | (k, x) :: fs' => (k, serializeJSON K x) :: each fs'
           end) fields in
      Some ("{" ++ join "," (jsonMembers K ser) ++ "}")%string
  end.

Definition generateCacheKey (constraints : obj value) : string :=
  match serializeJSON (sortStrings (keys constraints)) (VObject constraints) with
  | Some normalized => "comparison_" ++ hashString normalized
  | None => "comparison_" ++ hashString "undefined"
  end.

(** ** ComparisonEngine: validation of the constraints it is given *)

Definition validBudgets : list string := ["low"; "medium"; "high"].
Definition validExperience : list string := ["beginner"; "intermediate"; "expert"].
Definition validWorkloads : list string := ["startup"; "enterprise"; "research"].
Definition engineValidPriorities : list string :=
  ["cost"; "scalability"; "ease-of-use"; "compliance"; "devops"; "aiml"].

Definition field (constraints : obj value) (k : string) : value :=
  match obj_get constraints k with
  | Some v => v
  | None => VUndefined
  end.

(** [list.includes(v)] on a list of strings: only a string can be found. *)
Definition includesValue (l : list string) (v : value) : bool :=
  match v with
  | VString s => includes l s
  | _ => false
  end.

(** The strings among the values that [includes] accepts. *)
Fixpoint filterPriorities (valid : list string) (ps : list value) : list string :=
  match ps with
  | [] => []
  | VString s :: ps' =>
      if includes valid s then s :: filterPriorities valid ps'
      else filterPriorities valid ps'
  | _ :: ps' => filterPriorities valid ps'
  end.

(** A field accepted by its check is a string. *)
Definition asString (v : value) : string :=
  match v with VString s => s | _ => "" end.

Definition validateAndNormalizeConstraints (constraints : obj value) : result Constraint :=
  let budget := js_or (field constraints "budget") (VString "medium") in
  let experience := js_or (field constraints "experience") (VString "intermediate") in
  let workload := js_or (field constraints "workload") (VString "startup") in
  let priorities :=
    match field constraints "priorities" with
    | VArray items => items
    | _ => []
    end in
  if negb (includesValue validBudgets budget) then
    Throw ("Invalid budget level: " ++ js_toString budget)
  else if negb (includesValue validExperience experience) then
    Throw ("Invalid experience level: " ++ js_toString experience)
  else if negb (includesValue validWorkloads workload) then
    Throw ("Invalid workload type: " ++ js_toString workload)
  else
    Ok {| budget := asString budget;
          experience := asString experience;
          workload := asString workload;
          priorities := filterPriorities engineValidPriorities priorities |}.

(** ** ComparisonEngine: the result cache and [processConstraints] *)

Record cacheStats : Type := {
  hits : nat;
  misses : nat;
  (** [None] is the string ['0%'], [Some r] the rate [r] printed by
      [toFixed(2)] and followed by ['%'] *)
  hitRate : option Q;
  size : nat;
  maxSize : nat
}.

Record metadata : Type := {
  (** [None] is [undefined], as in a cached entry *)
  timestamp : option string;
  md_constraints : Constraint;
  md_weightings : obj Q;
  fromCache : bool;
  md_cacheStats : cacheStats
}.

(** The object of the success path, [{ success: true, comparison, metadata }]. *)
Record successResult : Type := {
  comparison : comparisonOutput;
  result_metadata : metadata
}.

(** What [processConstraints] returns. *)
Inductive outcome : Type :=
| Success (r : successResult)
| Failure (code message stamp : string).

Definition success (o : outcome) : bool :=
  match o with Success _ => true | Failure _ _ _ => false end.

Record engine : Type := {
  cache : obj successResult;
  cacheMaxSize : nat;
  cacheHits : nat;
  cacheMisses : nat
}.

(** The engine as its constructor leaves it. *)
Definition newEngine : engine :=
  {| cache := []; cacheMaxSize := 100; cacheHits := 0; cacheMisses := 0 |}.

Definition getCacheStats (e : engine) : cacheStats :=
  let total := (cacheHits e + cacheMisses e)%nat in
  {| hits := cacheHits e;
     misses := cacheMisses e;
     hitRate :=
       if (0 <? total)%nat
       then Some (inject_Z (Z.of_nat (cacheHits e)) / inject_Z (Z.of_nat total) * 100)
       else None;
     size := List.length (cache e);
     maxSize := cacheMaxSize e |}.

Definition clearCache (e : engine) : engine :=
  {| cache := []; cacheMaxSize := cacheMaxSize e; cacheHits := 0; cacheMisses := 0 |}.

(** [cacheResult(key, result)]: the oldest entry goes when the cache is
    full, and the entry is stored without its timestamp. *)
Definition cacheResult (e : engine) (key : string) (r : successResult) : engine :=
  let kept :=
    if (cacheMaxSize e <=? List.length (cache e))%nat then
      match cache e with
      | [] => []
      | (firstKey, _) :: _ => obj_delete (cache e) firstKey
      end
    else cache e in
  let m := result_metadata r in
  let cacheableResult :=
    {| comparison := comparison r;
       result_metadata :=
         {| timestamp := None;
            md_constraints := md_constraints m;
            md_weightings := md_weightings m;
            fromCache := fromCache m;
            md_cacheStats := md_cacheStats m |} |} in
  {| cache := obj_set kept key cacheableResult;
     cacheMaxSize := cacheMaxSize e;
     cacheHits := cacheHits e;
     cacheMisses := cacheMisses e |}.

(** The body of the [try] block after a cache miss, up to the object it
    builds. *)
Definition computeResult (rules : ruleTable) (e : engine) (now : string)
    (dataset : obj providerData) (constraints : obj value) : result successResult :=
  do normalizedConstraints <- validateAndNormalizeConstraints constraints;
  if (List.length dataset =? 0)%nat then Throw "No provider data available"
  else
    do weightings <- calculateWeightings rules normalizedConstraints;
    let evaluations := evaluateAll rules dataset normalizedConstraints weightings in
    do comparison <- generateComparisonOutput evaluations normalizedConstraints;
    Ok {| comparison := comparison;
          result_metadata :=
            {| timestamp := Some now;
               md_constraints := normalizedConstraints;
               md_weightings := weightings;
               fromCache := false;
               md_cacheStats := getCacheStats e |} |}.

(** [processConstraints(constraints)] on the engine [e], reading the clock
    as [now] and the data manager's providers as [dataset]; it returns the
    engine it leaves and the value it resolves to. *)
Definition processConstraints (rules : ruleTable) (e : engine) (now : string)
    (dataset : obj providerData) (constraints : obj value) : engine * outcome :=
  let cacheKey := generateCacheKey constraints in
  match obj_get (cache e) cacheKey with
  | Some cachedResult =>
      let e1 := {| cache := cache e; cacheMaxSize := cacheMaxSize e;
                   cacheHits := S (cacheHits e); cacheMisses := cacheMisses e |} in
      let m := result_metadata cachedResult in
      (e1, Success {| comparison := comparison cachedResult;
                      result_metadata :=
                        {| timestamp := timestamp m;
                           md_constraints := md_constraints m;
                           md_weightings := md_weightings m;
                           fromCache := true;
                           md_cacheStats := getCacheStats e1 |} |})
  | None =>
      let e1 := {| cache := cache e; cacheMaxSize := cacheMaxSize e;
                   cacheHits := cacheHits e; cacheMisses := S (cacheMisses e) |} in
      match computeResult rules e1 now dataset constraints with
      | Ok r => (cacheResult e1 cacheKey r, Success r)
      | Throw message => (e1, Failure "COMPARISON_ERROR" message now)
      end
  end.

End Engine.

(** ** ConstraintProcessor (src/engine/constraintProcessor.js) *)

Definition validPriorities : list string :=
  ["cost"; "scalability"; "ease-of-use"; "compliance"; "devops"; "aiml";
   "performance"; "reliability"; "innovation"; "support"; "integration"; "security"].

Record validation : Type := {
  isValid : bool;
  errors : list string;
  warnings : list string
}.

(** One of the three checks of the required fields: an empty string is
    falsy and reported as missing. *)
Definition checkRequired (v : string) (valid : list string)
    (required invalid : string) : list string :=
  if String.eqb v "" then [required]
  else if negb (includes valid v) then
    [invalid ++ v ++ ". Must be one of: " ++ join ", " valid]
  else [].

(** [validateConstraints(constraints)]; its only caller passes the record
    [normalizeConstraints] built, whose [priorities] is an array. *)
Definition validateConstraints (c : Constraint) : validation :=
  let errors :=
    (checkRequired (budget c) validBudgets
       "Budget level is required" "Invalid budget level: "
     ++ checkRequired (experience c) validExperience
       "Experience level is required" "Invalid experience level: "
     ++ checkRequired (workload c) validWorkloads
       "Workload type is required" "Invalid workload type: ")%list in
  let invalidPriorities :=
    List.filter (fun p => negb (includes validPriorities p)) (priorities c) in
  let ignored : list string :=
    match invalidPriorities with
    | [] => []
    | _ => ["Invalid priorities ignored: " ++ join ", " invalidPriorities]
    end in
  let noneLeft : list string :=
    match priorities c with
    | [] => ["No valid priorities specified, using default weighting"]
    | _ => []
    end in
  let warnings := (ignored ++ noneLeft)%list in
  {| isValid := match errors with [] => true | _ => false end;
     errors := errors;
     warnings := warnings |}.

(** [v?.toLowerCase()]: [undefined] for [undefined] and [null], the
    lower-cased string for a string, and a [TypeError] for anything else,
    which has no such method. *)
Definition optLowerCase (v : value) : result value :=
  match v with
  | VUndefined | VNull => Ok VUndefined
  | VString s => Ok (VString (toLowerCase s))
  | _ => Throw typeError
  end.

(** [constraints.k?.toLowerCase() || fallback] *)
Definition normalizeField (constraints : value) (k fallback : string) : result string :=
  do raw <- get constraints k;
  do lowered <- optLowerCase raw;
  Ok (asString (js_or lowered (VString fallback))).

(** [priorities.map(p => p?.toLowerCase()).filter(...)]: the whole map runs
    before the filter. *)
Fixpoint lowerAll (ps : list value) : result (list value) :=
  match ps with
  | [] => Ok []
  | p :: ps' =>
      do p' <- optLowerCase p;
      do rest <- lowerAll ps';
      Ok (p' :: rest)
  end.

Definition normalizeConstraints (constraints : value) : result Constraint :=
  do b <- normalizeField constraints "budget" "medium";
  do e <- normalizeField constraints "experience" "intermediate";
  do w <- normalizeField constraints "workload" "startup";
  do ps <- get constraints "priorities";
  do priorities <-
    match ps with
    | VArray items =>
        do lowered <- lowerAll items;
        Ok (filterPriorities validPriorities lowered)
    | _ => Ok []
    end;
  Ok {| budget := b; experience := e; workload := w; priorities := priorities |}.

(** What [ConstraintProcessor.processConstraints] returns; the [metadata] of
    the success object (the raw input and a time stamp) is left out. *)
Inductive processed : Type :=
| Accepted (constraints : Constraint) (warnings : list string)
| Rejected (errors : list string) (warnings : list string).

Definition processRawConstraints (rawConstraints : value) : processed :=
  match normalizeConstraints rawConstraints with
  | Ok normalized =>
      let validation := validateConstraints normalized in
      if negb (isValid validation) then
        Rejected (errors validation) (warnings validation)
      else Accepted normalized (warnings validation)
  | Throw message =>
      Rejected ["Constraint processing failed: " ++ message] []
  end.

(** ** OutputFormatter (src/engine/outputFormatter.js) *)

Definition requiredSections : list string :=
  ["providers"; "crossProviderAnalysis"; "decisionGuidance"].

Definition requiredProviderSections : list string :=
  ["strengths"; "weaknesses"; "idealUseCases"; "tradeOffs"].

Definition biasKeywords : list string :=
  ["winner"; "loser"; "definitely choose"; "avoid at all costs";
   "hands down"; "without question"; "obviously the best";
   "clearly superior"; "terrible choice"; "awful option"].

Definition promotionalKeywords : list string :=
  ["revolutionary"; "game-changing"; "industry-leading"; "cutting-edge";
   "state-of-the-art"; "world-class"; "premium"; "exclusive";
   "unmatched"; "unparalleled"; "breakthrough"; "innovative"].

(** *** Substrings and the patterns of the neutrality scan *)

Fixpoint startsWith (s prefix : list ascii) : bool :=
  match prefix, s with
  | [], _ => true
  | _ :: _, [] => false
  | p :: prefix', c :: s' => Ascii.eqb p c && startsWith s' prefix'
  end.

Fixpoint includesChars (s sub : list ascii) : bool :=
  startsWith s sub ||
  match s with
  | [] => false
  | _ :: s' => includesChars s' sub
  end.

(** [s.includes(sub)] *)
Definition includesString (s sub : string) : bool :=
  includesChars (list_ascii_of_string s) (list_ascii_of_string sub).

Inductive charClass : Type :=
| Space
| Digit.

Definition inClass (k : charClass) (c : ascii) : bool :=
  let n := nat_of_ascii c in
  match k with
  | Space => ((9 <=? n) && (n <=? 13) || (n =? 32))%nat
  | Digit => ((48 <=? n) && (n <=? 57))%nat
  end.

(** A word character, [[A-Za-z0-9_]] *)
Definition isWordChar (c : ascii) : bool :=
  let n := nat_of_ascii c in
  ((48 <=? n) && (n <=? 57) || (65 <=? n) && (n <=? 90)
   || (97 <=? n) && (n <=? 122) || (n =? 95))%nat.

(** The pieces the six patterns are sequences of: the assertion [\b], an
    alternation of literals [(a|b|...)], and [\s+] or [\d+]. *)
Inductive atom : Type :=
| WordB
| OneOf (alternatives : list string)
| Plus (k : charClass).

Record pattern : Type := {
  atoms : list atom;
  source : string
}.

(** A position in the subject: the character before it, if any, and what
    is left. *)
Definition position : Type := (option ascii * list ascii)%type.

Definition wordBefore (p : position) : bool :=
  match fst p with Some c => isWordChar c | None => false end.
Definition wordAfter (p : position) : bool :=
  match snd p with c :: _ => isWordChar c | [] => false end.

(** The position after the literal [lit] read without regard to case, if
    it is there. *)
Fixpoint matchLiteral (lit : list ascii) (p : position) : option position :=
  match lit with
  | [] => Some p
  | l :: lit' =>
      match snd p with
      | c :: rest =>
          if Ascii.eqb (lowerChar l) (lowerChar c)
          then matchLiteral lit' (Some c, rest)
          else None
      | [] => None
      end
  end.

(** The positions after one, two, ... characters of the class. *)
Fixpoint matchPlus (k : charClass) (prev : option ascii) (s : list ascii)
    : list position :=
  match s with
  | c :: rest =>
      if inClass k c then (Some c, rest) :: matchPlus k (Some c) rest else []
  | [] => []
  end.

(** Every position an atom can end at, started at [p]. *)
Definition matchAtom (a : atom) (p : position) : list position :=
  match a with
  | WordB => if xorb (wordBefore p) (wordAfter p) then [p] else []
  | OneOf alternatives =>
      flat_map
        (fun lit => match matchLiteral (list_ascii_of_string lit) p with
                    | Some q => [q]
                    | None => []
                    end)
        alternatives
  | Plus k => matchPlus k (fst p) (snd p)
  end.

Definition matchSeq (r : list atom) (p : position) : list position :=
  fold_left (fun ps a => flat_map (matchAtom a) ps) r [p].

(** Whether the sequence matches at [p] or at a later position. *)
Fixpoint searchFrom (r : list atom) (prev : option ascii) (s : list ascii) : bool :=
  match matchSeq r (prev, s) with
  | _ :: _ => true
  | [] =>
      match s with
      | c :: rest => searchFrom r (Some c) rest
      | [] => false
      end
  end.

(** [pattern.test(text)] *)
Definition test (p : pattern) (subject : string) : bool :=
  searchFrom (atoms p) None (list_ascii_of_string subject).

Definition rankingPatterns : list pattern := [
  {| atoms := [WordB;
               OneOf ["first"; "second"; "third"; "1st"; "2nd"; "3rd"; "#1"; "#2"; "#3"];
               Plus Space;
               OneOf ["choice"; "option"; "provider"; "place"; "position"];
               WordB];
     source := "\b(first|second|third|1st|2nd|3rd|#1|#2|#3)\s+(choice|option|provider|place|position)\b" |};
  {| atoms := [WordB; OneOf ["rank"; "ranking"; "ranked"]; Plus Space; Plus Digit];
     source := "\b(rank|ranking|ranked)\s+\d+" |};
  {| atoms := [WordB; OneOf ["top"; "bottom"]; Plus Space;
               OneOf ["choice"; "option"; "provider"]; WordB];
     source := "\b(top|bottom)\s+(choice|option|provider)\b" |} ].

Definition recommendationPatterns : list pattern := [
  {| atoms := [WordB; OneOf ["should choose"; "must use"; "go with"; "pick"]; WordB];
     source := "\b(should choose|must use|go with|pick)\b" |};
  {| atoms := [WordB; OneOf ["the answer is"; "the solution is"]; WordB];
     source := "\b(the answer is|the solution is)\b" |};
  {| atoms := [WordB; OneOf ["definitely"; "absolutely"; "certainly"]; Plus Space;
               OneOf ["use"; "choose"; "pick"]; WordB];
     source := "\b(definitely|absolutely|certainly)\s+(use|choose|pick)\b" |} ].

(** *** Text extraction and the two checks *)

(** The strings [extractFromValue] pushes, in the order of its walk. *)
Fixpoint extractFromValue (v : value) : list string :=
  match v with
  | VString s => [s]
  | VArray items => flat_map extractFromValue items
  | VObject fields =>
      (fix each (fs : list (string * value)) : list string :=
         match fs with
         | [] => []
         | (_, x) :: fs' => (extractFromValue x ++ each fs')%list
         end) fields
  | _ => []
  end.

Definition extractTextContent (output : value) : string :=
  join " " (extractFromValue output).

Record biasCheck : Type := {
  isNeutral : bool;
  issues : list string
}.

Definition keywordIssues (label : string) (textContent : string) (kws : list string)
    : list string :=
  flat_map
    (fun keyword =>
       if includesString (toLowerCase textContent) (toLowerCase keyword)
       then [label ++ dquote ++ keyword ++ dquote]
       else [])
    kws.

Definition patternIssues (label : string) (textContent : string) (ps : list pattern)
    : list string :=
  flat_map
    (fun p => if test p textContent then [label ++ source p] else [])
    ps.

Definition detectBias (output : value) : biasCheck :=
  let textContent := extractTextContent output in
  let issues :=
    (keywordIssues "Potential bias detected: " textContent biasKeywords
     ++ keywordIssues "Promotional language detected: " textContent promotionalKeywords
     ++ patternIssues "Numerical ranking detected: " textContent rankingPatterns
     ++ patternIssues "Definitive recommendation detected: " textContent
          recommendationPatterns)%list in
  {| isNeutral := match issues with [] => true | _ => false end;
     issues := issues |}.

(** A loop that pushes messages and may throw. *)
Fixpoint collect {A} (f : A -> result (list string)) (l : list A)
    : result (list string) :=
  match l with
  | [] => Ok []
  | x :: l' =>
      do here <- f x;
      do rest <- collect f l';
      Ok (here ++ rest)%list
  end.

(** The messages for the names of [required] that are not [in] [v]. *)
Definition missingIn (v : value) (required : list string) (message : string -> string)
    : result (list string) :=
  collect (fun section =>
             do present <- js_in section v;
             Ok (if present then [] else [message section]))
          required.

(** [if (v) { ... }]: the block runs for a truthy [v] only. *)
Definition whenTruthy (v : value) (block : result (list string)) : result (list string) :=
  if truthy v then block else Ok [].

Definition validateOutputStructure (output : value) : result (list string) :=
  do e1 <- missingIn output requiredSections
             (fun section => "Missing required section: " ++ section);
  do providers <- get output "providers";
  do e2 <- whenTruthy providers
             (do entries <- Object_entries providers;
              let providerNames := keys entries in
              let missing :=
                flat_map (fun required =>
                            if includes providerNames required then []
                            else ["Missing required provider: " ++ required])
                  ["aws"; "azure"; "gcp"] in
              do sections <-
                collect (fun e =>
                           missingIn (snd e) requiredProviderSections
                             (fun section => "Provider " ++ fst e
                                             ++ " missing required section: " ++ section))
                        entries;
              Ok (missing ++ sections)%list);
  do analysis <- get output "crossProviderAnalysis";
  do e3 <- whenTruthy analysis
             (missingIn analysis
                ["costTradeOffs"; "complexityTradeOffs"; "ecosystemTradeOffs";
                 "flexibilityTradeOffs"]
                (fun section => "Missing cross-provider analysis section: " ++ section));
  do guidance <- get output "decisionGuidance";
  do e4 <- whenTruthy guidance
             (missingIn guidance
                ["costOptimized"; "easeOfUse"; "enterprise"; "innovation"]
                (fun section => "Missing decision guidance section: " ++ section));
  Ok (e1 ++ e2 ++ e3 ++ e4)%list.

Section Formatter.

Variable number_to_string : Q -> string.

(** [arr.join(sep)] on an array of any values: [undefined] and [null] give
    the empty string. *)
Definition joinValues (sep : string) (items : list value) : string :=
  join sep
    (map (fun x => match x with
                   | VUndefined | VNull => ""
                   | _ => js_toString number_to_string x
                   end) items).

Definition ensureArray (v : value) : list value :=
  match v with
  | VArray items => items
  | VString s => [VString s]
  | _ => []
  end.

Definition noTradeOffs : value := VString "Trade-off information not available".

(** The formatter's own [formatTradeOffs]. *)
Definition formatTradeOffsValue (tradeOffs : value) : value :=
  match tradeOffs with
  | VString s => VString s
  | VArray _ | VObject _ =>
      let gains := ensureArray (get_opt tradeOffs "gains") in
      let losses := ensureArray (get_opt tradeOffs "losses") in
      match gains, losses with
      | _ :: _, _ :: _ =>
          VString ("Choosing this provider gains you: " ++ joinValues ", " gains
                   ++ ". However, you may lose: " ++ joinValues ", " losses ++ ".")
      | _, _ => noTradeOffs
      end
  | _ => noTradeOffs
  end.

Definition formatConstraints (constraints : value) : result value :=
  do b <- get constraints "budget";
  do e <- get constraints "experience";
  do w <- get constraints "workload";
  do ps <- get constraints "priorities";
  Ok (VObject [("budget", b); ("experience", e); ("workload", w);
               ("priorities", js_or ps (VArray []))]).

Definition formatProviderValue (providerData : value) : result value :=
  do s <- get providerData "strengths";
  do w <- get providerData "weaknesses";
  do u <- get providerData "idealUseCases";
  do t <- get providerData "tradeOffs";
  Ok (VObject [("strengths", VArray (ensureArray s));
               ("weaknesses", VArray (ensureArray w));
               ("idealUseCases", VArray (ensureArray u));
               ("tradeOffs", formatTradeOffsValue t)]).

(** The loop of [formatProviders] over the entries. *)
Fixpoint formatEntries (formatted : obj value) (entries : obj value)
    : result (obj value) :=
  match entries with
  | [] => Ok formatted
  | (providerName, providerData) :: rest =>
      do section <- formatProviderValue providerData;
      formatEntries (obj_set formatted providerName section) rest
  end.

Definition formatProviders (providers : value) : result value :=
  do entries <- Object_entries providers;
  do formatted <- formatEntries [] entries;
  Ok (VObject formatted).

Definition formatCrossProviderAnalysis (analysis : value) : value :=
  let orText k fallback := js_or (get_opt analysis k) (VString fallback) in
  VObject [
    ("costTradeOffs", orText "costTradeOffs" "Cost trade-off analysis not available");
    ("complexityTradeOffs",
       orText "complexityTradeOffs" "Complexity trade-off analysis not available");
    ("ecosystemTradeOffs",
       orText "ecosystemTradeOffs" "Ecosystem trade-off analysis not available");
    ("flexibilityTradeOffs",
       orText "flexibilityTradeOffs" "Flexibility trade-off analysis not available") ].

Definition formatDecisionGuidance (guidance : value) : value :=
  let arr k := VArray (ensureArray (get_opt guidance k)) in
  VObject [("costOptimized", arr "costOptimized"); ("easeOfUse", arr "easeOfUse");
           ("enterprise", arr "enterprise"); ("innovation", arr "innovation")].

(** The object [formatted] of [formatComparisonResults]. *)
Definition assemble (rawResults constraints : value) (now : string) : result value :=
  do c <- formatConstraints constraints;
  do rawProviders <- get rawResults "providers";
  do ps <- formatProviders (js_or rawProviders (VObject []));
  do rawAnalysis <- get rawResults "crossProviderAnalysis";
  let analysis := formatCrossProviderAnalysis (js_or rawAnalysis (VObject [])) in
  do rawGuidance <- get rawResults "decisionGuidance";
  let guidance := formatDecisionGuidance (js_or rawGuidance (VObject [])) in
  Ok (VObject [("timestamp", VString now); ("constraints", c); ("providers", ps);
               ("crossProviderAnalysis", analysis); ("decisionGuidance", guidance)]).

(** What [formatComparisonResults] returns: the success object with its
    [results] (its [metadata] holds two constant flags and [formattedAt]),
    or the failure object. *)
Inductive formatOutcome : Type :=
| Formatted (results : value) (formattedAt : string)
| FormatFailure (code message stamp : string).

(** The body of the [try] block; [Ok] is the object it returns and
    [Throw] the message of what it throws. *)
Definition formatBody (rawResults constraints : value) (now : string) : result value :=
  do formatted <- assemble rawResults constraints now;
  do structureErrors <- validateOutputStructure formatted;
  match structureErrors with
  | _ :: _ =>
      Throw ("Output structure validation failed: " ++ join ", " structureErrors)
  | [] =>
      let biasCheck := detectBias formatted in
      if negb (isNeutral biasCheck) then
        Throw ("Bias detected in output: " ++ join ", " (issues biasCheck))
      else Ok formatted
  end.

(** [formatComparisonResults(rawResults, constraints)], the clock read as
    [now] when the object is assembled and as [later] afterwards. *)
Definition formatComparisonResults (rawResults constraints : value)
    (now later : string) : formatOutcome :=
  match formatBody rawResults constraints now with
  | Ok formatted => Formatted formatted later
  | Throw message => FormatFailure "OUTPUT_FORMATTING_ERROR" message later
  end.

End Formatter.

(** ** The vocabulary of the specification *)

(** The eight evaluation dimensions. *)
Definition dimensionList : list string :=
  ["cost"; "easeOfUse"; "scalability"; "ecosystem"; "devops"; "aiml";
   "enterprise"; "vendorLockIn"].

(** A valid normalized constraint: what [ConstraintProcessor] accepts. *)
Definition validConstraint (c : Constraint) : bool :=
  includes validBudgets (budget c)
  && includes validExperience (experience c)
  && includes validWorkloads (workload c)
  && forallb (includes validPriorities) (priorities c).

(** *** The weighting composer in the words of the specification *)

(** Blending: [base[d] = base[d]*(1-influence) + overlay[d]*influence] for a
    dimension present in both, a dimension absent from the overlay is left
    unchanged. *)
Definition specBlend (base overlay : obj Q) (influence : Q) : obj Q :=
  map (fun e =>
         (fst e,
          match obj_get overlay (fst e) with
          | Some w => snd e * (1 - influence) + w * influence
          | None => snd e
          end))
      base.

(** Dividing every weight by the sum over the dimensions, all zeros if the
    sum is zero. *)
Definition specNormalize (w : obj Q) : obj Q :=
  let total := sumQ (values w) in
  map (fun e => (fst e, if Qeq_bool total 0 then 0 else snd e / total)) w.

Definition specDistribution (table : obj rule) (k : string) : obj Q :=
  match obj_get table k with
  | Some r => weightings r
  | None => []
  end.

Definition specComposedWeighting (rules : ruleTable) (c : Constraint) : obj Q :=
  let base := specDistribution (rules_budget rules) (budget c) in
  let withExperience :=
    specBlend base (specDistribution (rules_experience rules) (experience c)) 0.3 in
  let withWorkload :=
    specBlend withExperience (specDistribution (rules_workload rules) (workload c)) 0.4 in
  let withPriorities :=
    fold_left
      (fun b p => specBlend b (specDistribution (rules_priorities rules) p) 0.2)
      (priorities c) withWorkload in
  specNormalize withPriorities.

(** *** Distributions over the eight dimensions *)

(** A weighting distribution: one weight for each of the eight dimensions,
    none negative, summing to one. *)
Record isDistribution (w : obj Q) : Prop := {
  dist_nodup : NoDup (keys w);
  dist_keys : Permutation (keys w) dimensionList;
  dist_nonneg : Forall (fun x => 0 <= x) (values w);
  dist_sum : sumQ (values w) == 1
}.

(** The sum of the weights [o] gives to the names [ks]. *)
Definition sumOver (ks : list string) (o : obj Q) : Q :=
  sumQ (map (scoreOr0 o) ks).

Fixpoint distinct (l : list string) : bool :=
  match l with
  | [] => true
  | x :: l' => negb (includes l' x) && distinct l'
  end.

(** The decidable form of [isDistribution]. *)
Definition distributionb (w : obj Q) : bool :=
  distinct (keys w)
  && forallb (includes dimensionList) (keys w)
  && forallb (includes (keys w)) dimensionList
  && forallb (Qle_bool 0) (values w)
  && Qeq_bool (sumQ (values w)) 1.

Definition allDistributions (table : obj rule) : bool :=
  forallb (fun e => distributionb (weightings (snd e))) table.

(** A list in which every element is below the ones after it. *)
Fixpoint ascending (l : list string) : Prop :=
  match l with
  | [] => True
  | x :: l' => Forall (fun y => String.leb x y = true) l' /\ ascending l'
  end.

(** *** Formatted provider entries *)

(** The object [formatProviders] builds for a provider. *)
Definition isProviderSection (v : value) : Prop :=
  exists s w u t,
    v = VObject [("strengths", s); ("weaknesses", w); ("idealUseCases", u);
                 ("tradeOffs", t)].

(** The messages of the structural check for the providers [names] lacks. *)
Definition missingProviders (names : list string) : list string :=
  flat_map (fun required =>
              if includes names required then []
              else ["Missing required provider: " ++ required])
    ["aws"; "azure"; "gcp"].

(** *** Provider records the data manager accepts *)

(** The numeric sub-metrics the schema requires of each dimension block
    (src/schemas/providerSchema.js). *)
Definition requiredMetrics : obj (list string) := [
  ("cost", ["costPredictability"; "budgetFriendliness"]);
  ("easeOfUse", ["learningCurve"; "documentation"; "setupComplexity"; "uiIntuitiveness"]);
  ("scalability", ["globalPresence"; "autoScaling"; "performanceConsistency";
                   "infrastructureMaturity"]);
  ("ecosystem", ["serviceCount"; "integrationOptions"; "thirdPartySupport";
                 "communitySize"]);
  ("devops", ["cicdSupport"; "automationTools"; "containerSupport";
              "infrastructureAsCode"]);
  ("aiml", ["mlServices"; "dataProcessing"; "pretrainedModels"; "customModelSupport"]);
  ("enterprise", ["compliance"; "support"; "sla"; "securityFeatures"]);
  ("vendorLockIn", ["portability"; "standardsCompliance"; "exitStrategy"]) ].

Definition isNumber (v : option value) : bool :=
  match v with Some (VNumber _) => true | _ => false end.

(** Every dimension block is there and holds its required sub-metrics as
    numbers. *)
Definition dimensionsComplete (p : providerData) : bool :=
  forallb
    (fun e => match obj_get (dimensions p) (fst e) with
              | Some block => forallb (fun m => isNumber (obj_get block m)) (snd e)
              | None => false
              end)
    requiredMetrics.

Definition inRange (q : Q) : bool := Qle_bool 1 q && Qle_bool q 10.

(** Every numeric sub-metric of every dimension block lies in [[1,10]]. *)
Definition scoresInRange (p : providerData) : bool :=
  forallb (fun e => forallb inRange (numericScores (snd e))) (dimensions p).

(** *** Rounding in the words of the specification *)

(** Rounding to one decimal place, a half going away from zero, on the
    value scaled by 10. *)
Definition roundHalfAway1 (x : Q) : Q :=
  let scaled := x * 10 in
  if Qle_bool 0 scaled
  then inject_Z (Qfloor (scaled + (1 # 2))) / 10
  else - (inject_Z (Qfloor (- scaled + (1 # 2))) / 10).

(** A number that rounding to one decimal place leaves as it is. *)
Definition isRounded1 (q : Q) : bool := Qeq_bool q (roundHalfAway1 q).

Fixpoint numbersOf (t : text) : list Q :=
  match t with
  | [] => []
  | Num q :: t' => q :: numbersOf t'
  | Lit _ :: t' => numbersOf t'
  end.

(** *** The evaluation with another [passesFilters] *)

Definition withPassesFilters (b : bool) (ev : Evaluation) : Evaluation :=
  {| ev_provider := ev_provider ev;
     totalScore := totalScore ev;
     dimensionScores := dimensionScores ev;
     passesFilters := b;
     ev_strengths := ev_strengths ev;
     ev_weaknesses := ev_weaknesses ev;
     ev_idealUseCases := ev_idealUseCases ev;
     ev_tradeOffs := ev_tradeOffs ev |}.

(** An entry of [evaluations] with its [passesFilters] set to [b]. *)
Definition overridePasses (b : bool) (e : string * Evaluation) : string * Evaluation :=
  (fst e, withPassesFilters b (snd e)).

(** *** What two results have in common besides the wall clock and the
    cache bookkeeping *)

Record resultContent : Type := {
  content_comparison : comparisonOutput;
  content_constraints : Constraint;
  content_weightings : obj Q
}.

(** The content of a returned value: of a success its comparison,
    constraints and weightings, of a failure its message. *)
Definition contentOf (o : outcome) : result resultContent :=
  match o with
  | Success r =>
      Ok {| content_comparison := comparison r;
            content_constraints := md_constraints (result_metadata r);
            content_weightings := md_weightings (result_metadata r) |}
  | Failure _ message _ => Throw message
  end.

(** ** Sample data *)

Definition metrics (l : list (string * Q)) : obj value :=
  map (fun e => (fst e, VNumber (snd e))) l.

Definition sampleDimensions (cost1 cost2 : Q) (ease scal eco dev ai ent : Q * Q * Q * Q)
    (lock : Q * Q * Q) : obj (obj value) :=
  let four (names : string * string * string * string) (v : Q * Q * Q * Q) :=
    let '(n1, n2, n3, n4) := names in
    let '(v1, v2, v3, v4) := v in
    metrics [(n1, v1); (n2, v2); (n3, v3); (n4, v4)] in
  [("cost", [("pricingModel", VString "pay-as-you-go");
             ("freeTrierOffering", VObject [("duration", VString "12 months")]);
             ("costPredictability", VNumber cost1);
             ("budgetFriendliness", VNumber cost2)]);
   ("easeOfUse",
      four ("learningCurve", "documentation", "setupComplexity", "uiIntuitiveness") ease);
   ("scalability",
      four ("globalPresence", "autoScaling", "performanceConsistency",
            "infrastructureMaturity") scal);
   ("ecosystem",
      four ("serviceCount", "integrationOptions", "thirdPartySupport", "communitySize") eco);
   ("devops",
      four ("cicdSupport", "automationTools", "containerSupport", "infrastructureAsCode") dev);
   ("aiml",
      four ("mlServices", "dataProcessing", "pretrainedModels", "customModelSupport") ai);
   ("enterprise", four ("compliance", "support", "sla", "securityFeatures") ent);
   ("vendorLockIn",
      let '(v1, v2, v3) := lock in
      metrics [("portability", v1); ("standardsCompliance", v2); ("exitStrategy", v3)])].

Definition sampleProvider (id display : string) (dims : obj (obj value)) : providerData :=
  {| provider := {| name := id; displayName := display;
                    lastUpdated := "2024-01-15T00:00:00.000Z" |};
     dimensions := dims;
     strengths := ["Broad service catalogue"; "Mature tooling"];
     weaknesses := ["Pricing takes study"];
     idealUseCases := ["Web applications"; "Data pipelines"];
     tradeOffs := {| gains := ["breadth"]; losses := ["simplicity"] |};
     extra := [] |}.

Definition sampleAws : providerData :=
  sampleProvider "aws" "Amazon Web Services"
    (sampleDimensions 6 5 (6, 8, 6, 6) (10, 9, 9, 10) (10, 10, 9, 10)
       (9, 9, 9, 9) (9, 8, 9, 8) (10, 9, 9, 10) (4, 5, 4)).

Definition sampleAzure : providerData :=
  sampleProvider "azure" "Microsoft Azure"
    (sampleDimensions 6 6 (7, 7, 6, 7) (9, 8, 8, 9) (9, 9, 8, 8)
       (8, 8, 8, 8) (8, 8, 8, 7) (10, 10, 9, 9) (4, 5, 5)).

Definition sampleGcp : providerData :=
  sampleProvider "gcp" "Google Cloud Platform"
    (sampleDimensions 8 8 (7, 8, 8, 8) (8, 9, 8, 8) (7, 8, 7, 7)
       (8, 8, 9, 8) (10, 9, 9, 9) (7, 7, 8, 8) (7, 7, 6)).

Definition sampleDataset : obj providerData :=
  [("aws", sampleAws); ("azure", sampleAzure); ("gcp", sampleGcp)].

Definition sampleConstraint : Constraint :=
  {| budget := "low"; experience := "beginner"; workload := "startup";
     priorities := ["cost"] |}.

Definition sampleRequest : obj value :=
  [("budget", VString "low"); ("experience", VString "beginner");
   ("workload", VString "startup"); ("priorities", VArray [VString "cost"])].

(** A raw comparison whose providers share the strength [claim]. *)
Definition sampleRawSection (claim : string) : value :=
  VObject [("strengths", VArray [VString claim; VString "Mature tooling"]);
           ("weaknesses", VArray [VString "Pricing takes study"]);
           ("idealUseCases", VArray [VString "Web applications"]);
           ("tradeOffs", VString "Gains: breadth. Losses: simplicity.");
           ("matchScore", VNumber 7.8)].

Definition sampleRaw (claim : string) : value :=
  VObject [
    ("providers", VObject [("gcp", sampleRawSection claim);
                           ("azure", sampleRawSection "Broad service catalogue");
                           ("aws", sampleRawSection "Broad service catalogue")]);
    ("crossProviderAnalysis",
       VObject [("costTradeOffs", VString "For cost-effectiveness: GCP and AWS differ.");
                ("complexityTradeOffs", VString "For ease of use: GCP and AWS differ.");
                ("ecosystemTradeOffs", VString "For service ecosystem: AWS and GCP differ.");
                ("flexibilityTradeOffs", VString "For portability: GCP and AWS differ.")]);
    ("decisionGuidance",
       VObject [("costOptimized", VArray [VString "GCP (8/10)"; VString "AZURE (6/10)"]);
                ("easeOfUse", VArray [VString "GCP (7.8/10)"; VString "AZURE (6.8/10)"]);
                ("enterprise", VArray [VString "AWS (9.5/10)"; VString "AZURE (9.5/10)"]);
                ("innovation", VArray []);
                ("overallBest", VString "GCP (7.8/10)")]);
    ("constraintSummary", VObject [("topMatch", VString "gcp")]) ].

Definition sampleConstraintValue : value := VObject sampleRequest.

(** A raw request with a priority that is not in the enumerated set. *)
Definition requestWithUnknownPriority : value :=
  VObject [("budget", VString "low"); ("experience", VString "beginner");
           ("workload", VString "startup");
           ("priorities", VArray [VString "cost"; VString "bogus"])].

(** A printer of numbers for the examples, which hold no number to print. *)
Definition printNothing (q : Q) : string := "".

(** *** Cached entries *)

(** The object [cacheResult] stores: the result with its timestamp set to
    [undefined]. *)
Definition withoutTimestamp (r : successResult) : successResult :=
  {| comparison := comparison r;
     result_metadata :=
       {| timestamp := None;
          md_constraints := md_constraints (result_metadata r);
          md_weightings := md_weightings (result_metadata r);
          fromCache := fromCache (result_metadata r);
          md_cacheStats := md_cacheStats (result_metadata r) |} |}.

(** *** A sample evaluation *)

(** A dataset of one record, and the first request the engine answers on
    it. *)
Definition oneProvider : obj providerData := [("gcp", sampleGcp)].

Definition oneRun : engine * outcome :=
  processConstraints printNothing constraintRules newEngine
    "2024-01-15T10:00:00.000Z" oneProvider sampleRequest.

Definition emptyComparison : comparisonOutput :=
  {| providers := [];
     co_crossProviderAnalysis :=
       {| costTradeOffs := []; complexityTradeOffs := [];
          ecosystemTradeOffs := []; flexibilityTradeOffs := [] |};
     co_decisionGuidance :=
       {| costOptimized := []; dg_easeOfUse := []; dg_enterprise := [];
          innovation := []; overallBest := [] |};
     co_constraintSummary := {| topMatch := ""; matchReason := []; allProviders := [] |} |}.

(** What the sample evaluation returned. *)
Definition oneResult : successResult :=
  match snd oneRun with
  | Success r => r
  | Failure _ _ _ =>
      {| comparison := emptyComparison;
         result_metadata :=
           {| timestamp := None; md_constraints := sampleConstraint;
              md_weightings := []; fromCache := false;
              md_cacheStats := getCacheStats newEngine |} |}
  end.

(** The weighting of the sample constraint, and the output for the one
    record under it. *)
Definition sampleWeights : obj Q :=
  match calculateWeightings constraintRules sampleConstraint with
  | Ok w => w
  | Throw _ => []
  end.

Definition oneOutput : comparisonOutput :=
  match generateComparisonOutput
          (evaluateAll constraintRules oneProvider sampleConstraint sampleWeights)
          sampleConstraint with
  | Ok out => out
  | Throw _ => emptyComparison
  end.

(** Two evaluations with their total scores and nothing else, and the
    output for them. *)
Definition sampleEvaluation (id : string) (score : Q) : Evaluation :=
  {| ev_provider := {| name := id; displayName := id; lastUpdated := "" |};
     totalScore := score; dimensionScores := []; passesFilters := false;
     ev_strengths := []; ev_weaknesses := []; ev_idealUseCases := [];
     ev_tradeOffs := {| gains := []; losses := [] |} |}.

Definition sampleEvaluations : obj Evaluation :=
  [("aws", sampleEvaluation "aws" 6); ("gcp", sampleEvaluation "gcp" 8)].

Definition sampleOutput : comparisonOutput :=
  match generateComparisonOutput sampleEvaluations sampleConstraint with
  | Ok out => out
  | Throw _ => emptyComparison
  end.

(** *** The normalized constraint as the object the server passes on *)

(** The object [normalizeConstraints] builds, with its properties in the
    order of its literal. *)
Definition constraintFields (c : Constraint) : obj value :=
  [("budget", VString (budget c)); ("experience", VString (experience c));
   ("workload", VString (workload c));
   ("priorities", VArray (map VString (priorities c)))].

(** A constraint with other priorities. *)
Definition withPriorities (c : Constraint) (ps : list string) : Constraint :=
  {| budget := budget c; experience := experience c; workload := workload c;
     priorities := ps |}.

(** A value [v?.toLowerCase()] does not throw on. *)
Definition lowerable (v : value) : bool :=
  match v with
  | VUndefined | VNull | VString _ => true
  | _ => false
  end.

(** A raw request [normalizeConstraints] does not throw on. *)
Definition normalizable (rawConstraints : value) : bool :=
  match rawConstraints with
  | VUndefined | VNull => false
  | _ =>
      lowerable (get_opt rawConstraints "budget")
      && lowerable (get_opt rawConstraints "experience")
      && lowerable (get_opt rawConstraints "workload")
      && match get_opt rawConstraints "priorities" with
         | VArray items => forallb lowerable items
         | _ => true
         end
  end.

(** The only warning a processed request can carry. *)
Definition noPrioritiesWarning (c : Constraint) : list string :=
  match priorities c with
  | [] => ["No valid priorities specified, using default weighting"]
  | _ :: _ => []
  end.

(** *** Rankings and weighted sums *)

(** A list of numbers in which none is followed by a larger one. *)
Fixpoint descending (l : list Q) : Prop :=
  match l with
  | [] => True
  | x :: l' => Forall (fun y => y <= x) l' /\ descending l'
  end.


(** The entries of a weighting the scoring loop does not skip. *)
Definition scored (dims : obj (obj value)) (entry : string * Q) : bool :=
  Qltb 0 (snd entry) && obj_has dims (fst entry).


(** ** ConstraintProcessor: change detection *)

(** [new Set(xs)]: the distinct elements, in the order of their first
    occurrence. *)
Definition newSet (xs : list string) : list string :=
  fold_left (fun s x => if includes s x then s else (s ++ [x])%list) xs [].

(** [hasSignificantChange(oldConstraints, newConstraints)]; [None] is a
    falsy argument. *)
Definition hasSignificantChange (oldConstraints newConstraints : option Constraint)
    : bool :=
  match oldConstraints, newConstraints with
  | Some o, Some n =>
      if negb (String.eqb (budget o) (budget n))
         || negb (String.eqb (experience o) (experience n))
         || negb (String.eqb (workload o) (workload n))
      then true
      else
        let oldPriorities := newSet (priorities o) in
        let newPriorities := newSet (priorities n) in
        if negb (Nat.eqb (List.length oldPriorities) (List.length newPriorities))
        then true
        else existsb (fun priority => negb (includes newPriorities priority))
               oldPriorities
  | _, _ => true
  end.

(** ** ErrorHandler: the sanitizer of request bodies *)

(** The class [[<>]]. *)
Definition isAngle (c : ascii) : bool :=
  let n := nat_of_ascii c in (n =? 60)%nat || (n =? 62)%nat.

(** What [trim] strips. *)
Definition isWhiteSpace (c : ascii) : bool :=
  let n := nat_of_ascii c in ((9 <=? n) && (n <=? 13) || (n =? 32))%nat.

(** A literal at the head of [s], under the flag [i]. *)
Fixpoint startsWithNoCase (s literal : list ascii) : bool :=
  match literal, s with
  | [], _ => true
  | _ :: _, [] => false
  | p :: literal', c :: s' =>
      Ascii.eqb (lowerChar p) (lowerChar c) && startsWithNoCase s' literal'
  end.

(** The length of the match of [/javascript:/i] at the head of [s]. *)
Definition matchJavascript (s : list ascii) : option nat :=
  if startsWithNoCase s (list_ascii_of_string "javascript:") then Some 11%nat else None.

Fixpoint wordRun (s : list ascii) : nat :=
  match s with
  | c :: s' => if isWordChar c then S (wordRun s') else O
  | [] => O
  end.

(** The length of the match of [/on\w+=/i] at the head of [s].  The greedy
    [\w+] takes the whole run of word characters; giving some back cannot
    help, since the character then facing [=] is a word character. *)
Definition matchHandler (s : list ascii) : option nat :=
  if startsWithNoCase s (list_ascii_of_string "on")
  then
    let rest := skipn 2 s in
    let run := wordRun rest in
    match run, nth_error rest run with
    | S _, Some c => if Ascii.eqb c "="%char then Some (2 + run + 1)%nat else None
    | _, _ => None
    end
  else None.

(** [s.replace(re, '')] for a global [re] whose match at a position is
    given by [matchAt]: the text is scanned from the left, a match is
    dropped and the scan resumes after it.  [skip] counts the characters of
    the current match still to drop. *)
Fixpoint removeMatches (matchAt : list ascii -> option nat) (skip : nat)
    (s : list ascii) : list ascii :=
  match s with
  | [] => []
  | c :: s' =>
      match skip with
      | S k => removeMatches matchAt k s'
      | O =>
          match matchAt s with
          | Some (S k) => removeMatches matchAt k s'
          | _ => c :: removeMatches matchAt O s'
          end
      end
  end.

Fixpoint trimStart (s : list ascii) : list ascii :=
  match s with
  | c :: s' => if isWhiteSpace c then trimStart s' else s
  | [] => []
  end.

Definition trim (s : list ascii) : list ascii :=
  rev (trimStart (rev (trimStart s))).

(** The chain of calls of [sanitizeInput] on a string. *)
Definition sanitizeString (input : string) : string :=
  let noAngles := List.filter (fun c => negb (isAngle c)) (list_ascii_of_string input) in
  let noProtocol := removeMatches matchJavascript O noAngles in
  let noHandlers := removeMatches matchHandler O noProtocol in
  string_of_list_ascii (firstn 1000 (trim noHandlers)).

Definition sanitizeInput (input : value) : value :=
  match input with
  | VString s => VString (sanitizeString s)
  | _ => input
  end.

(** [deepSanitize(obj)]: the object is rebuilt by assignment, entry by
    entry. *)
Fixpoint deepSanitize (o : value) : value :=
  match o with
  | VString _ => sanitizeInput o
  | VArray items => VArray (map deepSanitize items)
  | VObject fields =>
      VObject
        (fold_left (fun sanitized e => obj_set sanitized (fst e) (snd e))
           ((fix each (fs : list (string * value)) : list (string * value) :=
               match fs with
               | [] => []
               | (key, x) :: fs' => (key, deepSanitize x) :: each fs'
               end) fields)
           [])
  | _ => o
  end.

(** [a] is [b] with some characters left out. *)
Inductive Subsequence {A} : list A -> list A -> Prop :=
| sub_nil : Subsequence [] []
| sub_keep (x : A) (a b : list A) : Subsequence a b -> Subsequence (x :: a) (x :: b)
| sub_drop (x : A) (a b : list A) : Subsequence a b -> Subsequence a (x :: b).

(** ** The provider schema and its validator (utils/validation.js) *)

(** A schema object, by its [type]; an absent keyword is [None]. *)
Inductive schema : Type :=
| SString (enum : option (list string)) (format : option string)
| SNumber (minimum maximum : option Q)
| SArray (items : option schema) (minItems maxItems : option nat)
| SObject (required : option (list string))
          (properties : option (list (string * schema)))
| SOther (type : string).

Definition score : schema := SNumber (Some 1) (Some 10).

Definition scores (names : list string) : schema :=
  SObject (Some names) (Some (map (fun n => (n, score)) names)).

Definition texts : schema := SArray (Some (SString None None)) (Some 1%nat) None.

Definition providerSchema : schema :=
  SObject
    (Some ["provider"; "dimensions"; "strengths"; "weaknesses"; "idealUseCases";
           "tradeOffs"])
    (Some [
      ("provider",
         SObject (Some ["name"; "displayName"; "lastUpdated"])
           (Some [("name", SString (Some ["aws"; "azure"; "gcp"]) None);
                  ("displayName", SString None None);
                  ("lastUpdated", SString None (Some "date-time"))]));
      ("dimensions",
         SObject
           (Some ["cost"; "easeOfUse"; "scalability"; "ecosystem"; "devops"; "aiml";
                  "enterprise"; "vendorLockIn"])
           (Some [
             ("cost",
                SObject
                  (Some ["pricingModel"; "freeTrierOffering"; "costPredictability";
                         "budgetFriendliness"])
                  (Some [("pricingModel", SString None None);
                         ("freeTrierOffering", SObject None None);
                         ("costPredictability", score);
                         ("budgetFriendliness", score)]));
             ("easeOfUse",
                scores ["learningCurve"; "documentation"; "setupComplexity";
                        "uiIntuitiveness"]);
             ("scalability",
                scores ["globalPresence"; "autoScaling"; "performanceConsistency";
                        "infrastructureMaturity"]);
             ("ecosystem",
                scores ["serviceCount"; "integrationOptions"; "thirdPartySupport";
                        "communitySize"]);
             ("devops",
                scores ["cicdSupport"; "automationTools"; "containerSupport";
                        "infrastructureAsCode"]);
             ("aiml",
                scores ["mlServices"; "dataProcessing"; "pretrainedModels";
                        "customModelSupport"]);
             ("enterprise", scores ["compliance"; "support"; "sla"; "securityFeatures"]);
             ("vendorLockIn",
                scores ["portability"; "standardsCompliance"; "exitStrategy"])]));
      ("strengths", texts);
      ("weaknesses", texts);
      ("idealUseCases", texts);
      ("tradeOffs",
         SObject (Some ["gains"; "losses"]) (Some [("gains", texts); ("losses", texts)]))]).

(** [typeof v] *)
Definition typeof (v : value) : string :=
  match v with
  | VUndefined => "undefined"
  | VBool _ => "boolean"
  | VNumber _ => "number"
  | VString _ => "string"
  | VNull | VArray _ | VObject _ => "object"
  end.

(** [path ? `${path}.${name}` : name] *)
Definition subPath (path name : string) : string :=
  match path with
  | EmptyString => name
  | _ => path ++ "." ++ name
  end.

Module Validation.

(** The object [{ isValid, errors }] the validators return. *)
Record report : Type := {
  isValid : bool;
  errors : list string
}.

Definition reportOf (errors : list string) : report :=
  {| isValid := match errors with [] => true | _ => false end;
     errors := errors |}.

Section Validator.

Variable number_to_string : Q -> string.

(** [_isValidDateTime]: whether [new Date(s).toISOString()] gives [s] back.
    The parsing of dates is not modelled. *)
Variable isValidDateTime : string -> bool.

(** [_validateValue(value, schema, path)] with [_validateObject] in its
    place; the result is what the call appends to [this.errors]. *)
Fixpoint validateValue (s : schema) (v : value) (path : string) {struct s}
    : list string :=
  match s with
  | SString enum format =>
      match v with
      | VString str =>
          let badFormat :=
            match format with
            | Some f => String.eqb f "date-time" && negb (isValidDateTime str)
            | None => false
            end in
          match enum with
          | Some allowed =>
              if negb (includes allowed str)
              then [(path ++ ": Value " ++ dquote ++ str ++ dquote
                    ++ " not in allowed enum: " ++ join ", " allowed)%string]
              else if badFormat
                   then [(path ++ ": Invalid date-time format")%string]
                   else []
          | None =>
              if badFormat then [(path ++ ": Invalid date-time format")%string] else []
          end
      | _ => [(path ++ ": Expected string, got " ++ typeof v)%string]
      end
  | SNumber minimum maximum =>
      match v with
      | VNumber q =>
          (match minimum with
           | Some m =>
               if Qltb q m
               then [(path ++ ": Value " ++ number_to_string q ++ " is below minimum "
                     ++ number_to_string m)%string]
               else []
           | None => []
           end
           ++
           match maximum with
           | Some m =>
               if Qltb m q
               then [(path ++ ": Value " ++ number_to_string q ++ " is above maximum "
                     ++ number_to_string m)%string]
               else []
           | None => []
           end)%list
      | _ => [(path ++ ": Expected number, got " ++ typeof v)%string]
      end
  | SArray items minItems maxItems =>
      match v with
      | VArray l =>
          (match minItems with
           | Some m =>
               if (List.length l <? m)%nat
               then [(path ++ ": Array has " ++ nat_to_string (List.length l)
                     ++ " items, minimum is " ++ nat_to_string m)%string]
               else []
           | None => []
           end
           ++
           match maxItems with
           | Some m =>
               if (m <? List.length l)%nat
               then [(path ++ ": Array has " ++ nat_to_string (List.length l)
                     ++ " items, maximum is " ++ nat_to_string m)%string]
               else []
           | None => []
           end
           ++
           match items with
           | Some itemSchema =>
               (fix each (index : nat) (l : list value) : list string :=
                  match l with
                  | [] => []
                  | item :: l' =>
                      (validateValue itemSchema item
                         (path ++ "[" ++ nat_to_string index ++ "]")%string
                       ++ each (S index) l')%list
                  end) O l
           | None => []
           end)%list
      | _ => [(path ++ ": Expected array, got " ++ typeof v)%string]
      end
  | SObject required properties =>
      match v with
      | VObject data =>
          (match required with
           | Some names =>
               flat_map
                 (fun requiredProp =>
                    if obj_has data requiredProp then []
                    else [(path ++ "." ++ requiredProp
                           ++ ": Required property missing")%string])
                 names
           | None => []
           end
           ++
           match properties with
           | Some ps =>
               (fix each (ps : list (string * schema)) : list string :=
                  match ps with
                  | [] => []
                  | (propName, propSchema) :: ps' =>
                      (match obj_get data propName with
                       | Some x => validateValue propSchema x (subPath path propName)
                       | None => []
                       end
                       ++ each ps')%list
                  end) ps
           | None => []
           end)%list
      | _ => [(path ++ ": Expected object, got " ++ typeof v)%string]
      end
  | SOther type => [(path ++ ": Unknown schema type: " ++ type)%string]
  end.

(** [validate(data, schema)] followed by [getErrors()]: a schema that is
    neither an array nor an object schema is not checked at the top. *)
Definition validate (data : value) (s : schema) : list string :=
  match s with
  | SArray _ _ _ | SObject _ _ => validateValue s data ""
  | _ => []
  end.

Definition validateProviderData (providerData : value) : report :=
  reportOf (validate providerData providerSchema).

(** [checkScores(obj, path)] of [validateScoreRanges], on the entries of
    [obj]. *)
Fixpoint checkScore (v : value) (currentPath : string) : list string :=
  match v with
  | VNumber q =>
      if Qltb q 1 || Qltb 10 q
      then [("Score at " ++ currentPath ++ " is " ++ number_to_string q
             ++ ", must be between 1 and 10")%string]
      else []
  | VObject fields =>
      (fix each (fs : list (string * value)) : list string :=
         match fs with
         | [] => []
         | (key, x) :: fs' => (checkScore x (subPath currentPath key) ++ each fs')%list
         end) fields
  | _ => []
  end.

Definition checkScores (entries : list (string * value)) (path : string) : list string :=
  flat_map (fun e => checkScore (snd e) (subPath path (fst e))) entries.

Definition validateScoreRanges (dimensions : value) : result report :=
  do entries <- Object_entries dimensions ;
  Ok (reportOf (checkScores entries "")).

(** [validateProviderName(providerName)] *)
Definition validateProviderName (providerName : value) : report :=
  let validProviders := ["aws"; "azure"; "gcp"] in
  let isValid := includesValue validProviders providerName in
  {| isValid := isValid;
     errors := if isValid then []
               else ["Invalid provider name: " ++ js_toString number_to_string providerName
                     ++ ". Must be one of: " ++ join ", " validProviders] |}.

End Validator.

(** [validateDimensions(dimensions)] *)
Definition validateDimensions (dimensions : value) : result report :=
  let requiredDimensions :=
    ["cost"; "easeOfUse"; "scalability"; "ecosystem"; "devops"; "aiml"; "enterprise";
     "vendorLockIn"] in
  do missing <-
    fold_left
      (fun acc dim =>
         do kept <- acc ;
         do present <- js_in dim dimensions ;
         Ok (if present then kept else (kept ++ [dim])%list))
      requiredDimensions (Ok []) ;
  Ok {| isValid := match missing with [] => true | _ => false end;
        errors := map (fun dim => "Missing required dimension: " ++ dim) missing |}.

End Validation.

(** ** DataManager (data/dataManager.js) *)

Module DataManager.

(** What opening, reading and parsing the file of a provider comes to: the
    file is not there ([ENOENT]), another error is thrown on the way (its
    message is kept), or the parsed content. *)
Inductive file : Type :=
| NotFound
| Failed (message : string)
| Parsed (data : value).

(** [{ provider, success, recordCount }] or [{ provider, success, error }] *)
Record loadResult : Type := {
  provider : string;
  success : bool;
  recordCount : option nat;
  error : option string
}.

(** The state of a [DataManager]: the map of the providers and the flag. *)
Record manager : Type := {
  providers : obj value;
  isInitialized : bool
}.

Definition newManager : manager := {| providers := []; isInitialized := false |}.

(** [{ success, providersLoaded, loadResults }] or [{ success, error }] *)
Record initResult : Type := {
  init_success : bool;
  providersLoaded : option nat;
  loadResults : option (list loadResult);
  init_error : option string
}.

(** [{ isValid, errors, warnings }] *)
Record integrity : Type := {
  isValid : bool;
  errors : list string;
  warnings : list string
}.

Definition requiredProviders : list string := ["aws"; "azure"; "gcp"].

Section Manager.

Variable number_to_string : Q -> string.
Variable isValidDateTime : string -> bool.

(** The files of the data directory at the time of a call, by provider
    name, and the error of [_ensureDataDirectory] when it throws one. *)
Variable files : string -> file.
Variable directoryError : option string.

(** [_loadProvider(providerName)] *)
Definition loadProvider (m : manager) (providerName : string)
    : manager * result loadResult :=
  match files providerName with
  | NotFound =>
      (m, Ok {| provider := providerName; success := false; recordCount := None;
                error := Some "File not found" |})
  | Failed message => (m, Throw message)
  | Parsed providerData =>
      let validation :=
        Validation.validateProviderData number_to_string isValidDateTime providerData in
      if negb (Validation.isValid validation)
      then (m, Throw ("Invalid data structure: "
                      ++ join ", " (Validation.errors validation)))
      else ({| providers := obj_set (providers m) providerName providerData;
               isInitialized := isInitialized m |},
            Ok {| provider := providerName; success := true;
                  recordCount := Some 1%nat; error := None |})
  end.

(** [_loadAllProviders()] *)
Definition loadAllProviders (m : manager) : manager * list loadResult :=
  fold_left
    (fun (state : manager * list loadResult) providerName =>
       let '(m, results) := state in
       match loadProvider m providerName with
       | (m', Ok loaded) => (m', (results ++ [loaded])%list)
       | (m', Throw message) =>
           (m', (results ++ [{| provider := providerName; success := false;
                                recordCount := None; error := Some message |}])%list)
       end)
    requiredProviders (m, []).

(** [initialize()] *)
Definition initialize (m : manager) : manager * initResult :=
  match directoryError with
  | Some message =>
      (m, {| init_success := false; providersLoaded := None; loadResults := None;
             init_error := Some message |})
  | None =>
      let '(m', results) := loadAllProviders m in
      ({| providers := providers m'; isInitialized := true |},
       {| init_success := true;
          providersLoaded := Some (List.length (providers m'));
          loadResults := Some results;
          init_error := None |})
  end.

(** [reloadData()] *)
Definition reloadData (m : manager) : manager * initResult :=
  initialize {| providers := []; isInitialized := isInitialized m |}.

(** [getProvider(providerName)] *)
Definition getProvider (m : manager) (providerName : value) : result value :=
  let validation := Validation.validateProviderName number_to_string providerName in
  if negb (Validation.isValid validation)
  then Throw ("Invalid provider name: " ++ js_toString number_to_string providerName)
  else
    match providerName with
    | VString n =>
        match obj_get (providers m) n with
        | Some data => Ok (js_or data VNull)
        | None => Ok VNull
        end
    | _ => Ok VNull
    end.

Definition getProviderNames (m : manager) : list string := keys (providers m).

(** [validateIntegrity()] *)
Definition validateIntegrity (m : manager) : integrity :=
  if negb (isInitialized m)
  then {| isValid := false; errors := ["DataManager not initialized"]; warnings := [] |}
  else
    let loadedProviders := getProviderNames m in
    let missing :=
      flat_map
        (fun required =>
           if includes loadedProviders required then []
           else [("Missing required provider: " ++ required)%string])
        requiredProviders in
    let invalid :=
      flat_map
        (fun entry : string * value =>
           let validation :=
             Validation.validateProviderData number_to_string isValidDateTime
               (snd entry) in
           if negb (Validation.isValid validation)
           then [("Invalid data for provider " ++ fst entry ++ ": "
                  ++ join ", " (Validation.errors validation))%string]
           else [])
        (providers m) in
    let errors := (missing ++ invalid)%list in
    {| isValid := match errors with [] => true | _ => false end;
       errors := errors;
       warnings := [] |}.

End Manager.

End DataManager.

(** *** What the schema asks of a record *)

(** The property [k] of [o] is a non-empty array of strings. *)
Definition hasTexts (o : obj value) (k : string) : Prop :=
  exists l, obj_get o k = Some (VArray l) /\ l <> []
            /\ Forall (fun x => exists s, x = VString s) l.

(** The property [m] of [block] is a number of [[1,10]]. *)
Definition hasScore (block : obj value) (m : string) : Prop :=
  exists q, obj_get block m = Some (VNumber q) /\ inRange q = true.

(** The property names an object schema mentions. *)
Definition declaredProperties (s : schema) : list string :=
  match s with
  | SObject required properties =>
      (match required with Some names => names | None => [] end
       ++ match properties with Some ps => keys ps | None => [] end)%list
  | _ => []
  end.

(** The record the loader takes from the file of a provider: the file is
    there, has been read and parsed, and its content passes the schema. *)
Definition usableFile (number_to_string : Q -> string) (isValidDateTime : string -> bool)
    (files : string -> DataManager.file) (providerName : string) : option value :=
  match files providerName with
  | DataManager.Parsed data =>
      if Validation.isValid
           (Validation.validateProviderData number_to_string isValidDateTime data)
      then Some data
      else None
  | _ => None
  end.

(** A directory with a record for aws, a file for azure that does not
    parse, and no file for gcp. *)
Definition sampleFiles (providerName : string) : DataManager.file :=
  if String.eqb providerName "aws" then DataManager.Parsed (providerValue sampleAws)
  else if String.eqb providerName "azure"
       then DataManager.Failed "Unexpected end of JSON input"
       else DataManager.NotFound.

Definition anyDate (s : string) : bool := true.

(** ** Numbers as the program has them: binary64

    A finite double is the rational it stands for.  Each arithmetic
    operation of the source is the exact operation followed by the rounding
    of IEEE 754 binary64, to nearest with ties to even, subnormal numbers
    included; a number written in the source or in a data file is the
    double nearest to it.  Overflow to an infinity is not modelled: the
    numbers of the engine stay far below 2^1024. *)

Definition pow2 (k : Z) : Q := 2 ^ k.

(** The binade of a positive number: the [e] with [2^e <= x < 2^(e+1)]. *)
Definition exponent (x : Q) : Z :=
  let e0 := (Z.log2 (Qnum x) - Z.log2 (Zpos (Qden x)))%Z in
  if Qle_bool (pow2 e0) x then e0 else (e0 - 1)%Z.

(** The integer nearest to [y], and of two equally near the even one. *)
Definition rne (y : Q) : Z :=
  let f := Qfloor y in
  match Qcompare (y - inject_Z f) (1 # 2) with
  | Lt => f
  | Gt => (f + 1)%Z
  | Eq => if Z.even f then f else (f + 1)%Z
  end.

(** The multiple of [2^k] nearest to [x]. *)
Definition roundAt (k : Z) (x : Q) : Q := inject_Z (rne (x * pow2 (- k))) * pow2 k.

(** The double nearest to [x]: it has 53 significant bits, so in the binade
    [e] it is a multiple of [2^(e-52)], and below [2^-1022] a multiple of
    [2^-1074]. *)
Definition round64 (x : Q) : Q :=
  if Qeq_bool x 0 then 0
  else Qred (roundAt (Z.max (exponent (Qabs x)) (-1022) - 52) x).

(** [a + b], [a - b], [a * b] and [a / b] on doubles *)
Definition fadd (a b : Q) : Q := round64 (a + b).
Definition fsub (a b : Q) : Q := round64 (a - b).
Definition fmul (a b : Q) : Q := round64 (a * b).
Definition fdiv (a b : Q) : Q := round64 (a / b).

(** The unit roundoff and half the smallest subnormal. *)
Definition u64 : Q := pow2 (-53).
Definition eta64 : Q := pow2 (-1075).

(** ** The weighting composer and the evaluator in binary64

    The functions of [ComparisonEngine] that compute with numbers, with the
    arithmetic of the program: the structure is that of the definitions
    above, each operation is the rounded one. *)

Module Binary64.

(** A number as written in the source or in a data file. *)
Definition literal (q : Q) : Q := round64 q.

(** [mergeWeightings(base, overlay, influence)] *)
Definition mergeWeightings (base overlay : obj Q) (influence : Q) : obj Q :=
  fold_left
    (fun b entry =>
       let '(dimension, weight) := entry in
       match obj_get b dimension with
       | Some x =>
           obj_set b dimension
             (fadd (fmul x (fsub 1 influence)) (fmul weight influence))
       | None => b
       end)
    overlay base.

(** [normalizeWeightings(weightings)] *)
Definition normalizeWeightings (w : obj Q) : obj Q :=
  let total := fold_left fadd (values w) 0 in
  fold_left
    (fun normalized entry =>
       let '(dimension, weight) := entry in
       obj_set normalized dimension (if Qltb 0 total then fdiv weight total else 0))
    w [].

(** [rules.budget[constraints.budget].weightings], its numbers read as
    doubles. *)
Definition ruleWeightings (table : obj rule) (k : string) : result (obj Q) :=
  match obj_get table k with
  | Some r => Ok (map (fun e => (fst e, literal (snd e))) (weightings r))
  | None => Throw typeError
  end.

Definition applyPriorities (rules : ruleTable) (base : obj Q) (ps : list string) : obj Q :=
  fold_left
    (fun b priority =>
       match obj_get (rules_priorities rules) priority with
       | Some r =>
           mergeWeightings b (map (fun e => (fst e, literal (snd e))) (weightings r))
             (literal 0.2)
       | None => b
       end)
    ps base.

Definition calculateWeightings (rules : ruleTable) (c : Constraint) : result (obj Q) :=
  do baseWeightings <- ruleWeightings (rules_budget rules) (budget c);
  do experienceWeightings <- ruleWeightings (rules_experience rules) (experience c);
  let base1 := mergeWeightings baseWeightings experienceWeightings (literal 0.3) in
  do workloadWeightings <- ruleWeightings (rules_workload rules) (workload c);
  let base2 := mergeWeightings base1 workloadWeightings (literal 0.4) in
  Ok (normalizeWeightings (applyPriorities rules base2 (priorities c))).

(** [calculateDimensionScore(dimensionData)] *)
Definition calculateDimensionScore (dimensionData : obj value) : Q :=
  let scores := map literal (numericScores dimensionData) in
  match scores with
  | [] => 0
  | _ => fdiv (fold_left fadd scores 0) (lengthQ scores)
  end.

(** The scoring loop of [evaluateProvider]. *)
Definition scoreStep (dims : obj (obj value)) (acc : Q * obj Q)
    (entry : string * Q) : Q * obj Q :=
  let '(dimensionName, weight) := entry in
  if Qltb 0 weight then
    match obj_get dims dimensionName with
    | Some block =>
        let dimensionScore := calculateDimensionScore block in
        (fadd (fst acc) (fmul dimensionScore weight),
         obj_set (snd acc) dimensionName dimensionScore)
    | None => acc
    end
  else acc.

Definition scoreLoop (dims : obj (obj value)) (w : obj Q) : Q * obj Q :=
  fold_left (scoreStep dims) w (0, []).

(** [evaluateProvider(providerData, weightings, constraints)] *)
Definition evaluateProvider (rules : ruleTable) (p : providerData)
    (c : Constraint) (w : obj Q) : Evaluation :=
  let scored := scoreLoop (dimensions p) w in
  {| ev_provider := provider p;
     totalScore := fst scored;
     dimensionScores := snd scored;
     passesFilters := checkConstraintFilters rules p c;
     ev_strengths := strengths p;
     ev_weaknesses := weaknesses p;
     ev_idealUseCases := idealUseCases p;
     ev_tradeOffs := tradeOffs p |}.

(** [Math.round(x * 10) / 10] *)
Definition round1 (x : Q) : Q := fdiv (inject_Z (Math_round (fmul x 10))) 10.

End Binary64.

(** *** What the analysis of the rounding uses *)

(** Bounds on the error of one rounding: [2^-53], and a number above half
    the smallest subnormal. *)
Definition roundoff : Q := 1 # 9007199254740992.
Definition tiny : Q := 1 # 1000000000000000000000000000000.

(** The weightings of a rule as the program reads them. *)
Definition ruleLiterals (r : rule) : obj Q :=
  map (fun e => (fst e, Binary64.literal (snd e))) (weightings r).

(** A rule gives each of the eight dimensions one weight of [[0,1]], and
    scalability at least 1/32. *)
Definition ruleInRange (r : rule) : bool :=
  distinct (keys (weightings r))
  && forallb (includes dimensionList) (keys (weightings r))
  && forallb (includes (keys (weightings r))) dimensionList
  && forallb (fun x => Qle_bool 0 x && Qle_bool x 1) (values (ruleLiterals r))
  && match obj_get (ruleLiterals r) "scalability" with
     | Some x => Qle_bool (1 # 32) x
     | None => false
     end.

Definition tableInRange (rules : ruleTable) : bool :=
  forallb (fun e => ruleInRange (snd e))
    (rules_budget rules ++ rules_experience rules ++ rules_workload rules
     ++ rules_priorities rules)%list.

(** An influence under which a blend of weights of [[0,1]] stays in
    [[0,1]], and one of weights of [[1/32,1]] stays above 1/32. *)
Definition influenceInRange (i : Q) : bool :=
  Qle_bool 0 i && Qle_bool 0 (1 - i)
  && Qle_bool (round64 (round64 (fsub 1 i) + round64 i)) 1
  && Qle_bool (1 # 32)
       (round64 (round64 ((1 # 32) * fsub 1 i) + round64 ((1 # 32) * i))).

(** Weights over the eight dimensions, each in [[0,1]], with scalability at
    least 1/32. *)
Record weightsInRange (w : obj Q) : Prop := {
  range_nodup : NoDup (keys w);
  range_keys : Permutation (keys w) dimensionList;
  range_unit : Forall (fun e => 0 <= snd e /\ snd e <= 1) w;
  range_anchor : exists x, obj_get w "scalability" = Some x /\ 1 # 32 <= x
}.

(** The error of one rounding of a number of [[0,64]] is at most [err];
    the sum of the normalized weights is within [slack] of 1, and a total
    score within [slack] of the range of the scores. *)
Definition err : Q := 1 # 100000000000000.
Definition slack : Q := 1 # 1000000000.

(** No block of the record has so many numeric sub-metrics that their
    sum leaves the integers binary64 holds exactly. *)
Definition blocksBounded (p : providerData) : bool :=
  forallb
    (fun e => (10 * Z.of_nat (List.length (numericScores (snd e))) <=? 2 ^ 53)%Z)
    (dimensions p).


(** The record with every sub-metric at 10, the one with every sub-metric
    at 1, and a record whose only block is empty; two requests for an
    enterprise workload. *)
Definition allTen : providerData :=
  sampleProvider "aws" "Amazon Web Services"
    (sampleDimensions 10 10 (10, 10, 10, 10) (10, 10, 10, 10) (10, 10, 10, 10)
       (10, 10, 10, 10) (10, 10, 10, 10) (10, 10, 10, 10) (10, 10, 10)).

Definition allOne : providerData :=
  sampleProvider "aws" "Amazon Web Services"
    (sampleDimensions 1 1 (1, 1, 1, 1) (1, 1, 1, 1) (1, 1, 1, 1)
       (1, 1, 1, 1) (1, 1, 1, 1) (1, 1, 1, 1) (1, 1, 1)).

Definition emptyBlock : providerData :=
  sampleProvider "aws" "Amazon Web Services" [("cost", [])].

Definition costForEnterprise : Constraint :=
  {| budget := "low"; experience := "beginner"; workload := "enterprise";
     priorities := ["cost"] |}.

Definition devopsForEnterprise : Constraint :=
  {| budget := "low"; experience := "beginner"; workload := "enterprise";
     priorities := ["devops"] |}.

(** *** Names a lookup can rely on *)

(** The properties every object of the program inherits from
    [Object.prototype]: [o[k]] and [k in o] find them in an object that
    has no property [k] of its own, and the association lists do not hold
    them. *)
Definition inheritedNames : list string :=
  ["constructor"; "__defineGetter__"; "__defineSetter__"; "hasOwnProperty";
   "__lookupGetter__"; "__lookupSetter__"; "isPrototypeOf"; "propertyIsEnumerable";
   "toString"; "valueOf"; "__proto__"; "toLocaleString"].

Definition plainName (k : string) : bool := negb (includes inheritedNames k).

(** None of the names [calculateWeightings] looks up for the constraint
    [c], in the rule table or in the weights, is inherited. *)
Definition plainNames (rules : ruleTable) (c : Constraint) : bool :=
  plainName (budget c) && plainName (experience c) && plainName (workload c)
  && forallb plainName (priorities c)
  && forallb (fun e => forallb plainName (keys (weightings (snd e))))
       (rules_budget rules ++ rules_experience rules ++ rules_workload rules
        ++ rules_priorities rules)%list.

(** A constraint with a priority the rule table does not have. *)
Definition speedConstraint : Constraint :=
  withPriorities sampleConstraint ["cost"; "speed"].

(** The request that spells out every default of
    [validateAndNormalizeConstraints]. *)
Definition defaultRequest : obj value :=
  [("budget", VString "medium"); ("experience", VString "intermediate");
   ("workload", VString "startup"); ("priorities", VArray [])].

(** * Properties *)

(** ** Sums of rationals *)

Lemma fold_Qplus_acc (l : list Q) (a : Q) : fold_left Qplus l a == a + sumQ l.
Proof.
  unfold sumQ. revert a.
  induction l as [| x l IH]; intros a; simpl.
  - ring.
  - rewrite (IH (a + x)), (IH (0 + x)). ring.
Qed.

Lemma sumQ_cons (x : Q) (l : list Q) : sumQ (x :: l) == x + sumQ l.
Proof.
  unfold sumQ at 1. simpl. rewrite fold_Qplus_acc. ring.
Qed.

Lemma sumQ_nil : sumQ [] == 0.
Proof. reflexivity. Qed.

Lemma sumQ_perm (l1 l2 : list Q) : Permutation l1 l2 -> sumQ l1 == sumQ l2.
Proof.
  induction 1 as [| x l1 l2 _ IH | x y l | l1 l2 l3 _ IH1 _ IH2].
  - reflexivity.
  - rewrite !sumQ_cons, IH. reflexivity.
  - rewrite !sumQ_cons. ring.
  - rewrite IH1. exact IH2.
Qed.

Lemma sumQ_bounds (lo hi : Q) (l : list Q) :
  Forall (fun x => lo <= x <= hi) l ->
  lo * lengthQ l <= sumQ l <= hi * lengthQ l.
Proof.
  unfold lengthQ.
  induction 1 as [| x l Hx _ IH].
  - simpl. rewrite sumQ_nil. split; ring_simplify; apply Qle_refl.
  - rewrite sumQ_cons.
    assert (E : inject_Z (Z.of_nat (List.length (x :: l)))
                == 1 + inject_Z (Z.of_nat (List.length l))).
    { simpl List.length. rewrite Nat2Z.inj_succ. unfold Z.succ.
      rewrite inject_Z_plus. ring. }
    rewrite E. split.
    + setoid_replace (lo * (1 + inject_Z (Z.of_nat (List.length l))))
        with (lo + lo * inject_Z (Z.of_nat (List.length l))) by ring.
      apply Qplus_le_compat; [apply Hx | apply IH].
    + setoid_replace (hi * (1 + inject_Z (Z.of_nat (List.length l))))
        with (hi + hi * inject_Z (Z.of_nat (List.length l))) by ring.
      apply Qplus_le_compat; [apply Hx | apply IH].
Qed.

Lemma Qltb_lt (x y : Q) : Qltb x y = true <-> x < y.
Proof.
  unfold Qltb. rewrite negb_true_iff. split; intros H.
  - apply Qnot_le_lt. intros C. apply Qle_bool_iff in C. congruence.
  - destruct (Qle_bool y x) eqn:E; [| reflexivity].
    apply Qle_bool_iff in E. exfalso. exact (Qlt_not_le _ _ H E).
Qed.

(** ** Objects *)

Lemma obj_get_In {A} (o : obj A) (k : string) (v : A) :
  obj_get o k = Some v -> In (k, v) o.
Proof.
  induction o as [| [k' v'] o IH]; simpl; [discriminate |].
  destruct (String.eqb_spec k' k) as [-> | _].
  - intros [= ->]. now left.
  - intros H. right. now apply IH.
Qed.

Lemma obj_get_None {A} (o : obj A) (k : string) :
  obj_get o k = None <-> ~ In k (keys o).
Proof.
  induction o as [| [k' v'] o IH]; simpl.
  - tauto.
  - destruct (String.eqb_spec k' k) as [-> | N].
    + split; [discriminate | intros H; exfalso; apply H; now left].
    + rewrite IH. split; intros H; [intros [E | I]; [congruence | tauto] | tauto].
Qed.

Lemma obj_get_Some_key {A} (o : obj A) (k : string) (v : A) :
  obj_get o k = Some v -> In k (keys o).
Proof.
  intros H. apply obj_get_In in H. apply (in_map fst) in H. exact H.
Qed.

Lemma In_obj_get {A} (o : obj A) (k : string) (v : A) :
  NoDup (keys o) -> In (k, v) o -> obj_get o k = Some v.
Proof.
  induction o as [| [k' v'] o IH]; simpl; [tauto |].
  intros N [E | I].
  - injection E as -> ->. now rewrite String.eqb_refl.
  - inversion N as [| ? ? Hk N']; subst.
    destruct (String.eqb_spec k' k) as [-> | _].
    + exfalso. apply Hk. apply (in_map fst) in I. exact I.
    + now apply IH.
Qed.

Lemma keys_obj_set {A} (o : obj A) (k : string) (v : A) :
  keys (obj_set o k v) = if obj_has o k then keys o else (keys o ++ [k])%list.
Proof.
  unfold obj_has.
  induction o as [| [k' v'] o IH]; simpl; [reflexivity |].
  destruct (String.eqb k' k); simpl; [reflexivity |].
  rewrite IH. now destruct (obj_get o k).
Qed.

Lemma obj_get_set {A} (o : obj A) (k k' : string) (v : A) :
  obj_get (obj_set o k v) k' = if String.eqb k k' then Some v else obj_get o k'.
Proof.
  induction o as [| [k0 v0] o IH]; simpl.
  - reflexivity.
  - destruct (String.eqb_spec k0 k) as [-> | N]; simpl.
    + destruct (String.eqb k k'); reflexivity.
    + rewrite IH. destruct (String.eqb_spec k0 k') as [-> | N'].
      * destruct (String.eqb_spec k k'); [congruence | reflexivity].
      * reflexivity.
Qed.

Lemma obj_set_fresh {A} (o : obj A) (k : string) (v : A) :
  ~ In k (keys o) -> obj_set o k v = (o ++ [(k, v)])%list.
Proof.
  induction o as [| [k' v'] o IH]; simpl; intros H; [reflexivity |].
  destruct (String.eqb_spec k' k) as [-> | _].
  - exfalso. apply H. now left.
  - f_equal. apply IH. tauto.
Qed.

Lemma NoDup_keys_obj_set {A} (o : obj A) (k : string) (v : A) :
  NoDup (keys o) -> NoDup (keys (obj_set o k v)).
Proof.
  intros N. rewrite keys_obj_set. unfold obj_has.
  destruct (obj_get o k) eqn:E; [exact N |].
  apply obj_get_None in E.
  apply NoDup_rev in N. rewrite <- (rev_involutive (keys o ++ [k])).
  apply NoDup_rev. rewrite rev_app_distr. simpl.
  constructor; [rewrite <- in_rev; exact E | exact N].
Qed.

Lemma fold_left_ext {A B} (f g : A -> B -> A) (l : list B) (a : A) :
  (forall x y, f x y = g x y) -> fold_left f l a = fold_left g l a.
Proof.
  intros E. revert a.
  induction l as [| y l IH]; intros a; simpl; [reflexivity |].
  now rewrite E, IH.
Qed.

(** A loop of assignments over entries with distinct new names is a map. *)
Lemma fold_obj_set_map {A B} (f : string * A -> B) (l : obj A) (acc : obj B) :
  NoDup (keys l) ->
  (forall k, In k (keys l) -> ~ In k (keys acc)) ->
  fold_left (fun o e => obj_set o (fst e) (f e)) l acc
  = (acc ++ map (fun e => (fst e, f e)) l)%list.
Proof.
  revert acc.
  induction l as [| [k v] l IH]; intros acc N D; simpl.
  - now rewrite app_nil_r.
  - inversion N as [| ? ? Hk N']; subst.
    rewrite obj_set_fresh by (apply D; now left).
    rewrite IH.
    + now rewrite <- app_assoc.
    + exact N'.
    + intros k' I. unfold keys. rewrite map_app, in_app_iff. simpl.
      intros [J | [J | []]].
      * apply (D k'); [now right | exact J].
      * subst. apply Hk. exact I.
Qed.

(** ** The weighting composer *)

Lemma map_entry_id {A} (o : obj A) : map (fun e => (fst e, snd e)) o = o.
Proof.
  induction o as [| [k v] o IH]; simpl; [reflexivity | now rewrite IH].
Qed.

Lemma keys_map_snd {A B} (g : string * A -> B) (o : obj A) :
  keys (map (fun e => (fst e, g e)) o) = keys o.
Proof.
  unfold keys. rewrite map_map. reflexivity.
Qed.

Lemma keys_specBlend (base overlay : obj Q) (i : Q) :
  keys (specBlend base overlay i) = keys base.
Proof. apply keys_map_snd. Qed.

(** One turn of the loop of [mergeWeightings] rewrites the entry of the
    overlay's dimension and no other. *)
Lemma merge_step (base : obj Q) (d : string) (f : Q -> Q) :
  NoDup (keys base) ->
  match obj_get base d with
  | Some x => obj_set base d (f x)
  | None => base
  end
  = map (fun e => (fst e, if String.eqb (fst e) d then f (snd e) else snd e)) base.
Proof.
  induction base as [| [k x] base IH]; intros N; simpl; [reflexivity |].
  inversion N as [| ? ? Hk N']; subst.
  destruct (String.eqb_spec k d) as [-> | Hne].
  - f_equal.
    assert (E : obj_get base d = None) by now apply obj_get_None.
    rewrite E in IH. now apply IH.
  - specialize (IH N').
    destruct (obj_get base d); simpl; now rewrite <- IH.
Qed.

(** The loop over the overlay computes the blend the specification
    describes. *)
Lemma mergeWeightings_specBlend (overlay base : obj Q) (i : Q) :
  NoDup (keys overlay) -> NoDup (keys base) ->
  mergeWeightings base overlay i = specBlend base overlay i.
Proof.
  unfold mergeWeightings. revert base.
  induction overlay as [| [d w] overlay IH]; intros base No Nb; simpl.
  - unfold specBlend. simpl. now rewrite map_entry_id.
  - inversion No as [| ? ? Hd No']; subst.
    rewrite (merge_step base d (fun x => x * (1 - i) + w * i) Nb).
    rewrite IH; [| exact No' | now rewrite keys_map_snd].
    unfold specBlend. rewrite map_map. apply map_ext.
    intros [k x]. simpl. rewrite (String.eqb_sym d k).
    destruct (String.eqb_spec k d) as [-> | _]; [| reflexivity].
    assert (E : obj_get overlay d = None) by now apply obj_get_None.
    now rewrite E.
Qed.

Lemma normalizeWeightings_map (w : obj Q) :
  NoDup (keys w) ->
  normalizeWeightings w
  = map (fun e => (fst e, if Qltb 0 (sumQ (values w)) then snd e / sumQ (values w) else 0)) w.
Proof.
  intros N. unfold normalizeWeightings.
  rewrite <- (app_nil_l (map _ w)).
  rewrite <- (fold_obj_set_map
                (fun e => if Qltb 0 (sumQ (values w)) then snd e / sumQ (values w) else 0)
                w [] N) by (intros k _ []).
  apply fold_left_ext. intros acc [d x]. reflexivity.
Qed.

Lemma normalizeWeightings_specNormalize (w : obj Q) :
  NoDup (keys w) -> 0 < sumQ (values w) ->
  normalizeWeightings w = specNormalize w.
Proof.
  intros N P. rewrite normalizeWeightings_map by exact N.
  unfold specNormalize. apply map_ext. intros e.
  assert (E1 : Qltb 0 (sumQ (values w)) = true) by now apply Qltb_lt.
  assert (E2 : Qeq_bool (sumQ (values w)) 0 = false).
  { destruct (Qeq_bool (sumQ (values w)) 0) eqn:E; [| reflexivity].
    apply Qeq_bool_eq in E. rewrite E in P. discriminate. }
  now rewrite E1, E2.
Qed.

(** *** Distributions over the eight dimensions *)

Lemma sumOver_keys (o : obj Q) : NoDup (keys o) -> sumOver (keys o) o == sumQ (values o).
Proof.
  unfold sumOver, values.
  induction o as [| [k v] o IH]; intros N; simpl; [reflexivity |].
  inversion N as [| ? ? Hk N']; subst.
  rewrite !sumQ_cons. unfold scoreOr0 at 1. simpl. rewrite String.eqb_refl.
  apply Qplus_comp; [reflexivity |].
  rewrite <- (IH N'). unfold keys.
  assert (E : map (scoreOr0 ((k, v) :: o)) (map fst o) = map (scoreOr0 o) (map fst o)).
  { apply map_ext_in. intros k' I. unfold scoreOr0. simpl.
    destruct (String.eqb_spec k k') as [-> | _]; [contradiction | reflexivity]. }
  now rewrite E.
Qed.

Lemma sumOver_perm (ks ks' : list string) (o : obj Q) :
  Permutation ks ks' -> sumOver ks o == sumOver ks' o.
Proof.
  intros P. unfold sumOver. apply sumQ_perm. now apply Permutation_map.
Qed.

Lemma sum_specBlend (base overlay : obj Q) (i : Q) :
  (forall k, In k (keys base) -> In k (keys overlay)) ->
  sumQ (values (specBlend base overlay i))
  == (1 - i) * sumQ (values base) + i * sumOver (keys base) overlay.
Proof.
  unfold sumOver, values, specBlend.
  induction base as [| [k x] base IH]; intros H; simpl.
  - rewrite !sumQ_nil. ring.
  - rewrite !sumQ_cons. rewrite IH by (intros k' I; apply H; now right).
    unfold scoreOr0 at 2.
    destruct (obj_get overlay k) eqn:E.
    + ring.
    + apply obj_get_None in E. exfalso. apply E, H. now left.
Qed.

Lemma specBlend_distribution (base overlay : obj Q) (i : Q) :
  0 <= i <= 1 -> isDistribution base -> isDistribution overlay ->
  isDistribution (specBlend base overlay i).
Proof.
  intros [Hi0 Hi1] [Nb Pb Pos Sb] [No Po Poso So].
  assert (Pbo : Permutation (keys base) (keys overlay)).
  { eapply Permutation_trans; [exact Pb | now apply Permutation_sym]. }
  constructor.
  - now rewrite keys_specBlend.
  - now rewrite keys_specBlend.
  - unfold values, specBlend. rewrite map_map. apply Forall_forall.
    intros v I. apply in_map_iff in I. destruct I as [[k x] [<- I]]. simpl.
    assert (Hx : 0 <= x).
    { rewrite Forall_forall in Pos. apply Pos. unfold values.
      apply (in_map snd) in I. exact I. }
    destruct (obj_get overlay k) eqn:E; [| exact Hx].
    assert (Hq : 0 <= q).
    { rewrite Forall_forall in Poso. apply Poso. unfold values.
      apply obj_get_In in E. apply (in_map snd) in E. exact E. }
    assert (0 <= x * (1 - i)) by (apply Qmult_le_0_compat; lra).
    assert (0 <= q * i) by (apply Qmult_le_0_compat; lra).
    lra.
  - rewrite sum_specBlend.
    + rewrite (sumOver_perm _ _ _ Pbo), (sumOver_keys _ No), Sb, So. ring.
    + intros k I. eapply Permutation_in; [exact Pbo | exact I].
Qed.

Lemma includes_In (l : list string) (s : string) : includes l s = true <-> In s l.
Proof.
  unfold includes. rewrite existsb_exists. split.
  - intros [x [I E]]. apply String.eqb_eq in E. now subst.
  - intros I. exists s. split; [exact I | apply String.eqb_refl].
Qed.

Lemma distinct_NoDup (l : list string) : distinct l = true -> NoDup l.
Proof.
  induction l as [| x l IH]; simpl; intros H; constructor.
  - apply andb_prop in H. destruct H as [H _].
    apply negb_true_iff in H. intros I. apply includes_In in I. congruence.
  - apply IH. now apply andb_prop in H.
Qed.

Lemma distributionb_sound (w : obj Q) : distributionb w = true -> isDistribution w.
Proof.
  unfold distributionb. rewrite !andb_true_iff.
  intros [[[[D I1] I2] P] S].
  apply distinct_NoDup in D.
  constructor.
  - exact D.
  - apply NoDup_Permutation; [exact D | now apply distinct_NoDup |].
    rewrite forallb_forall in I1, I2.
    intros x. split; intros I.
    + now apply includes_In, I1.
    + now apply includes_In, I2.
  - apply Forall_forall. rewrite forallb_forall in P.
    intros x I. now apply Qle_bool_iff, P.
  - now apply Qeq_bool_eq.
Qed.

Lemma rule_distribution (table : obj rule) (k : string) (r : rule) :
  allDistributions table = true -> obj_get table k = Some r ->
  isDistribution (weightings r).
Proof.
  unfold allDistributions. rewrite forallb_forall.
  intros H G. apply distributionb_sound.
  apply obj_get_In in G. exact (H _ G).
Qed.

(** Every distribution of the rule table is one. *)
Lemma constraintRules_distributions :
  allDistributions (rules_budget constraintRules) = true
  /\ allDistributions (rules_experience constraintRules) = true
  /\ allDistributions (rules_workload constraintRules) = true
  /\ allDistributions (rules_priorities constraintRules) = true.
Proof. vm_compute. repeat split. Qed.

Lemma includes_has (table : obj rule) (names : list string) (k : string) :
  forallb (obj_has table) names = true -> includes names k = true ->
  exists r, obj_get table k = Some r.
Proof.
  rewrite forallb_forall. intros H I. apply includes_In in I.
  specialize (H _ I). unfold obj_has in H.
  destruct (obj_get table k) as [r |]; [now exists r | discriminate].
Qed.

(** What a valid constraint selects exists in the rule table. *)
Lemma valid_rules (c : Constraint) :
  validConstraint c = true ->
  (exists rb, obj_get (rules_budget constraintRules) (budget c) = Some rb)
  /\ (exists re, obj_get (rules_experience constraintRules) (experience c) = Some re)
  /\ (exists rw, obj_get (rules_workload constraintRules) (workload c) = Some rw)
  /\ Forall (fun p => exists rp, obj_get (rules_priorities constraintRules) p = Some rp)
            (priorities c).
Proof.
  unfold validConstraint. rewrite !andb_true_iff. intros [[[B E] W] P].
  repeat split.
  - now apply (includes_has _ validBudgets).
  - now apply (includes_has _ validExperience).
  - now apply (includes_has _ validWorkloads).
  - apply Forall_forall. rewrite forallb_forall in P.
    intros p I. apply (includes_has _ validPriorities); [reflexivity | now apply P].
Qed.

Lemma applyPriorities_spec (ps : list string) (base : obj Q) :
  isDistribution base ->
  Forall (fun p => exists rp, obj_get (rules_priorities constraintRules) p = Some rp) ps ->
  applyPriorities constraintRules base ps
  = fold_left
      (fun b p => specBlend b (specDistribution (rules_priorities constraintRules) p) 0.2)
      ps base
  /\ isDistribution (applyPriorities constraintRules base ps).
Proof.
  unfold applyPriorities. revert base.
  induction ps as [| p ps IH]; intros base D F; cbn [fold_left].
  - now split.
  - inversion F as [| ? ? [rp G] F']; subst.
    unfold specDistribution at 2. rewrite G.
    assert (Dp : isDistribution (weightings rp)).
    { eapply rule_distribution; [apply constraintRules_distributions | exact G]. }
    rewrite mergeWeightings_specBlend by (apply dist_nodup; assumption).
    apply IH; [| exact F'].
    apply specBlend_distribution; [lra | exact D | exact Dp].
Qed.

(** The weights before normalization: the composition described by the
    specification, and a distribution. *)
Lemma composed_distribution (c : Constraint) :
  validConstraint c = true ->
  exists b,
    isDistribution b
    /\ calculateWeightings constraintRules c = Ok (normalizeWeightings b)
    /\ specComposedWeighting constraintRules c = specNormalize b.
Proof.
  intros V. destruct (valid_rules c V) as [[rb Gb] [[re Ge] [[rw Gw] F]]].
  pose proof constraintRules_distributions as [Tb [Te [Tw _]]].
  assert (Db := rule_distribution _ _ _ Tb Gb).
  assert (De := rule_distribution _ _ _ Te Ge).
  assert (Dw := rule_distribution _ _ _ Tw Gw).
  set (b1 := specBlend (weightings rb) (weightings re) 0.3).
  set (b2 := specBlend b1 (weightings rw) 0.4).
  assert (D1 : isDistribution b1) by (apply specBlend_distribution; [lra | easy | easy]).
  assert (D2 : isDistribution b2) by (apply specBlend_distribution; [lra | easy | easy]).
  destruct (applyPriorities_spec (priorities c) b2 D2 F) as [Ep Dp].
  exists (applyPriorities constraintRules b2 (priorities c)).
  split; [exact Dp | split].
  - unfold calculateWeightings, ruleWeightings.
    rewrite Gb. cbv beta iota delta [bind].
    rewrite Ge. cbv beta iota delta [bind].
    rewrite Gw. cbv beta iota zeta delta [bind].
    rewrite (mergeWeightings_specBlend (weightings re) (weightings rb))
      by (apply dist_nodup; assumption).
    fold b1.
    rewrite (mergeWeightings_specBlend (weightings rw) b1)
      by (apply dist_nodup; assumption).
    reflexivity.
  - assert (Sb : specDistribution (rules_budget constraintRules) (budget c)
                 = weightings rb) by (unfold specDistribution; now rewrite Gb).
    assert (Se : specDistribution (rules_experience constraintRules) (experience c)
                 = weightings re) by (unfold specDistribution; now rewrite Ge).
    assert (Sw : specDistribution (rules_workload constraintRules) (workload c)
                 = weightings rw) by (unfold specDistribution; now rewrite Gw).
    unfold specComposedWeighting. rewrite Sb, Se, Sw. fold b1. fold b2.
    now rewrite Ep.
Qed.

(** C3: for a valid normalized constraint, [calculateWeightings] returns
    the weighting the specification composes: the budget distribution,
    blended with the experience distribution at 0.3, the workload
    distribution at 0.4 and each priority's distribution at 0.2 in the order
    of the priorities, each blend rewriting the dimensions present in both
    and leaving the others, then every weight divided by the sum (zeros if
    the sum is zero). *)
Theorem C3_composed_weighting (c : Constraint) :
  validConstraint c = true ->
  calculateWeightings constraintRules c = Ok (specComposedWeighting constraintRules c).
Proof.
  intros V. destruct (composed_distribution c V) as [b [D [Ec Es]]].
  rewrite Ec, Es. f_equal.
  apply normalizeWeightings_specNormalize.
  - apply dist_nodup. exact D.
  - rewrite (dist_sum _ D). reflexivity.
Qed.

Lemma C3_composed_weighting_witness :
  validConstraint sampleConstraint = true
  /\ calculateWeightings constraintRules sampleConstraint
     = Ok (specComposedWeighting constraintRules sampleConstraint).
Proof.
  split; [reflexivity | apply (C3_composed_weighting sampleConstraint); reflexivity].
Defined.

Lemma sumQ_map_div (l : list Q) (t : Q) :
  ~ t == 0 -> sumQ (map (fun x => x / t) l) == sumQ l / t.
Proof.
  intros Ht. induction l as [| x l IH]; simpl.
  - rewrite !sumQ_nil. field. exact Ht.
  - rewrite !sumQ_cons, IH. field. exact Ht.
Qed.

Lemma normalizeWeightings_distribution (b : obj Q) :
  isDistribution b -> isDistribution (normalizeWeightings b).
Proof.
  intros [N P Pos S].
  rewrite normalizeWeightings_map by exact N.
  assert (E1 : Qltb 0 (sumQ (values b)) = true) by (apply Qltb_lt; rewrite S; reflexivity).
  rewrite E1.
  constructor.
  - now rewrite keys_map_snd.
  - now rewrite keys_map_snd.
  - unfold values. rewrite map_map. simpl. apply Forall_forall.
    intros v I. apply in_map_iff in I. destruct I as [[k x] [<- I]]. simpl.
    rewrite Forall_forall in Pos.
    assert (Hx : 0 <= x) by (apply Pos; apply (in_map snd) in I; exact I).
    apply Qle_shift_div_l; [fold (values b); rewrite S; reflexivity |].
    now ring_simplify.
  - assert (Ev : values (map (fun e : string * Q => (fst e, snd e / sumQ (values b))) b)
                 = map (fun x => x / sumQ (values b)) (values b)).
    { unfold values. rewrite !map_map. reflexivity. }
    rewrite Ev, sumQ_map_div.
    + rewrite S. reflexivity.
    + rewrite S. discriminate.
Qed.

(** The composed weighting of a valid constraint is a distribution: its
    weights are not negative and sum to one exactly. *)
Lemma calculateWeightings_distribution (c : Constraint) :
  validConstraint c = true ->
  exists w, calculateWeightings constraintRules c = Ok w /\ isDistribution w.
Proof.
  intros V. destruct (composed_distribution c V) as [b [D [Ec _]]].
  exists (normalizeWeightings b). split; [exact Ec |].
  now apply normalizeWeightings_distribution.
Qed.

(** ** The provider evaluator *)

Lemma isNumber_numericScores (block : obj value) (m : string) :
  isNumber (obj_get block m) = true -> numericScores block <> [].
Proof.
  induction block as [| [k v] block IH]; simpl; [discriminate |].
  destruct (String.eqb k m).
  - simpl. destruct v; discriminate.
  - intros H. specialize (IH H). destruct v; try exact IH. discriminate.
Qed.

Lemma Forall_values_obj_set {A} (P : A -> Prop) (o : obj A) (k : string) (v : A) :
  Forall P (values o) -> P v -> Forall P (values (obj_set o k v)).
Proof.
  unfold values. intros F Pv.
  induction o as [| [k' v'] o IH]; simpl.
  - now constructor.
  - inversion F as [| ? ? Pv' F']; subst.
    destruct (String.eqb k' k); simpl; constructor; auto.
Qed.

(** ** Binary64 arithmetic *)

(** *** Powers of two *)

Lemma pow2_pos (k : Z) : 0 < pow2 k.
Proof. unfold pow2. apply Qpower_0_lt. reflexivity. Qed.

Lemma pow2_add (a b : Z) : pow2 (a + b) == pow2 a * pow2 b.
Proof. unfold pow2. apply Qpower_plus. discriminate. Qed.

Lemma pow2_opp (k : Z) : pow2 (- k) == / pow2 k.
Proof. unfold pow2. apply Qpower_opp. Qed.

Lemma pow2_le (a b : Z) : (a <= b)%Z -> pow2 a <= pow2 b.
Proof. intros H. unfold pow2. apply Qpower_le_compat_l; [exact H | discriminate]. Qed.

Lemma pow2_inject (k : Z) : (0 <= k)%Z -> pow2 k == inject_Z (2 ^ k).
Proof. intros H. unfold pow2. symmetry. apply (Zpower_Qpower 2 k H). Qed.

Lemma pow2_succ (k : Z) : pow2 (k + 1) == 2 * pow2 k.
Proof. rewrite pow2_add. unfold pow2 at 2. simpl. ring. Qed.

Lemma pow2_cancel (k : Z) : pow2 k * pow2 (- k) == 1.
Proof. rewrite <- pow2_add. now replace (k + - k)%Z with 0%Z by lia. Qed.

(** *** The binade of a positive number *)

Lemma log2_bounds (n : Z) : (0 < n)%Z ->
  pow2 (Z.log2 n) <= inject_Z n /\ inject_Z n < pow2 (Z.log2 n + 1).
Proof.
  intros H. destruct (Z.log2_spec n H) as [L U].
  assert (N := Z.log2_nonneg n).
  split.
  - rewrite pow2_inject by exact N. rewrite <- Zle_Qle. exact L.
  - rewrite pow2_inject by lia. rewrite <- Zlt_Qlt.
    now replace (Z.log2 n + 1)%Z with (Z.succ (Z.log2 n)) by lia.
Qed.

Lemma Q_as_quotient (x : Q) : x * inject_Z (Zpos (Qden x)) == inject_Z (Qnum x).
Proof.
  destruct x as [n d]. unfold Qeq, Qmult, inject_Z. simpl. lia.
Qed.

Lemma exponent_spec (x : Q) :
  0 < x -> pow2 (exponent x) <= x /\ x < pow2 (exponent x + 1).
Proof.
  intros P.
  assert (Pn : (0 < Qnum x)%Z).
  { destruct x as [n d]. unfold Qlt in P. simpl in *. lia. }
  destruct (log2_bounds (Qnum x) Pn) as [Ln Un].
  destruct (log2_bounds (Zpos (Qden x)) eq_refl) as [Ld Ud].
  assert (E := Q_as_quotient x).
  set (a := Z.log2 (Qnum x)) in *. set (b := Z.log2 (Zpos (Qden x))) in *.
  set (N := inject_Z (Qnum x)) in *. set (D := inject_Z (Zpos (Qden x))) in *.
  assert (A0 := pow2_pos a). assert (B0 := pow2_pos b).
  rewrite pow2_succ in Un, Ud.
  assert (AB : pow2 (a - b) * pow2 b == pow2 a).
  { rewrite <- pow2_add. now replace (a - b + b)%Z with a by lia. }
  assert (C0 := pow2_pos (a - b)).
  assert (D0 : 0 < D) by (eapply Qlt_le_trans; [exact B0 | exact Ld]).
  unfold exponent. fold a b.
  destruct (Qle_bool (pow2 (a - b)) x) eqn:T.
  - apply Qle_bool_iff in T. split; [exact T |].
    rewrite pow2_succ.
    (* x * D = N < 2 A = 2 C B <= 2 C D *)
    apply (Qmult_lt_r _ _ D D0). rewrite E.
    eapply Qlt_le_trans; [exact Un |].
    rewrite <- AB. 
    assert (H : pow2 (a - b) * pow2 b <= pow2 (a - b) * D).
    { apply Qmult_le_l; assumption. }
    lra.
  - assert (T' : x < pow2 (a - b)).
    { apply Qnot_le_lt. intros H. apply Qle_bool_iff in H. congruence. }
    split.
    + (* C/2 <= x : C D < 2 C B = 2 A <= 2 N = 2 x D *)
      assert (H1 : pow2 (a - b - 1) * 2 == pow2 (a - b)).
      { assert (K := pow2_succ (a - b - 1)).
        replace (a - b - 1 + 1)%Z with (a - b)%Z in K by lia. rewrite K. ring. }
      apply (Qmult_le_r _ _ D D0). rewrite E.
      assert (H2 : pow2 (a - b) * D <= pow2 (a - b) * (2 * pow2 b)).
      { apply Qmult_le_l; [assumption | lra]. }
      assert (H3 : pow2 (a - b - 1) * D * 2 == pow2 (a - b) * D).
      { rewrite <- H1. ring. }
      lra.
    + now replace (a - b - 1 + 1)%Z with (a - b)%Z by lia.
Qed.

Lemma exponent_unique (x : Q) (e : Z) :
  pow2 e <= x -> x < pow2 (e + 1) -> exponent x = e.
Proof.
  intros L U.
  assert (P : 0 < x) by (eapply Qlt_le_trans; [apply pow2_pos | exact L]).
  destruct (exponent_spec x P) as [L' U'].
  destruct (Z.lt_trichotomy (exponent x) e) as [H | [H | H]]; [| exact H |].
  - exfalso. assert (K : pow2 (exponent x + 1) <= pow2 e) by (apply pow2_le; lia).
    lra.
  - exfalso. assert (K : pow2 (e + 1) <= pow2 (exponent x)) by (apply pow2_le; lia).
    lra.
Qed.

Lemma exponent_mono (x y : Q) : 0 < x -> x <= y -> (exponent x <= exponent y)%Z.
Proof.
  intros P H.
  assert (Py : 0 < y) by lra.
  destruct (exponent_spec x P) as [Lx Ux]. destruct (exponent_spec y Py) as [Ly Uy].
  destruct (Z_le_gt_dec (exponent x) (exponent y)) as [K | K]; [exact K |].
  exfalso. assert (J : pow2 (exponent y + 1) <= pow2 (exponent x)) by (apply pow2_le; lia).
  lra.
Qed.

(** *** Rounding to the nearest integer, ties to even *)

Lemma rne_cases (y : Q) :
  let f := Qfloor y in
  (y - inject_Z f < 1 # 2 /\ rne y = f)
  \/ (1 # 2 < y - inject_Z f /\ rne y = (f + 1)%Z)
  \/ (y - inject_Z f == 1 # 2 /\ (rne y = f \/ rne y = (f + 1)%Z)).
Proof.
  cbv zeta. unfold rne.
  destruct (Qcompare_spec (y - inject_Z (Qfloor y)) (1 # 2)) as [E | L | G].
  - right. right. split; [exact E |]. destruct (Z.even (Qfloor y)); auto.
  - left. now split.
  - right. left. now split.
Qed.

Lemma floor_bounds (y : Q) : inject_Z (Qfloor y) <= y /\ y < inject_Z (Qfloor y) + 1.
Proof.
  split; [apply Qfloor_le |].
  assert (H := Qlt_floor y). rewrite inject_Z_plus in H. exact H.
Qed.

Lemma rne_error (y : Q) :
  y - (1 # 2) <= inject_Z (rne y) /\ inject_Z (rne y) <= y + (1 # 2).
Proof.
  destruct (floor_bounds y) as [L U].
  destruct (rne_cases y) as [[H ->] | [[H ->] | [H [-> | ->]]]];
    rewrite ?inject_Z_plus; change (inject_Z 1) with 1; split; lra.
Qed.

Lemma rne_mono (y1 y2 : Q) : y1 <= y2 -> (rne y1 <= rne y2)%Z.
Proof.
  intros H.
  assert (F := Qfloor_resp_le y1 y2 H).
  destruct (floor_bounds y1) as [L1 U1]. destruct (floor_bounds y2) as [L2 U2].
  assert (R1 : (Qfloor y1 <= rne y1 <= Qfloor y1 + 1)%Z).
  { destruct (rne_cases y1) as [[_ ->] | [[_ ->] | [_ [-> | ->]]]]; lia. }
  assert (R2 : (Qfloor y2 <= rne y2 <= Qfloor y2 + 1)%Z).
  { destruct (rne_cases y2) as [[_ ->] | [[_ ->] | [_ [-> | ->]]]]; lia. }
  destruct (Z.eq_dec (Qfloor y1) (Qfloor y2)) as [E | N]; [| lia].
  unfold rne. rewrite <- E.
  destruct (Qcompare_spec (y1 - inject_Z (Qfloor y1)) (1 # 2)) as [E1 | L1' | G1];
    destruct (Qcompare_spec (y2 - inject_Z (Qfloor y1)) (1 # 2)) as [E2 | L2' | G2];
    try lia; try (exfalso; lra);
    destruct (Z.even (Qfloor y1)); lia.
Qed.

Lemma rne_integer (y : Q) (z : Z) : y == inject_Z z -> rne y = z.
Proof.
  intros E.
  assert (F : Qfloor y = z).
  { rewrite <- (Qfloor_Z z). apply Z.le_antisymm; apply Qfloor_resp_le; rewrite E; lra. }
  unfold rne. rewrite F.
  destruct (Qcompare_spec (y - inject_Z z) (1 # 2)) as [E1 | L1 | G1];
    [exfalso; lra | reflexivity | exfalso; lra].
Qed.

(** *** Rounding to a multiple of a power of two *)

Lemma roundAt_error (k : Z) (x : Q) :
  x - pow2 (k - 1) <= roundAt k x /\ roundAt k x <= x + pow2 (k - 1).
Proof.
  unfold roundAt.
  destruct (rne_error (x * pow2 (- k))) as [L U].
  assert (P := pow2_pos k).
  assert (H : pow2 (k - 1) * 2 == pow2 k).
  { assert (K := pow2_succ (k - 1)).
    replace (k - 1 + 1)%Z with k in K by lia. rewrite K. ring. }
  assert (C := pow2_cancel k).
  assert (L' : (x * pow2 (- k) - (1 # 2)) * pow2 k
               <= inject_Z (rne (x * pow2 (- k))) * pow2 k).
  { apply Qmult_le_r; assumption. }
  assert (U' : inject_Z (rne (x * pow2 (- k))) * pow2 k
               <= (x * pow2 (- k) + (1 # 2)) * pow2 k).
  { apply Qmult_le_r; assumption. }
  assert (X : x * pow2 (- k) * pow2 k == x).
  { rewrite <- Qmult_assoc, (Qmult_comm (pow2 (- k))), C. ring. }
  split.
  - eapply Qle_trans; [| exact L'].
    setoid_replace ((x * pow2 (- k) - (1 # 2)) * pow2 k)
      with (x * pow2 (- k) * pow2 k - (1 # 2) * pow2 k) by ring.
    rewrite X. lra.
  - eapply Qle_trans; [exact U' |].
    setoid_replace ((x * pow2 (- k) + (1 # 2)) * pow2 k)
      with (x * pow2 (- k) * pow2 k + (1 # 2) * pow2 k) by ring.
    rewrite X. lra.
Qed.

Lemma roundAt_mono (k : Z) (x y : Q) : x <= y -> roundAt k x <= roundAt k y.
Proof.
  intros H. unfold roundAt.
  apply Qmult_le_r; [apply pow2_pos |].
  rewrite <- Zle_Qle. apply rne_mono.
  apply Qmult_le_r; [apply pow2_pos | exact H].
Qed.

Lemma roundAt_multiple (k : Z) (z : Z) (x : Q) :
  x == inject_Z z * pow2 k -> roundAt k x == x.
Proof.
  intros E. unfold roundAt.
  rewrite (rne_integer _ z); [now rewrite E |].
  rewrite E, <- Qmult_assoc, pow2_cancel. ring.
Qed.

Lemma roundAt_pow2 (k e : Z) : (k <= e)%Z -> roundAt k (pow2 e) == pow2 e.
Proof.
  intros H. apply (roundAt_multiple k (2 ^ (e - k))).
  rewrite <- pow2_inject by lia. rewrite <- pow2_add.
  now replace (e - k + k)%Z with e by lia.
Qed.

(** *** Binary64 rounding of a number that is not negative *)

Lemma Qabs_nonneg_eq (x : Q) : 0 <= x -> Qabs x = x.
Proof.
  destruct x as [n d]. unfold Qle, Qabs. simpl. intros H.
  f_equal. apply Z.abs_eq. lia.
Qed.

Lemma round64_zero (x : Q) : x == 0 -> round64 x = 0.
Proof.
  intros E. unfold round64. apply Qeq_bool_iff in E. now rewrite E.
Qed.

Lemma round64_positive (x : Q) :
  0 < x -> round64 x == roundAt (Z.max (exponent x) (-1022) - 52) x.
Proof.
  intros P. unfold round64.
  destruct (Qeq_bool x 0) eqn:E.
  - apply Qeq_bool_iff in E. lra.
  - rewrite Qred_correct, Qabs_nonneg_eq by lra. reflexivity.
Qed.

Lemma round64_error (x : Q) :
  0 <= x ->
  x - (x * u64 + eta64) <= round64 x /\ round64 x <= x + (x * u64 + eta64).
Proof.
  intros N.
  assert (U := pow2_pos (-53)). assert (H := pow2_pos (-1075)).
  fold u64 in U. fold eta64 in H.
  destruct (Qeq_bool x 0) eqn:E.
  - apply Qeq_bool_iff in E. rewrite (round64_zero x E). rewrite E. split; lra.
  - assert (P : 0 < x).
    { apply Qeq_bool_neq in E. destruct (Qle_lt_or_eq _ _ N) as [L | Z]; [exact L |].
      exfalso. apply E. now symmetry. }
    rewrite (round64_positive x P).
    destruct (exponent_spec x P) as [Lx _].
    set (k := (Z.max (exponent x) (-1022) - 52)%Z).
    destruct (roundAt_error k x) as [Lo Hi].
    assert (B : pow2 (k - 1) <= x * u64 + eta64).
    { unfold k. destruct (Z.max_spec (exponent x) (-1022)) as [[C ->] | [C ->]].
      - change (pow2 (-1022 - 52 - 1)) with eta64.
        assert (0 <= x * u64) by (apply Qmult_le_0_compat; lra). lra.
      - replace (exponent x - 52 - 1)%Z with (exponent x + -53)%Z by lia.
        rewrite pow2_add. fold u64.
        assert (pow2 (exponent x) * u64 <= x * u64) by (apply Qmult_le_r; assumption).
        lra. }
    split; lra.
Qed.

Lemma roundAt_zero (k : Z) : roundAt k 0 == 0.
Proof. apply (roundAt_multiple k 0). ring. Qed.

Lemma round64_nonneg (x : Q) : 0 <= x -> 0 <= round64 x.
Proof.
  intros N. destruct (Qeq_bool x 0) eqn:E.
  - apply Qeq_bool_iff in E. rewrite (round64_zero x E). lra.
  - assert (P : 0 < x).
    { apply Qeq_bool_neq in E. destruct (Qle_lt_or_eq _ _ N) as [L | Z]; [exact L |].
      exfalso. apply E. now symmetry. }
    rewrite (round64_positive x P).
    rewrite <- (roundAt_zero (Z.max (exponent x) (-1022) - 52)) at 1.
    apply roundAt_mono. exact N.
Qed.

Lemma round64_mono (x y : Q) : 0 <= x -> x <= y -> round64 x <= round64 y.
Proof.
  intros N H.
  destruct (Qeq_bool x 0) eqn:E.
  - apply Qeq_bool_iff in E. rewrite (round64_zero x E).
    apply round64_nonneg. lra.
  - assert (P : 0 < x).
    { apply Qeq_bool_neq in E. destruct (Qle_lt_or_eq _ _ N) as [L | Z]; [exact L |].
      exfalso. apply E. now symmetry. }
    assert (Py : 0 < y) by lra.
    rewrite (round64_positive x P), (round64_positive y Py).
    assert (M := exponent_mono x y P H).
    destruct (exponent_spec x P) as [Lx Ux]. destruct (exponent_spec y Py) as [Ly Uy].
    set (kx := (Z.max (exponent x) (-1022) - 52)%Z).
    set (ky := (Z.max (exponent y) (-1022) - 52)%Z).
    destruct (Z.eq_dec kx ky) as [K | K].
    + rewrite K. now apply roundAt_mono.
    + assert (Ey : (ky = exponent y - 52)%Z) by (unfold kx, ky in *; lia).
      assert (Ex : (exponent x + 1 <= exponent y)%Z) by (unfold kx, ky in *; lia).
      assert (Kx : (kx <= exponent y)%Z) by (unfold kx, ky in *; lia).
      assert (B1 : x <= pow2 (exponent y)).
      { assert (pow2 (exponent x + 1) <= pow2 (exponent y)) by (now apply pow2_le). lra. }
      apply (Qle_trans _ (pow2 (exponent y))).
      * rewrite <- (roundAt_pow2 kx (exponent y) Kx). now apply roundAt_mono.
      * rewrite <- (roundAt_pow2 ky (exponent y)) at 1 by lia. now apply roundAt_mono.
Qed.

Lemma round64_ext (x y : Q) : 0 <= x -> x == y -> round64 x == round64 y.
Proof.
  intros N E. apply Qle_antisym; apply round64_mono; lra.
Qed.

Lemma round64_integer (z : Z) :
  (0 <= z <= 2 ^ 53)%Z -> round64 (inject_Z z) == inject_Z z.
Proof.
  intros [Lo Hi].
  destruct (Z.eq_dec z 0) as [-> | Nz]; [reflexivity |].
  assert (P : 0 < inject_Z z) by (change 0 with (inject_Z 0); rewrite <- Zlt_Qlt; lia).
  rewrite (round64_positive _ P).
  destruct (exponent_spec _ P) as [Lx Ux].
  set (e := exponent (inject_Z z)) in *.
  assert (E0 : (0 <= e)%Z).
  { destruct (Z_le_gt_dec 0 e) as [K | K]; [exact K | exfalso].
    assert (pow2 (e + 1) <= pow2 0) by (apply pow2_le; lia).
    assert (1 <= inject_Z z) by (change 1 with (inject_Z 1); rewrite <- Zle_Qle; lia).
    change (pow2 0) with 1 in *. lra. }
  assert (E53 : (e <= 53)%Z).
  { destruct (Z_le_gt_dec e 53) as [K | K]; [exact K | exfalso].
    assert (pow2 54 <= pow2 e) by (apply pow2_le; lia).
    assert (inject_Z z <= inject_Z (2 ^ 53)) by (rewrite <- Zle_Qle; exact Hi).
    rewrite <- pow2_inject in * by lia.
    assert (pow2 53 < pow2 54) by reflexivity. lra. }
  replace (Z.max e (-1022)) with e by lia.
  destruct (Z_le_gt_dec e 52) as [K | K].
  - apply (roundAt_multiple _ (z * 2 ^ (52 - e))).
    rewrite inject_Z_mult, <- pow2_inject by lia.
    rewrite <- Qmult_assoc, <- pow2_add.
    replace (52 - e + (e - 52))%Z with 0%Z by lia. change (pow2 0) with 1. ring.
  - assert (e = 53%Z) by lia. subst e.
    assert (Z53 : inject_Z z == pow2 53).
    { apply Qle_antisym.
      - rewrite pow2_inject by lia. rewrite <- Zle_Qle. exact Hi.
      - rewrite <- H in *. exact Lx. }
    rewrite H. apply (roundAt_multiple _ (2 ^ 52)).
    rewrite Z53. reflexivity.
Qed.

(** ** The weighting composer in binary64 *)

Lemma roundoff_u64 : u64 == roundoff.
Proof. reflexivity. Qed.

Lemma tiny_eta64 : eta64 <= tiny.
Proof. vm_compute. discriminate. Qed.

(** The error of one rounding, with numerals for the bounds. *)
Lemma round64_near (x : Q) :
  0 <= x ->
  x - (x * roundoff + tiny) <= round64 x /\ round64 x <= x + (x * roundoff + tiny).
Proof.
  intros N. destruct (round64_error x N) as [L U].
  assert (T := tiny_eta64). rewrite roundoff_u64 in L, U. split; lra.
Qed.

Lemma constraintRules_inRange : tableInRange constraintRules = true.
Proof. vm_compute. reflexivity. Qed.

Lemma influences_inRange :
  influenceInRange (Binary64.literal 0.3) = true
  /\ influenceInRange (Binary64.literal 0.4) = true
  /\ influenceInRange (Binary64.literal 0.2) = true.
Proof. repeat split; vm_compute; reflexivity. Qed.

Lemma Qmult_le_r_nonneg (x y z : Q) : 0 <= z -> x <= y -> x * z <= y * z.
Proof.
  intros Z H. destruct (Qle_lt_or_eq _ _ Z) as [P | E].
  - now apply Qmult_le_r.
  - rewrite <- E. lra.
Qed.

(** One blend of a weight with a weight of the overlay. *)
Lemma blend_inRange (i x o : Q) :
  influenceInRange i = true ->
  0 <= x <= 1 -> 0 <= o <= 1 ->
  (0 <= fadd (fmul x (fsub 1 i)) (fmul o i)
   /\ fadd (fmul x (fsub 1 i)) (fmul o i) <= 1)
  /\ (1 # 32 <= x -> 1 # 32 <= o -> 1 # 32 <= fadd (fmul x (fsub 1 i)) (fmul o i)).
Proof.
  unfold influenceInRange. rewrite !andb_true_iff.
  intros [[[I0 I1] Hi] Lo] [X0 X1] [O0 O1].
  apply Qle_bool_iff in I0, I1, Hi, Lo.
  assert (C0 : 0 <= fsub 1 i) by (apply round64_nonneg; exact I1).
  set (c := fsub 1 i) in *.
  assert (P0 : 0 <= x * c) by (apply Qmult_le_0_compat; assumption).
  assert (Q0 : 0 <= o * i) by (apply Qmult_le_0_compat; assumption).
  assert (F0 : 0 <= fmul x c) by (apply round64_nonneg; exact P0).
  assert (G0 : 0 <= fmul o i) by (apply round64_nonneg; exact Q0).
  split; [split |].
  - apply round64_nonneg. lra.
  - eapply Qle_trans; [| exact Hi].
    apply round64_mono; [lra |].
    assert (A : fmul x c <= round64 c).
    { apply round64_mono; [exact P0 |].
      setoid_replace c with (1 * c) at 2 by ring. apply Qmult_le_r_nonneg; lra. }
    assert (B : fmul o i <= round64 i).
    { apply round64_mono; [exact Q0 |].
      setoid_replace i with (1 * i) at 2 by ring. apply Qmult_le_r_nonneg; lra. }
    lra.
  - intros Lx Lo'. eapply Qle_trans; [exact Lo |].
    assert (L0 : 0 <= (1 # 32) * c) by (apply Qmult_le_0_compat; [discriminate | exact C0]).
    assert (M0 : 0 <= (1 # 32) * i) by (apply Qmult_le_0_compat; [discriminate | exact I0]).
    assert (A : round64 ((1 # 32) * c) <= fmul x c).
    { apply round64_mono; [exact L0 |]. apply Qmult_le_r_nonneg; lra. }
    assert (B : round64 ((1 # 32) * i) <= fmul o i).
    { apply round64_mono; [exact M0 |]. apply Qmult_le_r_nonneg; lra. }
    apply round64_mono.
    + assert (0 <= round64 ((1 # 32) * c)) by (apply round64_nonneg; exact L0).
      assert (0 <= round64 ((1 # 32) * i)) by (apply round64_nonneg; exact M0).
      lra.
    + lra.
Qed.

(** The loop of [mergeWeightings] as a map over the base. *)
Lemma mergeWeightings64_map (overlay base : obj Q) (i : Q) :
  NoDup (keys overlay) -> NoDup (keys base) ->
  Binary64.mergeWeightings base overlay i
  = map (fun e =>
           (fst e,
            match obj_get overlay (fst e) with
            | Some o => fadd (fmul (snd e) (fsub 1 i)) (fmul o i)
            | None => snd e
            end))
        base.
Proof.
  unfold Binary64.mergeWeightings. revert base.
  induction overlay as [| [d w] overlay IH]; intros base No Nb; cbn [fold_left].
  - cbn [obj_get]. now rewrite map_entry_id.
  - inversion No as [| ? ? Hd No']; subst.
    rewrite (merge_step base d (fun x => fadd (fmul x (fsub 1 i)) (fmul w i)) Nb).
    rewrite IH; [| exact No' | now rewrite keys_map_snd].
    rewrite map_map. apply map_ext.
    intros [k x]. cbn [fst snd obj_get]. rewrite (String.eqb_sym d k).
    destruct (String.eqb_spec k d) as [-> | _]; [| reflexivity].
    assert (E : obj_get overlay d = None) by now apply obj_get_None.
    now rewrite E.
Qed.

Lemma obj_get_map_entry {A B} (g : string * A -> B) (o : obj A) (k : string) :
  obj_get (map (fun e => (fst e, g e)) o) k
  = match obj_get o k with Some v => Some (g (k, v)) | None => None end.
Proof.
  induction o as [| [k' v'] o IH]; cbn [map obj_get fst snd]; [reflexivity |].
  destruct (String.eqb_spec k' k) as [-> | _]; [reflexivity | exact IH].
Qed.

Lemma inRange_get (w : obj Q) (k : string) (x : Q) :
  weightsInRange w -> obj_get w k = Some x -> 0 <= x /\ x <= 1.
Proof.
  intros [_ _ U _] G. apply obj_get_In in G.
  rewrite Forall_forall in U. exact (U _ G).
Qed.

(** A blend of weights in range with weights in range is in range. *)
Lemma mergeWeightings64_inRange (base overlay : obj Q) (i : Q) :
  influenceInRange i = true -> weightsInRange base -> weightsInRange overlay ->
  weightsInRange (Binary64.mergeWeightings base overlay i).
Proof.
  intros I B O.
  rewrite mergeWeightings64_map by (apply range_nodup; assumption).
  destruct B as [Nb Pb Ub [x [Gx Lx]]].
  destruct (range_anchor overlay O) as [o [Go Lo]].
  split.
  - now rewrite keys_map_snd.
  - now rewrite keys_map_snd.
  - rewrite Forall_forall in *. intros e' J. apply in_map_iff in J.
    destruct J as [[k y] [<- J]]. cbn [fst snd].
    destruct (Ub _ J) as [Y0 Y1]. cbn [snd] in Y0, Y1.
    destruct (obj_get overlay k) as [o' |] eqn:G; [| now split].
    apply (blend_inRange i y o' I); [now split | exact (inRange_get overlay k o' O G)].
  - rewrite (obj_get_map_entry
               (fun e => match obj_get overlay (fst e) with
                         | Some o => fadd (fmul (snd e) (fsub 1 i)) (fmul o i)
                         | None => snd e
                         end)).
    rewrite Gx. cbn [fst snd]. rewrite Go. eexists. split; [reflexivity |].
    apply (blend_inRange i x o I).
    + apply (inRange_get base "scalability" x); [now split; [| | | exists x] | exact Gx].
    + exact (inRange_get overlay "scalability" o O Go).
    + exact Lx.
    + exact Lo.
Qed.

Lemma distinct_includes_Permutation (l m : list string) :
  distinct l = true -> distinct m = true ->
  forallb (includes m) l = true -> forallb (includes l) m = true ->
  Permutation l m.
Proof.
  intros Dl Dm Il Im.
  apply NoDup_Permutation; [now apply distinct_NoDup | now apply distinct_NoDup |].
  rewrite forallb_forall in Il, Im.
  intros x. split; intros H; apply includes_In; auto.
Qed.

(** The weightings of a rule of the table, as the program reads them. *)
Lemma ruleLiterals_inRange (r : rule) :
  ruleInRange r = true -> weightsInRange (ruleLiterals r).
Proof.
  unfold ruleInRange. rewrite !andb_true_iff. intros [[[[D I1] I2] U] A].
  assert (K : keys (ruleLiterals r) = keys (weightings r)).
  { unfold ruleLiterals. apply keys_map_snd. }
  split.
  - rewrite K. now apply distinct_NoDup.
  - rewrite K. apply distinct_includes_Permutation; try assumption. reflexivity.
  - rewrite forallb_forall in U. apply Forall_forall. intros e J.
    specialize (U (snd e) (in_map snd _ _ J)).
    apply andb_true_iff in U. destruct U as [U0 U1].
    now apply Qle_bool_iff in U0, U1.
  - destruct (obj_get (ruleLiterals r) "scalability") as [x |]; [| discriminate].
    exists x. split; [reflexivity | now apply Qle_bool_iff].
Qed.

Lemma ruleWeightings64_inRange (table : obj rule) (k : string) (r : rule) :
  forallb (fun e => ruleInRange (snd e)) table = true ->
  obj_get table k = Some r ->
  Binary64.ruleWeightings table k = Ok (ruleLiterals r) /\ weightsInRange (ruleLiterals r).
Proof.
  intros T G. unfold Binary64.ruleWeightings. rewrite G. split; [reflexivity |].
  apply ruleLiterals_inRange. rewrite forallb_forall in T.
  exact (T (k, r) (obj_get_In _ _ _ G)).
Qed.

Lemma applyPriorities64_inRange (rules : ruleTable) (ps : list string) (base : obj Q) :
  forallb (fun e => ruleInRange (snd e)) (rules_priorities rules) = true ->
  weightsInRange base ->
  weightsInRange (Binary64.applyPriorities rules base ps).
Proof.
  intros T. unfold Binary64.applyPriorities. revert base.
  induction ps as [| p ps IH]; intros base B; cbn [fold_left]; [exact B |].
  apply IH. destruct (obj_get (rules_priorities rules) p) as [r |] eqn:G; [| exact B].
  apply mergeWeightings64_inRange;
    [exact (proj2 (proj2 influences_inRange)) | exact B |].
  apply (ruleWeightings64_inRange _ p r T G).
Qed.

Lemma tableInRange_parts (rules : ruleTable) :
  tableInRange rules = true ->
  forallb (fun e => ruleInRange (snd e)) (rules_budget rules) = true
  /\ forallb (fun e => ruleInRange (snd e)) (rules_experience rules) = true
  /\ forallb (fun e => ruleInRange (snd e)) (rules_workload rules) = true
  /\ forallb (fun e => ruleInRange (snd e)) (rules_priorities rules) = true.
Proof.
  unfold tableInRange. rewrite !forallb_app, !andb_true_iff. tauto.
Qed.

Lemma includes_obj_get {A} (names : list string) (o : obj A) (k : string) :
  forallb (obj_has o) names = true -> includes names k = true ->
  exists v, obj_get o k = Some v.
Proof.
  intros F I. apply includes_In in I. rewrite forallb_forall in F.
  specialize (F k I). unfold obj_has in F.
  destruct (obj_get o k) as [v |]; [now exists v | discriminate].
Qed.

(** Before the normalization, the weights composed for a valid constraint
    are in range. *)
Lemma composed64_inRange (c : Constraint) :
  validConstraint c = true ->
  exists b,
    weightsInRange b
    /\ Binary64.calculateWeightings constraintRules c
       = Ok (Binary64.normalizeWeightings b).
Proof.
  unfold validConstraint. rewrite !andb_true_iff. intros [[[Vb Ve] Vw] _].
  destruct (tableInRange_parts _ constraintRules_inRange) as [Tb [Te [Tw Tp]]].
  destruct (includes_obj_get validBudgets (rules_budget constraintRules) (budget c)
              eq_refl Vb) as [rb Gb].
  destruct (includes_obj_get validExperience (rules_experience constraintRules)
              (experience c) eq_refl Ve) as [re Ge].
  destruct (includes_obj_get validWorkloads (rules_workload constraintRules)
              (workload c) eq_refl Vw) as [rw Gw].
  destruct (ruleWeightings64_inRange _ _ _ Tb Gb) as [Eb Rb].
  destruct (ruleWeightings64_inRange _ _ _ Te Ge) as [Ee Re].
  destruct (ruleWeightings64_inRange _ _ _ Tw Gw) as [Ew Rw].
  exists (Binary64.applyPriorities constraintRules
            (Binary64.mergeWeightings
               (Binary64.mergeWeightings (ruleLiterals rb) (ruleLiterals re)
                  (Binary64.literal 0.3))
               (ruleLiterals rw) (Binary64.literal 0.4))
            (priorities c)).
  split.
  - apply (applyPriorities64_inRange constraintRules (priorities c)); [exact Tp |].
    apply mergeWeightings64_inRange;
      [exact (proj1 (proj2 influences_inRange)) | | exact Rw].
    apply mergeWeightings64_inRange;
      [exact (proj1 influences_inRange) | exact Rb | exact Re].
  - unfold Binary64.calculateWeightings.
    rewrite Eb. cbn [bind]. rewrite Ee. cbn [bind]. rewrite Ew. cbn [bind].
    reflexivity.
Qed.

(** *** Sums of rounded numbers *)

Lemma round64_abs (y : Q) :
  0 <= y -> y <= 64 -> y - err <= round64 y /\ round64 y <= y + err.
Proof.
  intros N B. destruct (round64_near y N) as [L U].
  unfold roundoff, tiny, err in *. split; lra.
Qed.

Lemma lengthQ_cons {A} (x : A) (l : list A) : lengthQ (x :: l) == lengthQ l + 1.
Proof.
  unfold lengthQ. cbn [List.length]. rewrite Nat2Z.inj_succ, <- Z.add_1_r.
  rewrite inject_Z_plus. reflexivity.
Qed.

Lemma lengthQ_nil {A} : lengthQ (@nil A) == 0.
Proof. reflexivity. Qed.

Lemma lengthQ_nonneg {A} (l : list A) : 0 <= lengthQ l.
Proof.
  unfold lengthQ. change 0 with (inject_Z 0). rewrite <- Zle_Qle. lia.
Qed.

Lemma sumQ_nonneg (l : list Q) : Forall (fun x => 0 <= x) l -> 0 <= sumQ l.
Proof.
  induction 1 as [| x l X _ IH]; [rewrite sumQ_nil; lra |].
  rewrite sumQ_cons. lra.
Qed.

(** A rounded sum of numbers that are not negative is within [err] per
    addition of the exact sum, while the sums stay below 64. *)
Lemma fold_fadd_abs (ws : list Q) :
  Forall (fun w => 0 <= w) ws ->
  forall acc a e,
    0 <= acc -> a - e <= acc -> acc <= a + e ->
    a + sumQ ws + e + lengthQ ws * err <= 64 ->
    0 <= fold_left fadd ws acc
    /\ a + sumQ ws - (e + lengthQ ws * err) <= fold_left fadd ws acc
    /\ fold_left fadd ws acc <= a + sumQ ws + (e + lengthQ ws * err).
Proof.
  induction 1 as [| w ws W F IH]; intros acc a e A L H B; cbn [fold_left].
  - rewrite sumQ_nil, lengthQ_nil. repeat split; lra.
  - rewrite sumQ_cons, lengthQ_cons in *.
    assert (S := sumQ_nonneg ws F). assert (C := lengthQ_nonneg ws).
    assert (P : 0 <= acc + w) by lra.
    assert (CE : 0 <= lengthQ ws * err) by (apply Qmult_le_0_compat; [exact C | discriminate]).
    assert (M : acc + w <= 64) by (unfold err in *; lra).
    destruct (round64_abs (acc + w) P M) as [Lo Hi].
    destruct (IH (fadd acc w) (a + w) (e + err)) as [R0 [RL RU]].
    + apply round64_nonneg. exact P.
    + unfold fadd. lra.
    + unfold fadd. lra.
    + unfold err in *. lra.
    + repeat split; [exact R0 | unfold err in *; lra | unfold err in *; lra].
Qed.

Lemma sumQ_div (ws : list Q) (t : Q) :
  ~ t == 0 -> sumQ (map (fun x => x / t) ws) == sumQ ws / t.
Proof.
  intros T. induction ws as [| w ws IH]; cbn [map].
  - rewrite !sumQ_nil. field. exact T.
  - rewrite !sumQ_cons, IH. field. exact T.
Qed.

(** Sums of numbers that are within [err] of one another. *)
Lemma sumQ_near {A} (f g : A -> Q) (l : list A) :
  Forall (fun x => g x - err <= f x /\ f x <= g x + err) l ->
  sumQ (map g l) - lengthQ l * err <= sumQ (map f l)
  /\ sumQ (map f l) <= sumQ (map g l) + lengthQ l * err.
Proof.
  induction 1 as [| x l [L U] _ [IL IU]]; cbn [map].
  - rewrite !sumQ_nil, lengthQ_nil. split; lra.
  - rewrite !sumQ_cons, lengthQ_cons. unfold err in *. split; lra.
Qed.

(** *** The normalization *)

Lemma normalizeWeightings64_map (w : obj Q) :
  NoDup (keys w) ->
  Binary64.normalizeWeightings w
  = map (fun e =>
           (fst e,
            if Qltb 0 (fold_left fadd (values w) 0)
            then fdiv (snd e) (fold_left fadd (values w) 0)
            else 0))
        w.
Proof.
  intros N. unfold Binary64.normalizeWeightings.
  rewrite <- (app_nil_l (map _ w)).
  rewrite <- (fold_obj_set_map
                (fun e => if Qltb 0 (fold_left fadd (values w) 0)
                          then fdiv (snd e) (fold_left fadd (values w) 0)
                          else 0) w [] N) by (intros k _ []).
  apply fold_left_ext. now intros acc [d x].
Qed.

Lemma sumQ_anchor (w : obj Q) (k : string) (x : Q) :
  Forall (fun x => 0 <= x) (values w) -> obj_get w k = Some x -> x <= sumQ (values w).
Proof.
  intros F G. apply obj_get_In in G.
  induction w as [| [k' y] w IH]; [destruct G |].
  unfold values in *. cbn [map snd] in *.
  inversion F as [| ? ? Y F']; subst.
  rewrite sumQ_cons. assert (S := sumQ_nonneg _ F').
  destruct G as [[= _ ->] | G]; [lra |].
  specialize (IH F' G). lra.
Qed.

Lemma sumQ_at_most (l : list Q) :
  Forall (fun x => x <= 1) l -> sumQ l <= lengthQ l.
Proof.
  induction 1 as [| x l X _ IH]; [rewrite sumQ_nil, lengthQ_nil; lra |].
  rewrite sumQ_cons, lengthQ_cons. lra.
Qed.

Lemma Qdiv_between (s t lo hi : Q) :
  0 < t -> lo * t <= s -> s <= hi * t -> lo <= s / t /\ s / t <= hi.
Proof.
  intros T L H. split.
  - apply Qle_shift_div_l; assumption.
  - apply Qle_shift_div_r; assumption.
Qed.

Lemma inRange_length (w : obj Q) : weightsInRange w -> lengthQ w == 8.
Proof.
  intros [_ P _ _]. apply Permutation_length in P.
  unfold keys in P. rewrite length_map in P. unfold lengthQ. now rewrite P.
Qed.

Lemma lengthQ_map {A B} (f : A -> B) (l : list A) : lengthQ (map f l) = lengthQ l.
Proof. unfold lengthQ. now rewrite length_map. Qed.

(** The normalized weights: none is negative, and their sum, exact or
    rounded, is close to 1. *)
Lemma normalizeWeightings64_sum (w : obj Q) :
  weightsInRange w ->
  NoDup (keys (Binary64.normalizeWeightings w))
  /\ Permutation (keys (Binary64.normalizeWeightings w)) dimensionList
  /\ Forall (fun x => 0 <= x) (values (Binary64.normalizeWeightings w))
  /\ (1 - (1 # 100000000000) <= sumQ (values (Binary64.normalizeWeightings w))
      /\ sumQ (values (Binary64.normalizeWeightings w)) <= 1 + (1 # 100000000000))
  /\ (1 - (1 # 100000000000)
      <= fold_left fadd (values (Binary64.normalizeWeightings w)) 0
      /\ fold_left fadd (values (Binary64.normalizeWeightings w)) 0
         <= 1 + (1 # 100000000000)).
Proof.
  intros R. assert (Len := inRange_length w R).
  destruct R as [N P U [a [Ga La]]].
  rewrite normalizeWeightings64_map by exact N.
  split; [now rewrite keys_map_snd |]. split; [now rewrite keys_map_snd |].
  assert (F : Forall (fun x => 0 <= x) (values w)).
  { unfold values. apply Forall_map. eapply Forall_impl; [| exact U]. now intros e [H _]. }
  assert (F1 : Forall (fun x => x <= 1) (values w)).
  { unfold values. apply Forall_map. eapply Forall_impl; [| exact U]. now intros e [_ H]. }
  assert (S32 : 1 # 32 <= sumQ (values w)).
  { eapply Qle_trans; [exact La | exact (sumQ_anchor w _ a F Ga)]. }
  assert (S8 := sumQ_at_most _ F1).
  assert (Cv : lengthQ (values w) == 8) by (unfold values; now rewrite lengthQ_map).
  rewrite Cv in S8.
  destruct (fold_fadd_abs (values w) F 0 0 0) as [T0 [TL TU]];
    try lra; [rewrite Cv; unfold err; lra |].
  rewrite Cv in TL, TU.
  set (T := fold_left fadd (values w) 0) in *.
  set (S := sumQ (values w)) in *.
  assert (Tpos : 0 < T) by (unfold err in *; lra).
  assert (B : Qltb 0 T = true).
  { unfold Qltb. destruct (Qle_bool T 0) eqn:E; [| reflexivity].
    apply Qle_bool_iff in E. lra. }
  rewrite B.
  assert (D : 1 - (3 # 1000000000000) <= S / T /\ S / T <= 1 + (3 # 1000000000000)).
  { apply Qdiv_between; [exact Tpos | |]; unfold err in *; lra. }
  assert (V : values (map (fun e : string * Q => (fst e, fdiv (snd e) T)) w)
              = map (fun x => fdiv x T) (values w)).
  { unfold values. rewrite !map_map. reflexivity. }
  rewrite V.
  assert (Near : Forall (fun x => 0 <= fdiv x T
                                  /\ x / T - err <= fdiv x T
                                  /\ fdiv x T <= x / T + err) (values w)).
  { rewrite Forall_forall in *. intros x I.
    assert (X0 := F x I). assert (X1 := F1 x I).
    assert (Q0 : 0 <= x / T) by (apply Qle_shift_div_l; [exact Tpos | lra]).
    assert (Q64 : x / T <= 64).
    { apply Qle_shift_div_r; [exact Tpos | unfold err in *; lra]. }
    split; [apply round64_nonneg; exact Q0 | apply round64_abs; assumption]. }
  assert (Fv : Forall (fun x => 0 <= x) (map (fun x => fdiv x T) (values w))).
  { apply Forall_map. eapply Forall_impl; [| exact Near]. now intros x [H _]. }
  split; [exact Fv |].
  destruct (sumQ_near (fun x => fdiv x T) (fun x => x / T) (values w)) as [SL SU].
  { eapply Forall_impl; [| exact Near]. now intros x [_ H]. }
  rewrite sumQ_div in SL, SU by lra. fold S in SL, SU. rewrite Cv in SL, SU.
  set (Sv := sumQ (map (fun x => fdiv x T) (values w))) in *.
  assert (Exact : 1 - (1 # 100000000000) <= Sv /\ Sv <= 1 + (1 # 100000000000)).
  { unfold err in *. split; lra. }
  split; [exact Exact |].
  destruct (fold_fadd_abs _ Fv 0 0 0) as [_ [RL RU]]; try lra.
  { fold Sv. rewrite lengthQ_map, Cv. unfold err. lra. }
  fold Sv in RL, RU. rewrite lengthQ_map, Cv in RL, RU.
  unfold err in *. split; lra.
Qed.

(** C4: for a valid normalized constraint, the weights [calculateWeightings]
    computes in binary64 are one for each of the eight dimensions, none
    negative, and their sum is within 1e-9 of 1, whether the eight doubles
    are added exactly or by the program's own addition; the other case of
    the claim, all weights zero, does not arise. *)
Theorem C4_weighting_normalization (c : Constraint) :
  validConstraint c = true ->
  exists w,
    Binary64.calculateWeightings constraintRules c = Ok w
    /\ Permutation (keys w) dimensionList
    /\ Forall (fun x => 0 <= x) (values w)
    /\ Qabs (sumQ (values w) - 1) <= 1 # 1000000000
    /\ Qabs (fold_left fadd (values w) 0 - 1) <= 1 # 1000000000.
Proof.
  intros V. destruct (composed64_inRange c V) as [b [R E]].
  destruct (normalizeWeightings64_sum b R) as [_ [P [F [[L1 U1] [L2 U2]]]]].
  exists (Binary64.normalizeWeightings b).
  split; [exact E |]. split; [exact P |]. split; [exact F |].
  split; apply Qabs_Qle_condition; split; lra.
Qed.

Lemma C4_weighting_normalization_witness :
  exists w,
    Binary64.calculateWeightings constraintRules sampleConstraint = Ok w
    /\ Permutation (keys w) dimensionList
    /\ Forall (fun x => 0 <= x) (values w)
    /\ Qabs (sumQ (values w) - 1) <= 1 # 1000000000
    /\ Qabs (fold_left fadd (values w) 0 - 1) <= 1 # 1000000000.
Proof. apply (C4_weighting_normalization sampleConstraint). reflexivity. Defined.

(** ** The evaluator in binary64 *)

Lemma round64_one : round64 1 == 1.
Proof. reflexivity. Qed.

Lemma round64_ten : round64 10 == 10.
Proof. reflexivity. Qed.

Lemma literal_score (x : Q) :
  1 <= x -> x <= 10 -> 1 <= Binary64.literal x /\ Binary64.literal x <= 10.
Proof.
  intros L U. unfold Binary64.literal. split.
  - rewrite <- round64_one. apply round64_mono; lra.
  - rewrite <- round64_ten. apply round64_mono; lra.
Qed.

(** Adding up scores of [[1,10]]: the rounded sum of [n] of them stays
    between [n] and [10 n], which are doubles. *)
Lemma fold_fadd_scores (scores : list Q) :
  Forall (fun s => 1 <= s /\ s <= 10) scores ->
  forall (k : Z) (acc : Q),
    (0 <= k)%Z ->
    (10 * (k + Z.of_nat (List.length scores)) <= 2 ^ 53)%Z ->
    inject_Z k <= acc -> acc <= inject_Z (10 * k) ->
    inject_Z (k + Z.of_nat (List.length scores)) <= fold_left fadd scores acc
    /\ fold_left fadd scores acc <= inject_Z (10 * (k + Z.of_nat (List.length scores))).
Proof.
  induction 1 as [| s scores [S1 S10] _ IH]; intros k acc K B L U;
    cbn [fold_left List.length] in *.
  - rewrite Z.add_0_r. now split.
  - rewrite Nat2Z.inj_succ in *.
    replace (k + Z.succ (Z.of_nat (List.length scores)))%Z
      with (k + 1 + Z.of_nat (List.length scores))%Z in * by lia.
    assert (K0 : 0 <= inject_Z k) by (change 0 with (inject_Z 0); rewrite <- Zle_Qle; lia).
    apply IH; [lia | exact B | |].
    + unfold fadd. rewrite <- (round64_integer (k + 1)) by lia.
      apply round64_mono.
      * change 0 with (inject_Z 0). rewrite <- Zle_Qle. lia.
      * rewrite inject_Z_plus. change (inject_Z 1) with 1. lra.
    + unfold fadd. rewrite <- (round64_integer (10 * (k + 1))) by lia.
      apply round64_mono; [lra |].
      replace (10 * (k + 1))%Z with (10 * k + 10)%Z by lia.
      rewrite inject_Z_plus. change (inject_Z 10) with 10. lra.
Qed.

(** The score of a block with a numeric sub-metric, all of them in
    [[1,10]], is in [[1,10]]. *)
Lemma calculateDimensionScore64_bounds (block : obj value) :
  numericScores block <> [] ->
  forallb inRange (numericScores block) = true ->
  (10 * Z.of_nat (List.length (numericScores block)) <= 2 ^ 53)%Z ->
  1 <= Binary64.calculateDimensionScore block
  /\ Binary64.calculateDimensionScore block <= 10.
Proof.
  intros Ne R B. unfold Binary64.calculateDimensionScore.
  assert (F : Forall (fun s => 1 <= s /\ s <= 10)
                (map Binary64.literal (numericScores block))).
  { apply Forall_map. apply Forall_forall. intros x I.
    rewrite forallb_forall in R. specialize (R x I).
    unfold inRange in R. apply andb_true_iff in R. destruct R as [R1 R2].
    apply Qle_bool_iff in R1, R2. now apply literal_score. }
  destruct (numericScores block) as [| x xs]; [now elim Ne |].
  cbn [map] in *.
  set (scores := Binary64.literal x :: map Binary64.literal xs) in *.
  assert (Len : List.length scores = List.length (x :: xs)).
  { unfold scores. cbn [List.length]. now rewrite length_map. }
  destruct (fold_fadd_scores scores F 0 0) as [L U];
    [lia | rewrite Len; lia | discriminate | discriminate |].
  rewrite !Z.add_0_l in L, U.
  set (n := Z.of_nat (List.length scores)) in *.
  assert (N1 : (1 <= n)%Z).
  { unfold n. rewrite Len. cbn [List.length]. lia. }
  assert (Nq : 0 < inject_Z n) by (change 0 with (inject_Z 0); rewrite <- Zlt_Qlt; lia).
  unfold lengthQ. fold n. unfold fdiv.
  replace (10 * n)%Z with (n * 10)%Z in U by lia.
  rewrite inject_Z_mult in U. change (inject_Z 10) with 10 in U.
  split.
  - rewrite <- round64_one. apply round64_mono; [lra |].
    apply Qle_shift_div_l; [exact Nq | lra].
  - rewrite <- round64_ten. apply round64_mono.
    + apply Qle_shift_div_l; [exact Nq | lra].
    + apply Qle_shift_div_r; [exact Nq | lra].
Qed.

Lemma lengthQ_values {A} (o : obj A) : lengthQ (values o) = lengthQ o.
Proof. unfold values. apply lengthQ_map. Qed.

(** The scoring loop: the total grows by about the weight times the
    score at each turn, and every score it records is in [[1,10]]. *)
Lemma scoreLoop64_bounds (dims : obj (obj value)) (w : obj Q) :
  (forall d, In d (keys w) ->
     exists block, obj_get dims d = Some block
                   /\ 1 <= Binary64.calculateDimensionScore block
                   /\ Binary64.calculateDimensionScore block <= 10) ->
  Forall (fun x => 0 <= x) (values w) ->
  forall (acc : Q * obj Q) (lo hi : Q),
    0 <= fst acc -> lo <= fst acc -> fst acc <= hi ->
    hi + 10 * sumQ (values w) + 2 * lengthQ w * err <= 64 ->
    Forall (fun s => 1 <= s /\ s <= 10) (values (snd acc)) ->
    (0 <= fst (fold_left (Binary64.scoreStep dims) w acc)
     /\ lo + sumQ (values w) - 2 * lengthQ w * err
        <= fst (fold_left (Binary64.scoreStep dims) w acc)
     /\ fst (fold_left (Binary64.scoreStep dims) w acc)
        <= hi + 10 * sumQ (values w) + 2 * lengthQ w * err)
    /\ Forall (fun s => 1 <= s /\ s <= 10)
         (values (snd (fold_left (Binary64.scoreStep dims) w acc))).
Proof.
  induction w as [| [d v] w IH]; intros B Pos acc lo hi A L H M R.
  - cbn [fold_left]. unfold values. cbn [map]. rewrite sumQ_nil, lengthQ_nil.
    repeat split; try lra. exact R.
  - cbn [fold_left]. unfold values in *. cbn [map snd] in *.
    inversion Pos as [| ? ? V Pos']; subst.
    rewrite sumQ_cons, lengthQ_cons in *.
    assert (S := sumQ_nonneg _ Pos'). assert (C := lengthQ_nonneg w).
    assert (CE : 0 <= lengthQ w * err) by (apply Qmult_le_0_compat; [exact C | discriminate]).
    destruct (B d (or_introl eq_refl)) as [block [G [S1 S10]]].
    assert (B' : forall d', In d' (keys w) ->
              exists block', obj_get dims d' = Some block'
                             /\ 1 <= Binary64.calculateDimensionScore block'
                             /\ Binary64.calculateDimensionScore block' <= 10).
    { intros d' I. apply B. now right. }
    set (s := Binary64.calculateDimensionScore block) in *.
    assert (Step : 0 <= fst (Binary64.scoreStep dims acc (d, v))
                   /\ lo + v - 2 * err <= fst (Binary64.scoreStep dims acc (d, v))
                   /\ fst (Binary64.scoreStep dims acc (d, v)) <= hi + 10 * v + 2 * err
                   /\ Forall (fun s => 1 <= s /\ s <= 10)
                        (map snd (snd (Binary64.scoreStep dims acc (d, v))))).
    { unfold Binary64.scoreStep. destruct (Qltb 0 v) eqn:T.
      - rewrite G. fold s. cbn [fst snd].
        assert (M1 : v <= s * v).
        { setoid_replace v with (1 * v) at 1 by ring. apply Qmult_le_r_nonneg; lra. }
        assert (M2 : s * v <= 10 * v) by (apply Qmult_le_r_nonneg; lra).
        assert (P0 : 0 <= s * v) by lra.
        assert (P64 : s * v <= 64) by (unfold err in *; lra).
        destruct (round64_abs (s * v) P0 P64) as [PL PU].
        assert (Pn : 0 <= fmul s v) by (apply round64_nonneg; exact P0).
        fold (fmul s v) in PL, PU.
        assert (T0 : 0 <= fst acc + fmul s v) by lra.
        assert (T64 : fst acc + fmul s v <= 64) by (unfold err in *; lra).
        destruct (round64_abs _ T0 T64) as [TL TU].
        fold (fadd (fst acc) (fmul s v)) in TL, TU.
        split; [apply round64_nonneg; exact T0 |].
        split; [unfold err in *; lra |]. split; [unfold err in *; lra |].
        apply (Forall_values_obj_set (fun s => 1 <= s /\ s <= 10)); [exact R | now split].
      - assert (V0 : v <= 0).
        { unfold Qltb in T. destruct (Qle_bool v 0) eqn:E; [| discriminate].
          now apply Qle_bool_iff in E. }
        split; [exact A |]. split; [unfold err; lra |]. split; [unfold err; lra |].
        exact R. }
    destruct Step as [A' [L' [H' R']]].
    destruct (IH B' Pos' (Binary64.scoreStep dims acc (d, v))
                (lo + v - 2 * err) (hi + 10 * v + 2 * err) A' L' H')
      as [[F0 [FL FU]] FR].
    + unfold err in *. lra.
    + exact R'.
    + split; [| exact FR]. split; [exact F0 |]. unfold err in *. split; lra.
Qed.

(** A complete record in range has, for each of the eight dimensions, a
    block whose binary64 score is in [[1,10]]. *)
Lemma complete_dimension_scores64 (p : providerData) (d : string) :
  dimensionsComplete p = true -> scoresInRange p = true -> blocksBounded p = true ->
  In d dimensionList ->
  exists block,
    obj_get (dimensions p) d = Some block
    /\ 1 <= Binary64.calculateDimensionScore block
    /\ Binary64.calculateDimensionScore block <= 10.
Proof.
  unfold dimensionsComplete, scoresInRange, blocksBounded. rewrite !forallb_forall.
  intros C R B I.
  assert (J : exists ms m, In (d, m :: ms) requiredMetrics).
  { simpl in I. repeat (destruct I as [<- | I];
      [eexists; eexists; simpl; eauto 10 |]). contradiction. }
  destruct J as [ms [m J]]. specialize (C _ J). simpl in C.
  destruct (obj_get (dimensions p) d) as [block |] eqn:G; [| discriminate].
  exists block. split; [reflexivity |].
  apply andb_prop in C. destruct C as [C _].
  apply obj_get_In in G.
  apply calculateDimensionScore64_bounds.
  - exact (isNumber_numericScores _ _ C).
  - exact (R _ G).
  - specialize (B _ G). cbn [snd] in B. now apply Z.leb_le in B.
Qed.

(** The total score of a complete record in range, under the weights
    composed for a valid constraint, is within [slack] of [[1,10]]; the
    scores of the dimensions are in [[1,10]]. *)
Lemma totalScore64_bounds (p : providerData) (c : Constraint) :
  dimensionsComplete p = true -> scoresInRange p = true -> blocksBounded p = true ->
  validConstraint c = true ->
  exists w,
    Binary64.calculateWeightings constraintRules c = Ok w
    /\ 1 - slack <= fst (Binary64.scoreLoop (dimensions p) w)
    /\ fst (Binary64.scoreLoop (dimensions p) w) <= 10 + slack
    /\ Forall (fun s => 1 <= s /\ s <= 10)
         (values (snd (Binary64.scoreLoop (dimensions p) w))).
Proof.
  intros C R B V. destruct (composed64_inRange c V) as [b [Rb E]].
  destruct (normalizeWeightings64_sum b Rb) as [_ [P [F [[L1 U1] _]]]].
  set (w := Binary64.normalizeWeightings b) in *.
  exists w. split; [exact E |].
  assert (Len : lengthQ w == 8).
  { apply Permutation_length in P. unfold keys in P. rewrite length_map in P.
    unfold lengthQ. now rewrite P. }
  assert (D : forall d, In d (keys w) ->
            exists block, obj_get (dimensions p) d = Some block
                          /\ 1 <= Binary64.calculateDimensionScore block
                          /\ Binary64.calculateDimensionScore block <= 10).
  { intros d I. apply complete_dimension_scores64; try assumption.
    eapply Permutation_in; [exact P | exact I]. }
  destruct (scoreLoop64_bounds (dimensions p) w D F (0, []) 0 0) as [[T0 [TL TU]] Fs];
    cbn [fst snd]; try lra.
  - rewrite Len. unfold err. lra.
  - constructor.
  - unfold Binary64.scoreLoop.
    rewrite Len in TL, TU. unfold err, slack in *.
    split; [lra |]. split; [lra | exact Fs].
Qed.

(** C5, amended: for a record that has its eight dimension blocks with
    their sub-metrics, every numeric sub-metric in [[1,10]] and no block
    with more than [2^53 / 10] of them, and for the weighting
    [calculateWeightings] produces for a valid constraint, every dimension
    score of [calculateDimensionScore] lies in [[1,10]], and the total score
    of [evaluateProvider] within 1e-9 of that interval, in the arithmetic of
    the program. *)
Theorem C5_score_bounds (p : providerData) (c : Constraint) :
  dimensionsComplete p = true ->
  scoresInRange p = true ->
  blocksBounded p = true ->
  validConstraint c = true ->
  exists w,
    Binary64.calculateWeightings constraintRules c = Ok w
    /\ 1 - (1 # 1000000000)
       <= totalScore (Binary64.evaluateProvider constraintRules p c w)
       <= 10 + (1 # 1000000000)
    /\ Forall (fun s => 1 <= s <= 10)
         (values (dimensionScores (Binary64.evaluateProvider constraintRules p c w)))
    /\ forall d block,
         In d dimensionList -> obj_get (dimensions p) d = Some block ->
         1 <= Binary64.calculateDimensionScore block <= 10.
Proof.
  intros C R B V.
  destruct (totalScore64_bounds p c C R B V) as [w [E [L [U F]]]].
  exists w. split; [exact E |].
  cbn [totalScore dimensionScores Binary64.evaluateProvider].
  split; [split; [exact L | exact U] |]. split; [exact F |].
  intros d block I G.
  destruct (complete_dimension_scores64 p d C R B I) as [block' [G' B']].
  rewrite G' in G. injection G as <-. exact B'.
Qed.

Lemma C5_score_bounds_witness :
  exists w,
    Binary64.calculateWeightings constraintRules sampleConstraint = Ok w
    /\ 1 - (1 # 1000000000)
       <= totalScore (Binary64.evaluateProvider constraintRules sampleGcp sampleConstraint w)
       <= 10 + (1 # 1000000000)
    /\ Forall (fun s => 1 <= s <= 10)
         (values (dimensionScores
                    (Binary64.evaluateProvider constraintRules sampleGcp sampleConstraint w)))
    /\ forall d block,
         In d dimensionList -> obj_get (dimensions sampleGcp) d = Some block ->
         1 <= Binary64.calculateDimensionScore block <= 10.
Proof.
  apply (C5_score_bounds sampleGcp sampleConstraint); reflexivity.
Defined.

(** C5 as stated fails in two ways. The total score leaves [[1,10]] by a
    rounding: for a low budget, a beginner and an enterprise workload, the
    record with every sub-metric at 10 gets [10 + 2^-49], the double
    10.000000000000002, when cost is the priority, and the record with
    every sub-metric at 1 gets [1 - 2^-52], the double 0.9999999999999998,
    when devops is. And the values of a record whose only block is empty
    are all in range, there being none: the score of that block is 0, and
    so is the total. *)
Lemma C5_counterexample :
  (dimensionsComplete allTen = true
   /\ scoresInRange allTen = true
   /\ validConstraint costForEnterprise = true
   /\ exists w,
        Binary64.calculateWeightings constraintRules costForEnterprise = Ok w
        /\ totalScore (Binary64.evaluateProvider constraintRules allTen costForEnterprise w)
           == 10 + (1 # 562949953421312)
        /\ ~ totalScore (Binary64.evaluateProvider constraintRules allTen costForEnterprise w)
             <= 10)
  /\ (dimensionsComplete allOne = true
      /\ scoresInRange allOne = true
      /\ validConstraint devopsForEnterprise = true
      /\ exists w,
           Binary64.calculateWeightings constraintRules devopsForEnterprise = Ok w
           /\ totalScore
                (Binary64.evaluateProvider constraintRules allOne devopsForEnterprise w)
              == 1 - (1 # 4503599627370496)
           /\ ~ 1 <= totalScore
                       (Binary64.evaluateProvider constraintRules allOne
                          devopsForEnterprise w))
  /\ (scoresInRange emptyBlock = true
      /\ exists w,
           Binary64.calculateWeightings constraintRules costForEnterprise = Ok w
           /\ obj_get
                (dimensionScores
                   (Binary64.evaluateProvider constraintRules emptyBlock costForEnterprise w))
                "cost"
              = Some 0
           /\ ~ 1 <= totalScore
                       (Binary64.evaluateProvider constraintRules emptyBlock
                          costForEnterprise w)).
Proof.
  split; [| split].
  - split; [reflexivity |]. split; [reflexivity |]. split; [reflexivity |].
    eexists. split; [vm_compute; reflexivity |].
    split; [vm_compute; reflexivity | apply Qlt_not_le; vm_compute; reflexivity].
  - split; [reflexivity |]. split; [reflexivity |]. split; [reflexivity |].
    eexists. split; [vm_compute; reflexivity |].
    split; [vm_compute; reflexivity | apply Qlt_not_le; vm_compute; reflexivity].
  - split; [reflexivity |].
    eexists. split; [vm_compute; reflexivity |].
    split; [vm_compute; reflexivity | apply Qlt_not_le; vm_compute; reflexivity].
Qed.

(** ** Sorting, and loops of assignments *)

Lemma sort_insert_perm {A} (cmp : A -> A -> Q) (x : A) (l : list A) :
  Permutation (sort_insert cmp x l) (x :: l).
Proof.
  induction l as [| y l IH]; simpl; [apply Permutation_refl |].
  destruct (Qle_bool (cmp x y) 0); [apply Permutation_refl |].
  eapply Permutation_trans; [apply perm_skip, IH | apply perm_swap].
Qed.

Lemma js_sort_perm {A} (cmp : A -> A -> Q) (l : list A) :
  Permutation (js_sort cmp l) l.
Proof.
  induction l as [| x l IH]; simpl; [apply Permutation_refl |].
  eapply Permutation_trans; [apply sort_insert_perm | now apply perm_skip].
Qed.

Lemma sort_insert_map {A B} (g : A -> B) (cmp : B -> B -> Q) (cmp' : A -> A -> Q)
    (x : A) (l : list A) :
  (forall a b, cmp (g a) (g b) = cmp' a b) ->
  sort_insert cmp (g x) (map g l) = map g (sort_insert cmp' x l).
Proof.
  intros E. induction l as [| y l IH]; simpl; [reflexivity |].
  rewrite E. destruct (Qle_bool (cmp' x y) 0); simpl; [reflexivity | now rewrite IH].
Qed.

Lemma js_sort_map {A B} (g : A -> B) (cmp : B -> B -> Q) (cmp' : A -> A -> Q)
    (l : list A) :
  (forall a b, cmp (g a) (g b) = cmp' a b) ->
  js_sort cmp (map g l) = map g (js_sort cmp' l).
Proof.
  intros E. induction l as [| x l IH]; simpl; [reflexivity |].
  rewrite IH. now apply sort_insert_map.
Qed.

Lemma js_sort_nonempty {A} (cmp : A -> A -> Q) (l : list A) :
  l <> [] -> js_sort cmp l <> [].
Proof.
  intros H E. apply H. apply Permutation_nil.
  rewrite <- E. apply js_sort_perm.
Qed.

Lemma fold_left_map_list {A B C} (f : A -> C -> A) (g : B -> C) (l : list B) (a : A) :
  fold_left f (map g l) a = fold_left (fun acc x => f acc (g x)) l a.
Proof.
  revert a. induction l as [| x l IH]; intros a; simpl; [reflexivity | apply IH].
Qed.

Lemma obj_get_app {A} (o1 o2 : obj A) (k : string) :
  obj_get (o1 ++ o2)%list k
  = match obj_get o1 k with Some v => Some v | None => obj_get o2 k end.
Proof.
  induction o1 as [| [k' v'] o1 IH]; simpl; [reflexivity |].
  destruct (String.eqb k' k); [reflexivity | exact IH].
Qed.

Lemma obj_get_perm {A} (o1 o2 : obj A) (k : string) :
  NoDup (keys o1) -> Permutation o1 o2 -> obj_get o1 k = obj_get o2 k.
Proof.
  intros N P.
  assert (N2 : NoDup (keys o2)).
  { eapply Permutation_NoDup; [apply Permutation_map; exact P | exact N]. }
  destruct (obj_get o1 k) as [v |] eqn:E.
  - symmetry. apply In_obj_get; [exact N2 |].
    eapply Permutation_in; [exact P | now apply obj_get_In].
  - symmetry. apply obj_get_None. apply obj_get_None in E.
    intros I. apply E. eapply Permutation_in; [| exact I].
    apply Permutation_map, Permutation_sym, P.
Qed.

(** After a loop of assignments, a name holds what its last entry gave,
    and what it held before if it has no entry. *)
Lemma obj_get_fold_set {A B} (f : A -> B) (l : obj A) (acc : obj B) (k : string) :
  obj_get (fold_left (fun o e => obj_set o (fst e) (f (snd e))) l acc) k
  = match obj_get (rev l) k with
    | Some v => Some (f v)
    | None => obj_get acc k
    end.
Proof.
  revert acc. induction l as [| [k' v'] l IH]; intros acc; simpl; [reflexivity |].
  rewrite IH, obj_get_app. simpl.
  destruct (obj_get (rev l) k); [reflexivity |].
  rewrite obj_get_set. now destruct (String.eqb k' k).
Qed.

Lemma NoDup_keys_fold_set {A B} (f : A -> B) (l : obj A) (acc : obj B) :
  NoDup (keys acc) ->
  NoDup (keys (fold_left (fun o e => obj_set o (fst e) (f (snd e))) l acc)).
Proof.
  revert acc. induction l as [| e l IH]; intros acc N; simpl; [exact N |].
  apply IH. now apply NoDup_keys_obj_set.
Qed.

Lemma fold_set_nonempty {A B} (f : A -> B) (l : obj A) (acc : obj B) :
  l <> [] \/ acc <> [] ->
  fold_left (fun o e => obj_set o (fst e) (f (snd e))) l acc <> [].
Proof.
  revert acc. induction l as [| [k v] l IH]; intros acc H; simpl.
  - destruct H as [H | H]; [congruence | exact H].
  - apply IH. right. destruct acc as [| [k' v'] acc]; simpl; [discriminate |].
    destruct (String.eqb k' k); discriminate.
Qed.

(** ** Filters and the result *)

Lemma obj_get_evaluateAll (rules : ruleTable) (dataset : obj providerData)
    (c : Constraint) (w : obj Q) (id : string) (p : providerData) :
  NoDup (keys dataset) -> obj_get dataset id = Some p ->
  obj_get (evaluateAll rules dataset c w) id = Some (evaluateProvider rules p c w).
Proof.
  intros N G. unfold evaluateAll.
  rewrite (obj_get_fold_set (fun p' => evaluateProvider rules p' c w)).
  rewrite <- (obj_get_perm dataset (rev dataset) id N (Permutation_rev dataset)).
  now rewrite G.
Qed.

Lemma evaluateAll_nonempty (rules : ruleTable) (dataset : obj providerData)
    (c : Constraint) (w : obj Q) :
  dataset <> [] -> evaluateAll rules dataset c w <> [].
Proof.
  intros H. unfold evaluateAll.
  apply (fold_set_nonempty (fun p' => evaluateProvider rules p' c w)). now left.
Qed.

Lemma generateDimensionAnalysis_ok (d : string) (scores : obj (obj Q)) (c : Constraint) :
  scores <> [] -> exists t, generateDimensionAnalysis d scores c = Ok t.
Proof.
  intros H. unfold generateDimensionAnalysis.
  destruct (js_sort _ _) as [| best rest] eqn:E.
  - exfalso. eapply js_sort_nonempty; [| exact E].
    destruct scores; [congruence | discriminate].
  - eexists. reflexivity.
Qed.

(** With at least one evaluation the comparison output is produced. *)
Lemma generateComparisonOutput_ok (evaluations : obj Evaluation) (c : Constraint) :
  evaluations <> [] -> exists out, generateComparisonOutput evaluations c = Ok out.
Proof.
  intros H. unfold generateComparisonOutput, generateCrossProviderAnalysis.
  set (scores := fold_left
                   (fun acc e => obj_set acc (fst e) (dimensionScores (snd e)))
                   evaluations []).
  assert (Hs : scores <> []).
  { apply (fold_set_nonempty dimensionScores). now left. }
  destruct (generateDimensionAnalysis_ok "cost" scores c Hs) as [t1 ->].
  destruct (generateDimensionAnalysis_ok "easeOfUse" scores c Hs) as [t2 ->].
  destruct (generateDimensionAnalysis_ok "ecosystem" scores c Hs) as [t3 ->].
  destruct (generateDimensionAnalysis_ok "vendorLockIn" scores c Hs) as [t4 ->].
  cbn [bind]. unfold generateDecisionGuidance, generateConstraintBasedSummary.
  destruct (js_sort _ evaluations) as [| top rest] eqn:E.
  - exfalso. eapply js_sort_nonempty; [exact H | exact E].
  - cbn [bind]. eexists. reflexivity.
Qed.

Lemma providers_of_output (evaluations : obj Evaluation) (c : Constraint)
    (out : comparisonOutput) (id : string) (ev : Evaluation) :
  NoDup (keys evaluations) ->
  generateComparisonOutput evaluations c = Ok out ->
  obj_get evaluations id = Some ev ->
  obj_get (providers out) id = Some (formatProvider ev c).
Proof.
  intros N E G. unfold generateComparisonOutput in E.
  destruct (generateCrossProviderAnalysis evaluations c); [| discriminate].
  destruct (generateDecisionGuidance evaluations c); [| discriminate].
  destruct (generateConstraintBasedSummary c _); [| discriminate].
  cbn [bind] in E. injection E as <-. cbn [providers].
  rewrite (obj_get_fold_set (fun ev' => formatProvider ev' c)).
  set (sorted := js_sort _ evaluations).
  assert (P : Permutation evaluations (rev sorted)).
  { eapply Permutation_trans; [apply Permutation_sym, js_sort_perm |].
    apply Permutation_rev. }
  rewrite <- (obj_get_perm evaluations (rev sorted) id N P). now rewrite G.
Qed.

Section PassesFiltersUnread.

Variable b : bool.

Lemma sort_by_total_override (evaluations : obj Evaluation) :
  js_sort (fun x y => totalScore (snd y) - totalScore (snd x)) (map (overridePasses b) evaluations)
  = map (overridePasses b) (js_sort (fun x y => totalScore (snd y) - totalScore (snd x)) evaluations).
Proof. apply js_sort_map. reflexivity. Qed.

Lemma crossProviderAnalysis_override (evaluations : obj Evaluation) (c : Constraint) :
  generateCrossProviderAnalysis (map (overridePasses b) evaluations) c
  = generateCrossProviderAnalysis evaluations c.
Proof.
  unfold generateCrossProviderAnalysis. now rewrite fold_left_map_list.
Qed.

Lemma guidanceEntries_override (evaluations : obj Evaluation) (d : string) :
  guidanceEntries (map (overridePasses b) evaluations) d = guidanceEntries evaluations d.
Proof.
  unfold guidanceEntries.
  rewrite (js_sort_map (overridePasses b) _
             (fun x y => scoreOr0 (dimensionScores (snd y)) d
                         - scoreOr0 (dimensionScores (snd x)) d))
    by reflexivity.
  unfold slice0. rewrite firstn_map, map_map. reflexivity.
Qed.

Lemma decisionGuidance_override (evaluations : obj Evaluation) (c : Constraint) :
  generateDecisionGuidance (map (overridePasses b) evaluations) c
  = generateDecisionGuidance evaluations c.
Proof.
  unfold generateDecisionGuidance.
  rewrite sort_by_total_override, !guidanceEntries_override.
  now destruct (js_sort _ evaluations).
Qed.

Lemma summary_override (c : Constraint) (sorted : obj Evaluation) :
  generateConstraintBasedSummary c (map (overridePasses b) sorted)
  = generateConstraintBasedSummary c sorted.
Proof.
  unfold generateConstraintBasedSummary.
  destruct sorted as [| top rest]; [reflexivity |].
  simpl. now rewrite map_map.
Qed.

(** No part of the comparison output reads [passesFilters]. *)
Lemma generateComparisonOutput_override (evaluations : obj Evaluation) (c : Constraint) :
  generateComparisonOutput (map (overridePasses b) evaluations) c
  = generateComparisonOutput evaluations c.
Proof.
  unfold generateComparisonOutput.
  rewrite sort_by_total_override, crossProviderAnalysis_override,
    decisionGuidance_override, summary_override, fold_left_map_list.
  reflexivity.
Qed.

End PassesFiltersUnread.

(** C8: a provider that fails the hard filters is scored like any other
    ([totalScore] and [dimensionScores] come from the scoring loop alone),
    has its full entry in the comparison output, and the output is the one
    produced whatever [passesFilters] says. *)
Theorem C8_filters_do_not_exclude (rules : ruleTable) (dataset : obj providerData)
    (c : Constraint) (w : obj Q) (id : string) (p : providerData) :
  NoDup (keys dataset) ->
  obj_get dataset id = Some p ->
  checkConstraintFilters rules p c = false ->
  exists ev out,
    obj_get (evaluateAll rules dataset c w) id = Some ev
    /\ passesFilters ev = false
    /\ totalScore ev = fst (scoreLoop (dimensions p) w)
    /\ dimensionScores ev = snd (scoreLoop (dimensions p) w)
    /\ generateComparisonOutput (evaluateAll rules dataset c w) c = Ok out
    /\ obj_get (providers out) id = Some (formatProvider ev c)
    /\ forall b : bool,
         generateComparisonOutput
           (map (overridePasses b) (evaluateAll rules dataset c w)) c
         = Ok out.
Proof.
  intros N G F.
  assert (Hne : dataset <> []) by (destruct dataset; [discriminate | discriminate]).
  destruct (generateComparisonOutput_ok _ c (evaluateAll_nonempty rules dataset c w Hne))
    as [out E].
  pose proof (obj_get_evaluateAll rules dataset c w id p N G) as Gev.
  exists (evaluateProvider rules p c w), out.
  repeat split.
  - exact Gev.
  - exact F.
  - exact E.
  - apply (providers_of_output (evaluateAll rules dataset c w)); [| exact E | exact Gev].
    unfold evaluateAll.
    apply (NoDup_keys_fold_set (fun p' => evaluateProvider rules p' c w)). constructor.
  - intros b. now rewrite generateComparisonOutput_override.
Qed.

Lemma C8_filters_do_not_exclude_witness :
  exists ev out,
    obj_get (evaluateAll constraintRules sampleDataset sampleConstraint
               (specComposedWeighting constraintRules sampleConstraint)) "aws" = Some ev
    /\ passesFilters ev = false
    /\ totalScore ev
       = fst (scoreLoop (dimensions sampleAws)
                (specComposedWeighting constraintRules sampleConstraint))
    /\ dimensionScores ev
       = snd (scoreLoop (dimensions sampleAws)
                (specComposedWeighting constraintRules sampleConstraint))
    /\ generateComparisonOutput
         (evaluateAll constraintRules sampleDataset sampleConstraint
            (specComposedWeighting constraintRules sampleConstraint)) sampleConstraint
       = Ok out
    /\ obj_get (providers out) "aws" = Some (formatProvider ev sampleConstraint)
    /\ forall b : bool,
         generateComparisonOutput
           (map (overridePasses b)
                (evaluateAll constraintRules sampleDataset sampleConstraint
                   (specComposedWeighting constraintRules sampleConstraint)))
           sampleConstraint
         = Ok out.
Proof.
  apply (C8_filters_do_not_exclude constraintRules sampleDataset sampleConstraint
           (specComposedWeighting constraintRules sampleConstraint) "aws" sampleAws).
  - apply distinct_NoDup. reflexivity.
  - reflexivity.
  - reflexivity.
Defined.

(** ** The order of strings *)

Lemma ascii_compare_refl (a : ascii) : Ascii.compare a a = Eq.
Proof. unfold Ascii.compare. apply N.compare_refl. Qed.

Lemma ascii_compare_lt_trans (a b c : ascii) :
  Ascii.compare a b = Lt -> Ascii.compare b c = Lt -> Ascii.compare a c = Lt.
Proof.
  unfold Ascii.compare. rewrite !N.compare_lt_iff. apply N.lt_trans.
Qed.

Lemma string_compare_refl (s : string) : String.compare s s = Eq.
Proof.
  induction s as [| a s IH]; simpl; [reflexivity |].
  now rewrite ascii_compare_refl.
Qed.

Lemma string_compare_lt_trans (s1 s2 s3 : string) :
  String.compare s1 s2 = Lt -> String.compare s2 s3 = Lt -> String.compare s1 s3 = Lt.
Proof.
  revert s2 s3.
  induction s1 as [| a s1 IH]; intros [| b s2] [| c s3]; simpl; try congruence.
  destruct (Ascii.compare a b) eqn:Eab; try discriminate.
  - apply Ascii.compare_eq_iff in Eab. subst b.
    destruct (Ascii.compare a c) eqn:Eac; try congruence.
    apply IH.
  - destruct (Ascii.compare b c) eqn:Ebc; try discriminate.
    + apply Ascii.compare_eq_iff in Ebc. subst c. now rewrite Eab.
    + now rewrite (ascii_compare_lt_trans a b c Eab Ebc).
Qed.

Lemma string_leb_trans (s1 s2 s3 : string) :
  String.leb s1 s2 = true -> String.leb s2 s3 = true -> String.leb s1 s3 = true.
Proof.
  unfold String.leb.
  destruct (String.compare s1 s2) eqn:E12; try discriminate;
    destruct (String.compare s2 s3) eqn:E23; try discriminate; intros _ _.
  - apply String.compare_eq_iff in E12, E23. subst.
    now rewrite string_compare_refl.
  - apply String.compare_eq_iff in E12. subst. now rewrite E23.
  - apply String.compare_eq_iff in E23. subst. now rewrite E12.
  - now rewrite (string_compare_lt_trans _ _ _ E12 E23).
Qed.

Lemma insertString_perm (x : string) (l : list string) :
  Permutation (insertString x l) (x :: l).
Proof.
  induction l as [| y l IH]; simpl; [apply Permutation_refl |].
  destruct (String.leb x y); [apply Permutation_refl |].
  eapply Permutation_trans; [apply perm_skip, IH | apply perm_swap].
Qed.

Lemma sortStrings_perm (l : list string) : Permutation (sortStrings l) l.
Proof.
  induction l as [| x l IH]; simpl; [apply Permutation_refl |].
  eapply Permutation_trans; [apply insertString_perm | now apply perm_skip].
Qed.

Lemma insertString_ascending (x : string) (l : list string) :
  ascending l -> ascending (insertString x l).
Proof.
  induction l as [| y l IH]; simpl; intros H.
  - split; [constructor | exact I].
  - destruct H as [Hy Hl].
    destruct (String.leb x y) eqn:E; simpl.
    + repeat split; try assumption.
      constructor; [exact E |].
      eapply Forall_impl; [| exact Hy].
      intros z Hz. exact (string_leb_trans _ _ _ E Hz).
    + split; [| now apply IH].
      assert (Eyx : String.leb y x = true).
      { destruct (String.leb_total x y) as [T | T]; [congruence | exact T]. }
      apply Forall_forall. intros z Hz.
      apply (Permutation_in _ (insertString_perm x l)) in Hz.
      destruct Hz as [<- | Hz]; [exact Eyx |].
      rewrite Forall_forall in Hy. now apply Hy.
Qed.

Lemma sortStrings_ascending (l : list string) : ascending (sortStrings l).
Proof.
  induction l as [| x l IH]; simpl; [exact I | now apply insertString_ascending].
Qed.

Lemma ascending_perm_eq (l1 l2 : list string) :
  ascending l1 -> ascending l2 -> Permutation l1 l2 -> l1 = l2.
Proof.
  revert l2. induction l1 as [| x l1 IH]; intros l2 A1 A2 P.
  - apply Permutation_nil in P. now subst.
  - destruct l2 as [| y l2].
    + apply Permutation_sym, Permutation_nil in P. discriminate.
    + destruct A1 as [Hx A1]. destruct A2 as [Hy A2].
      assert (E : x = y).
      { assert (Ix : In x (y :: l2)) by (eapply Permutation_in; [exact P | now left]).
        assert (Iy : In y (x :: l1)).
        { eapply Permutation_in; [apply Permutation_sym, P | now left]. }
        destruct Ix as [-> | Ix]; [reflexivity |].
        destruct Iy as [-> | Iy]; [reflexivity |].
        rewrite Forall_forall in Hx, Hy.
        apply String.leb_antisym; [now apply Hx | now apply Hy]. }
      subst y. f_equal. apply IH; [exact A1 | exact A2 |].
      eapply Permutation_cons_inv. exact P.
Qed.

(** Sorting forgets the order the names came in. *)
Lemma sortStrings_perm_eq (l1 l2 : list string) :
  Permutation l1 l2 -> sortStrings l1 = sortStrings l2.
Proof.
  intros P. apply ascending_perm_eq; try apply sortStrings_ascending.
  eapply Permutation_trans; [apply sortStrings_perm |].
  eapply Permutation_trans; [exact P | apply Permutation_sym, sortStrings_perm].
Qed.

(** ** The cache key *)

Lemma serializeJSON_object (number_to_string : Q -> string) (K : list string)
    (fields : obj value) :
  serializeJSON number_to_string K (VObject fields)
  = Some ("{" ++ join ","
                   (jsonMembers K
                      (map (fun e => (fst e, serializeJSON number_to_string K (snd e)))
                           fields)) ++ "}")%string.
Proof.
  cbn [serializeJSON]. do 5 f_equal.
  induction fields as [| [k x] fields IH]; [reflexivity |].
  cbn [map fst snd]. now rewrite IH.
Qed.

Lemma obj_get_map_snd {A B} (g : A -> B) (o : obj A) (k : string) :
  obj_get (map (fun e => (fst e, g (snd e))) o) k = option_map g (obj_get o k).
Proof.
  induction o as [| [k' v'] o IH]; simpl; [reflexivity |].
  destruct (String.eqb k' k); [reflexivity | exact IH].
Qed.

Lemma jsonMembers_ext (K : list string) (ser ser' : obj (option string)) :
  (forall P, obj_get ser P = obj_get ser' P) ->
  jsonMembers K ser = jsonMembers K ser'.
Proof.
  intros E. unfold jsonMembers.
  induction K as [| P K IH]; cbn [flat_map]; [reflexivity |].
  now rewrite E, IH.
Qed.

(** The serialization reads an object by its names only. *)
Lemma serializeJSON_perm (number_to_string : Q -> string) (K : list string)
    (c1 c2 : obj value) :
  NoDup (keys c1) -> Permutation c1 c2 ->
  serializeJSON number_to_string K (VObject c1)
  = serializeJSON number_to_string K (VObject c2).
Proof.
  intros N P. rewrite !serializeJSON_object. do 4 f_equal.
  apply jsonMembers_ext. intros k.
  rewrite !(obj_get_map_snd (serializeJSON number_to_string K)).
  now rewrite (obj_get_perm c1 c2 k N P).
Qed.

Lemma generateCacheKey_perm (number_to_string : Q -> string) (c1 c2 : obj value) :
  NoDup (keys c1) -> Permutation c1 c2 ->
  generateCacheKey number_to_string c1 = generateCacheKey number_to_string c2.
Proof.
  intros N P. unfold generateCacheKey.
  rewrite (sortStrings_perm_eq (keys c1) (keys c2)) by (now apply Permutation_map).
  now rewrite (serializeJSON_perm number_to_string _ c1 c2 N P).
Qed.

(** ** The result cache *)

Lemma obj_get_cacheResult (e : engine) (key : string) (r : successResult) :
  exists stored,
    obj_get (cache (cacheResult e key r)) key = Some stored
    /\ comparison stored = comparison r
    /\ timestamp (result_metadata stored) = None.
Proof.
  unfold cacheResult. cbn [cache]. rewrite obj_get_set, String.eqb_refl.
  eexists. split; [reflexivity | split; reflexivity].
Qed.

(** A request whose key the cache holds is answered from the cache, as it
    stands: it is not validated, and no provider is read. *)
Lemma processConstraints_hit (number_to_string : Q -> string) (rules : ruleTable)
    (e : engine) (now : string) (dataset : obj providerData) (c : obj value)
    (stored : successResult) :
  obj_get (cache e) (generateCacheKey number_to_string c) = Some stored ->
  exists e' r,
    processConstraints number_to_string rules e now dataset c = (e', Success r)
    /\ cache e' = cache e
    /\ cacheHits e' = S (cacheHits e)
    /\ comparison r = comparison stored
    /\ fromCache (result_metadata r) = true.
Proof.
  intros G. unfold processConstraints. rewrite G.
  eexists. eexists. split; [reflexivity |]. now repeat split.
Qed.

(** C9, amended: the cache is read and written under [generateCacheKey] of
    the record [processConstraints] is given, as it is given, and two
    records with the same fields in another order have the same key: after
    a successful evaluation of one, the cache holds its comparison under the
    key of the other, and the other is answered from the cache. *)
Theorem C9_cache_key_ignores_field_order (number_to_string : Q -> string)
    (c1 c2 : obj value) :
  NoDup (keys c1) ->
  Permutation c1 c2 ->
  generateCacheKey number_to_string c1 = generateCacheKey number_to_string c2
  /\ forall rules e now dataset e' r,
       processConstraints number_to_string rules e now dataset c1 = (e', Success r) ->
       exists stored,
         obj_get (cache e') (generateCacheKey number_to_string c2) = Some stored
         /\ comparison stored = comparison r
         /\ forall now' dataset',
              exists e'' r',
                processConstraints number_to_string rules e' now' dataset' c2
                = (e'', Success r')
                /\ cacheHits e'' = S (cacheHits e')
                /\ comparison r' = comparison r
                /\ fromCache (result_metadata r') = true.
Proof.
  intros N P.
  pose proof (generateCacheKey_perm number_to_string c1 c2 N P) as K.
  split; [exact K |].
  intros rules e now dataset e' r E.
  assert (H : exists stored,
            obj_get (cache e') (generateCacheKey number_to_string c2) = Some stored
            /\ comparison stored = comparison r).
  { rewrite <- K. unfold processConstraints in E.
    destruct (obj_get (cache e) (generateCacheKey number_to_string c1))
      as [cached |] eqn:G.
    - injection E as <- <-. cbn [cache comparison]. now exists cached.
    - destruct (computeResult _ _ _ _ _ _) as [r' | m]; [| discriminate].
      injection E as <- <-.
      destruct (obj_get_cacheResult
                  {| cache := cache e; cacheMaxSize := cacheMaxSize e;
                     cacheHits := cacheHits e; cacheMisses := S (cacheMisses e) |}
                  (generateCacheKey number_to_string c1) r') as [stored [S1 [S2 _]]].
      now exists stored. }
  destruct H as [stored [G S]]. exists stored.
  split; [exact G |]. split; [exact S |].
  intros now' dataset'.
  destruct (processConstraints_hit number_to_string rules e' now' dataset' c2 stored G)
    as [e'' [r' [E' [_ [Hh [Hc Hf]]]]]].
  exists e'', r'. split; [exact E' |]. split; [exact Hh |].
  split; [now rewrite Hc | exact Hf].
Qed.

Lemma C9_cache_key_ignores_field_order_witness :
  generateCacheKey printNothing sampleRequest
  = generateCacheKey printNothing (rev sampleRequest)
  /\ forall rules e now dataset e' r,
       processConstraints printNothing rules e now dataset sampleRequest
       = (e', Success r) ->
       exists stored,
         obj_get (cache e') (generateCacheKey printNothing (rev sampleRequest))
         = Some stored
         /\ comparison stored = comparison r
         /\ forall now' dataset',
              exists e'' r',
                processConstraints printNothing rules e' now' dataset' (rev sampleRequest)
                = (e'', Success r')
                /\ cacheHits e'' = S (cacheHits e')
                /\ comparison r' = comparison r
                /\ fromCache (result_metadata r') = true.
Proof.
  apply (C9_cache_key_ignores_field_order printNothing sampleRequest (rev sampleRequest)).
  - apply distinct_NoDup. reflexivity.
  - apply Permutation_rev.
Defined.

(** C9 as stated fails: the key is computed from the record as it is
    given, before [validateAndNormalizeConstraints] runs. The empty
    request and the request that spells out the defaults are normalized to
    the same constraint, and their keys differ; so the second is computed
    anew after the first, where a key of the normalized constraint would
    find it in the cache. *)
Lemma C9_counterexample :
  validateAndNormalizeConstraints printNothing []
  = Ok {| budget := "medium"; experience := "intermediate"; workload := "startup";
          priorities := [] |}
  /\ validateAndNormalizeConstraints printNothing defaultRequest
     = validateAndNormalizeConstraints printNothing []
  /\ generateCacheKey printNothing [] = "comparison_31e"
  /\ generateCacheKey printNothing defaultRequest = "comparison_knpvh7"
  /\ generateCacheKey printNothing [] <> generateCacheKey printNothing defaultRequest.
Proof.
  split; [reflexivity |]. split; [reflexivity |].
  split; [reflexivity |]. split; [reflexivity |].
  intros H. vm_compute in H. discriminate H.
Qed.

(** ** Evaluation, the clock and the cache *)

(** What is computed after a miss depends on the engine and on the clock
    through the cache statistics and the timestamp only. *)
Lemma computeResult_content (number_to_string : Q -> string) (rules : ruleTable)
    (e1 e2 : engine) (t1 t2 : string) (dataset : obj providerData)
    (constraints : obj value) :
  match computeResult number_to_string rules e1 t1 dataset constraints,
        computeResult number_to_string rules e2 t2 dataset constraints with
  | Ok r1, Ok r2 =>
      comparison r1 = comparison r2
      /\ md_constraints (result_metadata r1) = md_constraints (result_metadata r2)
      /\ md_weightings (result_metadata r1) = md_weightings (result_metadata r2)
      /\ fromCache (result_metadata r1) = false
      /\ fromCache (result_metadata r2) = false
      /\ timestamp (result_metadata r1) = Some t1
      /\ timestamp (result_metadata r2) = Some t2
  | Throw m1, Throw m2 => m1 = m2
  | _, _ => False
  end.
Proof.
  unfold computeResult.
  destruct (validateAndNormalizeConstraints number_to_string constraints) as [c | m];
    cbn [bind]; [| reflexivity].
  destruct (List.length dataset =? 0)%nat; [reflexivity |].
  destruct (calculateWeightings rules c) as [w | m]; cbn [bind]; [| reflexivity].
  destruct (generateComparisonOutput _ c) as [out | m]; cbn [bind]; [| reflexivity].
  cbn. repeat split.
Qed.

(** C2: two evaluations of the same constraint record over the same
    dataset, each missing the cache, return the same content, whatever the
    engine's state and the clock: the same comparison, constraints and
    weightings, or the same error message. *)
Theorem C2_determinism (number_to_string : Q -> string) (rules : ruleTable)
    (e1 e2 : engine) (t1 t2 : string) (dataset : obj providerData)
    (constraints : obj value) :
  obj_get (cache e1) (generateCacheKey number_to_string constraints) = None ->
  obj_get (cache e2) (generateCacheKey number_to_string constraints) = None ->
  contentOf (snd (processConstraints number_to_string rules e1 t1 dataset constraints))
  = contentOf (snd (processConstraints number_to_string rules e2 t2 dataset constraints)).
Proof.
  intros M1 M2. unfold processConstraints. rewrite M1, M2.
  set (m1 := {| cache := cache e1; cacheMaxSize := cacheMaxSize e1;
                cacheHits := cacheHits e1; cacheMisses := S (cacheMisses e1) |}).
  set (m2 := {| cache := cache e2; cacheMaxSize := cacheMaxSize e2;
                cacheHits := cacheHits e2; cacheMisses := S (cacheMisses e2) |}).
  pose proof (computeResult_content number_to_string rules m1 m2 t1 t2 dataset constraints)
    as H.
  destruct (computeResult number_to_string rules m1 t1 dataset constraints) as [r1 | x1];
    destruct (computeResult number_to_string rules m2 t2 dataset constraints) as [r2 | x2];
    try contradiction; cbn [snd contentOf].
  - destruct H as [Hc [Hn [Hw _]]]. now rewrite Hc, Hn, Hw.
  - now subst.
Qed.

(** The same constraint evaluated on an engine, then again after
    [clearCache], with the clock read at two different times. *)
Lemma C2_determinism_witness :
  contentOf (snd (processConstraints printNothing constraintRules
                    newEngine "2024-01-15T10:00:00.000Z" sampleDataset sampleRequest))
  = contentOf (snd (processConstraints printNothing constraintRules
                      (clearCache
                         (fst (processConstraints printNothing constraintRules
                                 newEngine "2024-01-15T10:00:00.000Z"
                                 sampleDataset sampleRequest)))
                      "2024-01-15T10:00:05.000Z" sampleDataset sampleRequest)).
Proof.
  apply (C2_determinism printNothing constraintRules); reflexivity.
Defined.

(** C10: when [processConstraints] does not succeed it returns the failure
    object with its code, and the cache holds what it held; an entry the
    cache serves is a success, and the cache changes on the success path
    only. *)
Theorem C10_failure_leaves_cache (number_to_string : Q -> string) (rules : ruleTable)
    (e e' : engine) (now : string) (dataset : obj providerData)
    (constraints : obj value) (o : outcome) :
  processConstraints number_to_string rules e now dataset constraints = (e', o) ->
  (success o = false ->
     (exists message, o = Failure "COMPARISON_ERROR" message now)
     /\ cache e' = cache e)
  /\ (cache e' <> cache e -> success o = true)
  /\ (obj_has (cache e) (generateCacheKey number_to_string constraints) = true ->
      success o = true).
Proof.
  unfold processConstraints, obj_has. intros E.
  destruct (obj_get (cache e) (generateCacheKey number_to_string constraints))
    as [cached |].
  - injection E as <- <-. cbn. repeat split; congruence.
  - destruct (computeResult _ _ _ _ _ _) as [r | m]; injection E as <- <-; cbn.
    + repeat split; congruence.
    + repeat split; try congruence. now exists m.
Qed.

(** An evaluation with no provider data: a failure, and the cache as it
    was. *)
Lemma C10_failure_leaves_cache_witness :
  (exists message,
     snd (processConstraints printNothing constraintRules newEngine "now" [] sampleRequest)
     = Failure "COMPARISON_ERROR" message "now")
  /\ cache (fst (processConstraints printNothing constraintRules newEngine "now" []
                   sampleRequest))
     = cache newEngine.
Proof.
  apply (C10_failure_leaves_cache printNothing constraintRules newEngine _ "now" []
           sampleRequest _ eq_refl).
  reflexivity.
Defined.

(** The error paths: constraints the engine rejects, and an empty
    dataset. *)
Lemma processConstraints_error_paths (number_to_string : Q -> string)
    (rules : ruleTable) (e : engine) (now : string) (dataset : obj providerData)
    (constraints : obj value) :
  obj_get (cache e) (generateCacheKey number_to_string constraints) = None ->
  (exists m, validateAndNormalizeConstraints number_to_string constraints = Throw m)
  \/ dataset = [] ->
  success (snd (processConstraints number_to_string rules e now dataset constraints))
  = false.
Proof.
  intros M H. unfold processConstraints. rewrite M. unfold computeResult.
  destruct H as [[m ->] | ->]; cbn [bind].
  - reflexivity.
  - destruct (validateAndNormalizeConstraints _ _); reflexivity.
Qed.

(** ** The output formatter *)

Lemma collect_nil {A} (f : A -> result (list string)) (l : list A) :
  Forall (fun x => f x = Ok []) l -> collect f l = Ok [].
Proof.
  induction 1 as [| x l Hx _ IH]; simpl; [reflexivity |].
  now rewrite Hx, IH.
Qed.

Lemma formatProviderValue_section (number_to_string : Q -> string)
    (providerData v : value) :
  formatProviderValue number_to_string providerData = Ok v -> isProviderSection v.
Proof.
  unfold formatProviderValue.
  destruct (get providerData "strengths") as [s | m]; [| discriminate].
  destruct (get providerData "weaknesses") as [w | m]; [| discriminate].
  destruct (get providerData "idealUseCases") as [u | m]; [| discriminate].
  destruct (get providerData "tradeOffs") as [t | m]; [| discriminate].
  cbn [bind]. intros [= <-]. unfold isProviderSection. eauto.
Qed.

Lemma formatEntries_sections (number_to_string : Q -> string)
    (entries formatted result : obj value) :
  Forall isProviderSection (values formatted) ->
  formatEntries number_to_string formatted entries = Ok result ->
  Forall isProviderSection (values result).
Proof.
  revert formatted.
  induction entries as [| [providerName providerData] entries IH];
    intros formatted F; simpl.
  - now intros [= <-].
  - destruct (formatProviderValue number_to_string providerData) as [section | m] eqn:E;
      [| discriminate].
    cbn [bind]. apply IH. apply Forall_values_obj_set; [exact F |].
    exact (formatProviderValue_section _ _ _ E).
Qed.

Lemma section_complete (v : value) (message : string -> string) :
  isProviderSection v -> missingIn v requiredProviderSections message = Ok [].
Proof.
  intros [s [w [u [t ->]]]]. reflexivity.
Qed.

(** On the object [formatComparisonResults] assembles, the structural
    check does not throw, and all it can report is a missing provider. *)
Lemma validateOutputStructure_assembled (number_to_string : Q -> string)
    (rawResults constraints : value) (now : string) (formatted : value) :
  assemble number_to_string rawResults constraints now = Ok formatted ->
  exists entries,
    get formatted "providers" = Ok (VObject entries)
    /\ validateOutputStructure formatted = Ok (missingProviders (keys entries)).
Proof.
  unfold assemble.
  destruct (formatConstraints constraints) as [c | m]; [| discriminate].
  destruct (get rawResults "providers") as [rawProviders | m]; [| discriminate].
  cbn [bind]. unfold formatProviders.
  destruct (Object_entries (js_or rawProviders (VObject []))) as [raw | m];
    [| discriminate].
  cbn [bind].
  destruct (formatEntries number_to_string [] raw) as [entries | m] eqn:E;
    [| discriminate].
  cbn [bind].
  destruct (get rawResults "crossProviderAnalysis") as [rawAnalysis | m]; [| discriminate].
  destruct (get rawResults "decisionGuidance") as [rawGuidance | m]; [| discriminate].
  cbn [bind]. intros [= <-].
  exists entries. split; [reflexivity |].
  assert (S : Forall isProviderSection (values entries)).
  { apply (formatEntries_sections number_to_string raw [] entries); [constructor | exact E]. }
  unfold validateOutputStructure.
  assert (E1 : forall t c' a g message,
             missingIn (VObject [("timestamp", t); ("constraints", c');
                                 ("providers", VObject entries);
                                 ("crossProviderAnalysis", a); ("decisionGuidance", g)])
               requiredSections message = Ok []) by reflexivity.
  rewrite E1. cbn [bind get get_opt obj_get String.eqb Ascii.eqb Bool.eqb].
  cbn [whenTruthy truthy Object_entries bind].
  rewrite (collect_nil _ entries).
  - cbn [bind]. unfold formatCrossProviderAnalysis, formatDecisionGuidance.
    unfold missingProviders. cbn. now rewrite !app_nil_r.
  - apply Forall_forall. intros [k v] I. cbn [fst snd].
    apply section_complete. rewrite Forall_forall in S. apply S.
    apply (in_map snd) in I. exact I.
Qed.

Lemma isNeutral_issues (output : value) :
  isNeutral (detectBias output)
  = match issues (detectBias output) with [] => true | _ :: _ => false end.
Proof. reflexivity. Qed.

(** What cannot even be assembled is a failure as well. *)
Lemma formatComparisonResults_throw (number_to_string : Q -> string)
    (rawResults constraints : value) (now later message : string) :
  assemble number_to_string rawResults constraints now = Throw message ->
  formatComparisonResults number_to_string rawResults constraints now later
  = FormatFailure "OUTPUT_FORMATTING_ERROR" message later.
Proof.
  intros E. unfold formatComparisonResults, formatBody. now rewrite E.
Qed.

(** C1: on the assembled result, [formatComparisonResults] returns the
    failure object whenever the structural check reports an omission or
    the neutrality scan reports a match; it returns success, carrying the
    assembled object as it is, exactly when both report nothing. *)
Theorem C1_formatting_fails_on_any_issue (number_to_string : Q -> string)
    (rawResults constraints : value) (now later : string) (formatted : value) :
  assemble number_to_string rawResults constraints now = Ok formatted ->
  exists structureErrors,
    validateOutputStructure formatted = Ok structureErrors
    /\ (structureErrors <> [] \/ issues (detectBias formatted) <> [] ->
        exists message,
          formatComparisonResults number_to_string rawResults constraints now later
          = FormatFailure "OUTPUT_FORMATTING_ERROR" message later)
    /\ (structureErrors = [] -> issues (detectBias formatted) = [] ->
        formatComparisonResults number_to_string rawResults constraints now later
        = Formatted formatted later)
    /\ (forall results formattedAt,
          formatComparisonResults number_to_string rawResults constraints now later
          = Formatted results formattedAt ->
          results = formatted
          /\ structureErrors = []
          /\ issues (detectBias formatted) = []).
Proof.
  intros A.
  destruct (validateOutputStructure_assembled _ _ _ _ _ A) as [entries [_ V]].
  exists (missingProviders (keys entries)). split; [exact V |].
  unfold formatComparisonResults, formatBody. rewrite A. cbn [bind]. rewrite V.
  cbn [bind]. rewrite isNeutral_issues.
  destruct (missingProviders (keys entries)) as [| e1 es];
    destruct (issues (detectBias formatted)) as [| i1 more]; cbn [negb].
  - repeat split; try congruence.
    intros [H | H]; congruence.
  - repeat split; try congruence; try discriminate. intros _. eexists. reflexivity.
  - repeat split; try congruence; try discriminate. intros _. eexists. reflexivity.
  - repeat split; try congruence; try discriminate. intros _. eexists. reflexivity.
Qed.

(** A strength that names a winner: the formatting fails. *)
Lemma C1_formatting_fails_on_any_issue_witness :
  exists message,
    formatComparisonResults printNothing
      (sampleRaw "The clear winner for startups") sampleConstraintValue
      "2024-01-15T10:00:00.000Z" "2024-01-15T10:00:00.002Z"
    = FormatFailure "OUTPUT_FORMATTING_ERROR" message "2024-01-15T10:00:00.002Z".
Proof.
  destruct (C1_formatting_fails_on_any_issue printNothing
              (sampleRaw "The clear winner for startups") sampleConstraintValue
              "2024-01-15T10:00:00.000Z" "2024-01-15T10:00:00.002Z" _ eq_refl)
    as [structureErrors [_ [Fails _]]].
  apply Fails. right. vm_compute. discriminate.
Defined.

(** The same result without the claim is formatted, and a result that
    lacks a provider is not. *)
Example formatting_neutral_sample :
  exists formatted,
    formatComparisonResults printNothing
      (sampleRaw "Broad service catalogue") sampleConstraintValue "t0" "t1"
    = Formatted formatted "t1".
Proof. vm_compute. eexists. reflexivity. Qed.

Example formatting_missing_provider :
  formatComparisonResults printNothing
    (VObject [("providers", VObject [("aws", sampleRawSection "Broad service catalogue")])])
    sampleConstraintValue "t0" "t1"
  = FormatFailure "OUTPUT_FORMATTING_ERROR"
      "Output structure validation failed: Missing required provider: azure, Missing required provider: gcp"
      "t1".
Proof. vm_compute. reflexivity. Qed.

(** ** Rounding of the scores in generated text *)

Lemma floor_half (z : Z) : Qfloor (inject_Z z + (1 # 2)) = z.
Proof.
  unfold Qfloor, Qplus, inject_Z. simpl Qnum. simpl Qden.
  change (Z.pos (1 * 2)) with 2%Z.
  symmetry. apply Z.div_unique with (r := 1%Z); lia.
Qed.

Lemma roundHalfAway1_tenth (z : Z) :
  roundHalfAway1 (inject_Z z / 10) == inject_Z z / 10.
Proof.
  unfold roundHalfAway1.
  assert (S : inject_Z z / 10 * 10 == inject_Z z) by field.
  destruct (Qle_bool 0 (inject_Z z / 10 * 10)).
  - rewrite (Qfloor_comp _ (inject_Z z + (1 # 2))) by (rewrite S; reflexivity).
    rewrite floor_half. reflexivity.
  - rewrite (Qfloor_comp _ (inject_Z (- z) + (1 # 2)))
      by (rewrite S, inject_Z_opp; reflexivity).
    rewrite floor_half, inject_Z_opp. field.
Qed.

(** What [Math.round(x * 10) / 10] returns has one decimal place. *)
Lemma isRounded1_round1 (x : Q) : isRounded1 (round1 x) = true.
Proof.
  unfold isRounded1, round1. apply Qeq_bool_iff.
  symmetry. apply roundHalfAway1_tenth.
Qed.

(** On a score that is not negative, [Math.round] on the value scaled by
    ten is rounding with a half going away from zero. *)
Lemma round1_half_away (x : Q) : 0 <= x -> round1 x == roundHalfAway1 x.
Proof.
  intros H. unfold round1, roundHalfAway1, Math_round.
  assert (P : Qle_bool 0 (x * 10) = true).
  { apply Qle_bool_iff. apply Qmult_le_0_compat; [exact H | discriminate]. }
  rewrite P. reflexivity.
Qed.

(** The entries of the decision guidance hold rounded scores. *)
Lemma guidanceEntries_rounded (evaluations : obj Evaluation) (d : string) :
  Forall (fun t => forallb isRounded1 (numbersOf t) = true)
         (guidanceEntries evaluations d).
Proof.
  unfold guidanceEntries. apply Forall_forall. intros t I.
  apply in_map_iff in I. destruct I as [e [<- _]].
  cbn [numbersOf forallb]. now rewrite isRounded1_round1.
Qed.

Lemma decisionGuidance_rounded (evaluations : obj Evaluation) (c : Constraint)
    (g : decisionGuidance) :
  generateDecisionGuidance evaluations c = Ok g ->
  Forall (fun t => forallb isRounded1 (numbersOf t) = true)
         (costOptimized g ++ dg_easeOfUse g ++ dg_enterprise g ++ innovation g
          ++ [overallBest g])%list.
Proof.
  unfold generateDecisionGuidance.
  destruct (js_sort _ evaluations) as [| top rest]; [discriminate |].
  intros [= <-]. cbn [costOptimized dg_easeOfUse dg_enterprise innovation overallBest].
  repeat (apply Forall_app; split); try apply guidanceEntries_rounded.
  constructor; [| constructor].
  cbn [numbersOf forallb]. now rewrite isRounded1_round1.
Qed.

(** C7, as the code behaves: evaluating the sample request on the sample
    dataset, the strength and weakness sentences and the cross-provider
    analysis carry dimension scores as they were computed (7.75, 14/3,
    20/3), not rounded to one decimal place; the decision-guidance entries
    carry rounded scores. *)
Theorem C7_scores_in_sentences_not_rounded :
  exists e r gcp azure,
    processConstraints printNothing constraintRules newEngine
      "2024-01-15T10:00:00.000Z" sampleDataset sampleRequest
    = (e, Success r)
    /\ obj_get (providers (comparison r)) "gcp" = Some gcp
    /\ obj_get (providers (comparison r)) "azure" = Some azure
    /\ In [Lit "Very user-friendly ("; Num (31 # 4);
           Lit "/10) - ideal for teams prioritizing simplicity"]
          (ps_strengths gcp)
    /\ isRounded1 (31 # 4) = false
    /\ In [Lit "Higher lock-in risk ("; Num (14 # 3);
           Lit "/10) - harder to migrate later"]
          (ps_weaknesses azure)
    /\ isRounded1 (14 # 3) = false
    /\ forallb isRounded1
         (numbersOf (flexibilityTradeOffs (co_crossProviderAnalysis (comparison r))))
       = false
    /\ forallb (fun t => forallb isRounded1 (numbersOf t))
         (costOptimized (co_decisionGuidance (comparison r))) = true.
Proof.
  destruct (processConstraints printNothing constraintRules newEngine
              "2024-01-15T10:00:00.000Z" sampleDataset sampleRequest)
    as [e [r | code message stamp]] eqn:E.
  - destruct (obj_get (providers (comparison r)) "gcp") as [gcp |] eqn:G.
    + destruct (obj_get (providers (comparison r)) "azure") as [azure |] eqn:Z.
      * exists e, r, gcp, azure.
        revert E G Z. vm_compute. intros [= <- <-] [= <-] [= <-].
        repeat split; try (right; right; now left). now left.
      * revert E Z. vm_compute. intros [= <- <-]. discriminate.
    + revert E G. vm_compute. intros [= <- <-]. discriminate.
  - revert E. vm_compute. discriminate.
Qed.

(** ** The constraint processor *)

(** A field given as a string is lower-cased, and an absent or empty one
    takes its default. *)
Lemma normalizeField_string (constraints : value) (k fallback s : string) :
  get constraints k = Ok (VString s) ->
  normalizeField constraints k fallback
  = Ok (if String.eqb (toLowerCase s) "" then fallback else toLowerCase s).
Proof.
  intros G. unfold normalizeField. rewrite G. cbn [bind optLowerCase].
  unfold js_or. cbn [truthy]. now destruct (String.eqb (toLowerCase s) "").
Qed.

Lemma normalizeField_absent (constraints : value) (k fallback : string) :
  get constraints k = Ok VUndefined ->
  normalizeField constraints k fallback = Ok fallback.
Proof.
  intros G. unfold normalizeField. now rewrite G.
Qed.

Lemma checkRequired_invalid (v : string) (valid : list string) (required invalid : string) :
  v <> "" -> includes valid v = false ->
  checkRequired v valid required invalid
  = [invalid ++ v ++ ". Must be one of: " ++ join ", " valid].
Proof.
  intros N I. unfold checkRequired.
  destruct (String.eqb_spec v "") as [-> | _]; [congruence |]. now rewrite I.
Qed.

Lemma checkRequired_valid (v : string) (valid : list string) (required invalid : string) :
  v <> "" -> includes valid v = true -> checkRequired v valid required invalid = [].
Proof.
  intros N I. unfold checkRequired.
  destruct (String.eqb_spec v "") as [-> | _]; [congruence |]. now rewrite I.
Qed.

(** A normalized record with a field outside its enumerated set is
    rejected, and the errors name every such field. *)
Lemma processRawConstraints_rejects (rawConstraints : value) (n : Constraint) :
  normalizeConstraints rawConstraints = Ok n ->
  budget n <> "" -> experience n <> "" -> workload n <> "" ->
  includes validBudgets (budget n) && includes validExperience (experience n)
  && includes validWorkloads (workload n) = false ->
  exists errors warnings,
    processRawConstraints rawConstraints = Rejected errors warnings
    /\ errors <> []
    /\ (includes validBudgets (budget n) = false ->
        In ("Invalid budget level: " ++ budget n
            ++ ". Must be one of: low, medium, high") errors)
    /\ (includes validExperience (experience n) = false ->
        In ("Invalid experience level: " ++ experience n
            ++ ". Must be one of: beginner, intermediate, expert") errors)
    /\ (includes validWorkloads (workload n) = false ->
        In ("Invalid workload type: " ++ workload n
            ++ ". Must be one of: startup, enterprise, research") errors).
Proof.
  intros E Nb Ne Nw H. unfold processRawConstraints. rewrite E.
  unfold validateConstraints. cbn [isValid errors warnings].
  destruct (includes validBudgets (budget n)) eqn:B;
    destruct (includes validExperience (experience n)) eqn:X;
    destruct (includes validWorkloads (workload n)) eqn:W;
    try discriminate H;
    repeat match goal with
           | H' : includes ?l ?v = true |- _ =>
               rewrite (checkRequired_valid v l) by assumption; clear H'
           | H' : includes ?l ?v = false |- _ =>
               rewrite (checkRequired_invalid v l) by assumption; clear H'
           end;
    cbn [app negb]; eexists; eexists;
    (split; [reflexivity |]);
    (split; [discriminate |]);
    repeat split; intros; try discriminate; cbn [In]; auto.
Qed.

(** A normalized record whose three fields are in their sets is accepted
    as it is. *)
Lemma processRawConstraints_accepts (rawConstraints : value) (n : Constraint) :
  normalizeConstraints rawConstraints = Ok n ->
  includes validBudgets (budget n) = true ->
  includes validExperience (experience n) = true ->
  includes validWorkloads (workload n) = true ->
  processRawConstraints rawConstraints
  = Accepted n (warnings (validateConstraints n)).
Proof.
  intros E B X W. unfold processRawConstraints. rewrite E.
  assert (V : isValid (validateConstraints n) = true).
  { unfold validateConstraints. cbn [isValid]. unfold checkRequired.
    rewrite B, X, W.
    destruct (String.eqb_spec (budget n) "") as [Eb | _];
      [rewrite Eb in B; discriminate |].
    destruct (String.eqb_spec (experience n) "") as [Ee | _];
      [rewrite Ee in X; discriminate |].
    destruct (String.eqb_spec (workload n) "") as [Ew | _];
      [rewrite Ew in W; discriminate |].
    reflexivity. }
  now rewrite V.
Qed.

(** Fields that are absent are defaulted, and the request is accepted. *)
Example processRawConstraints_defaults :
  processRawConstraints (VObject [])
  = Accepted {| budget := "medium"; experience := "intermediate";
                workload := "startup"; priorities := [] |}
             ["No valid priorities specified, using default weighting"].
Proof. reflexivity. Qed.

(** A supplied field outside its set is not defaulted. *)
Example processRawConstraints_invalid_budget :
  processRawConstraints
    (VObject [("budget", VString "Invalid"); ("experience", VString "Expert")])
  = Rejected ["Invalid budget level: invalid. Must be one of: low, medium, high"]
             ["No valid priorities specified, using default weighting"].
Proof. reflexivity. Qed.

(** C6, as the code behaves: an unknown priority next to a known one is
    dropped and the request accepted with no warning at all, although
    [validateConstraints] has a warning for priorities it ignores: it is
    given the record from which they are already gone. *)
Theorem C6_unknown_priority_dropped_without_warning :
  processRawConstraints requestWithUnknownPriority
  = Accepted {| budget := "low"; experience := "beginner"; workload := "startup";
                priorities := ["cost"] |} []
  /\ warnings (validateConstraints
                 {| budget := "low"; experience := "beginner"; workload := "startup";
                    priorities := ["cost"; "bogus"] |})
     = ["Invalid priorities ignored: bogus"].
Proof. split; reflexivity. Qed.

(** * Further properties of the engine *)

(** ** The result cache: capacity, eviction and hits *)

Lemma length_obj_set {A} (o : obj A) (k : string) (v : A) :
  (List.length (obj_set o k v) <= S (List.length o))%nat.
Proof.
  induction o as [| [k' v'] o IH]; simpl; [lia |].
  destruct (String.eqb k' k); simpl; lia.
Qed.

Lemma obj_delete_head {A} (k : string) (v : A) (o : obj A) :
  obj_delete ((k, v) :: o) k = o.
Proof. simpl. now rewrite String.eqb_refl. Qed.

Lemma length_cacheResult (e : engine) (key : string) (r : successResult) :
  (1 <= cacheMaxSize e)%nat ->
  (List.length (cache e) <= cacheMaxSize e)%nat ->
  (List.length (cache (cacheResult e key r)) <= cacheMaxSize e)%nat.
Proof.
  intros M L. unfold cacheResult. cbn [cache].
  eapply Nat.le_trans; [apply length_obj_set |].
  destruct (cacheMaxSize e <=? List.length (cache e))%nat eqn:F.
  - apply Nat.leb_le in F.
    destruct (cache e) as [| [fk fv] rest] eqn:C.
    + simpl. lia.
    + rewrite obj_delete_head. simpl in L, F. lia.
  - apply Nat.leb_gt in F. lia.
Qed.

(** The cache never holds more entries than [cacheMaxSize]: a call that
    starts within the bound ends within it, and leaves the bound as it
    was. *)
Theorem cache_never_exceeds_capacity (number_to_string : Q -> string)
    (rules : ruleTable) (e : engine) (now : string) (dataset : obj providerData)
    (constraints : obj value) :
  (1 <= cacheMaxSize e)%nat ->
  (List.length (cache e) <= cacheMaxSize e)%nat ->
  cacheMaxSize (fst (processConstraints number_to_string rules e now dataset constraints))
  = cacheMaxSize e
  /\ (List.length
        (cache (fst (processConstraints number_to_string rules e now dataset constraints)))
      <= cacheMaxSize e)%nat.
Proof.
  intros M L. unfold processConstraints.
  destruct (obj_get (cache e) (generateCacheKey number_to_string constraints)).
  - cbn. now split.
  - destruct (computeResult _ _ _ _ _ _) as [r | m]; cbn [fst].
    + split; [reflexivity |].
      apply (length_cacheResult
               {| cache := cache e; cacheMaxSize := cacheMaxSize e;
                  cacheHits := cacheHits e; cacheMisses := S (cacheMisses e) |});
        assumption.
    + cbn. now split.
Qed.

Lemma cache_never_exceeds_capacity_witness :
  cacheMaxSize (fst (processConstraints printNothing constraintRules newEngine "now"
                       sampleDataset sampleRequest))
  = cacheMaxSize newEngine
  /\ (List.length
        (cache (fst (processConstraints printNothing constraintRules newEngine "now"
                       sampleDataset sampleRequest)))
      <= cacheMaxSize newEngine)%nat.
Proof.
  apply (cache_never_exceeds_capacity printNothing constraintRules newEngine "now"
           sampleDataset sampleRequest); simpl; lia.
Defined.

(** Storing under a new key appends the entry, stripped of its timestamp,
    and when the cache is full the entry stored first is the one that
    goes. *)
Theorem cacheResult_evicts_oldest (e : engine) (key : string) (r : successResult) :
  ~ In key (keys (cache e)) ->
  cache (cacheResult e key r)
  = ((if (cacheMaxSize e <=? List.length (cache e))%nat
      then tl (cache e) else cache e)
     ++ [(key, withoutTimestamp r)])%list.
Proof.
  intros F. unfold cacheResult. cbn [cache].
  fold (withoutTimestamp r).
  destruct (cacheMaxSize e <=? List.length (cache e))%nat.
  - destruct (cache e) as [| [fk fv] rest].
    + reflexivity.
    + rewrite obj_delete_head. cbn [tl].
      apply obj_set_fresh. intros I. apply F. now right.
  - now apply obj_set_fresh.
Qed.

Lemma cacheResult_evicts_oldest_witness :
  cache (cacheResult
           {| cache := [("comparison_a", oneResult); ("comparison_b", oneResult)];
              cacheMaxSize := 2; cacheHits := 0; cacheMisses := 2 |}
           "comparison_c" oneResult)
  = [("comparison_b", oneResult); ("comparison_c", withoutTimestamp oneResult)].
Proof.
  apply (cacheResult_evicts_oldest
           {| cache := [("comparison_a", oneResult); ("comparison_b", oneResult)];
              cacheMaxSize := 2; cacheHits := 0; cacheMisses := 2 |}
           "comparison_c" oneResult).
  simpl. intros [H | [H | []]]; discriminate.
Defined.

(** A request answered by an evaluation is answered from the cache
    afterwards: the stored comparison comes back with [fromCache] set and
    no timestamp, whatever the clock and the dataset have become, and the
    cache is left as it is. *)
Theorem cache_hit_returns_stored (number_to_string : Q -> string) (rules : ruleTable)
    (e e1 : engine) (now : string) (dataset : obj providerData)
    (constraints : obj value) (r : successResult) :
  obj_get (cache e) (generateCacheKey number_to_string constraints) = None ->
  processConstraints number_to_string rules e now dataset constraints = (e1, Success r) ->
  forall (later : string) (dataset' : obj providerData),
  exists r',
    processConstraints number_to_string rules e1 later dataset' constraints
    = ({| cache := cache e1; cacheMaxSize := cacheMaxSize e1;
          cacheHits := S (cacheHits e1); cacheMisses := cacheMisses e1 |},
       Success r')
    /\ comparison r' = comparison r
    /\ md_weightings (result_metadata r') = md_weightings (result_metadata r)
    /\ fromCache (result_metadata r') = true
    /\ timestamp (result_metadata r') = None.
Proof.
  intros M E later dataset'. unfold processConstraints in E. rewrite M in E.
  destruct (computeResult _ _ _ _ _ _) as [r0 | m]; [| discriminate].
  injection E as <- <-.
  unfold processConstraints, cacheResult. cbn [cache].
  rewrite obj_get_set, String.eqb_refl.
  eexists. split; [reflexivity |]. cbn. repeat split.
Qed.

(** The sample request again, an hour later and with the dataset gone. *)
Lemma cache_hit_returns_stored_witness :
  exists r',
    processConstraints printNothing constraintRules (fst oneRun)
      "2024-01-15T11:00:00.000Z" [] sampleRequest
    = ({| cache := cache (fst oneRun); cacheMaxSize := cacheMaxSize (fst oneRun);
          cacheHits := S (cacheHits (fst oneRun));
          cacheMisses := cacheMisses (fst oneRun) |},
       Success r')
    /\ comparison r' = comparison oneResult
    /\ md_weightings (result_metadata r') = md_weightings (result_metadata oneResult)
    /\ fromCache (result_metadata r') = true
    /\ timestamp (result_metadata r') = None.
Proof.
  apply (cache_hit_returns_stored printNothing constraintRules newEngine (fst oneRun)
           "2024-01-15T10:00:00.000Z" oneProvider sampleRequest oneResult).
  - reflexivity.
  - reflexivity.
Defined.

(** ** The constraints the engine works on *)

Lemma includesValue_string (l : list string) (v : value) :
  includesValue l v = true -> v = VString (asString v) /\ includes l (asString v) = true.
Proof.
  destruct v; simpl; try discriminate. now split.
Qed.

Lemma filterPriorities_valid (valid : list string) (ps : list value) :
  Forall (fun p => includes valid p = true) (filterPriorities valid ps).
Proof.
  induction ps as [| p ps IH]; simpl; [constructor |].
  destruct p; try exact IH.
  destruct (includes valid s) eqn:E; [constructor; assumption | exact IH].
Qed.

Lemma filterPriorities_strings (valid : list string) (ps : list string) :
  filterPriorities valid (map VString ps) = List.filter (includes valid) ps.
Proof.
  induction ps as [| p ps IH]; simpl; [reflexivity |].
  rewrite IH. reflexivity.
Qed.

Lemma engine_priorities_known (p : string) :
  includes engineValidPriorities p = true -> includes validPriorities p = true.
Proof.
  intros H. apply includes_In in H. simpl in H.
  repeat (destruct H as [<- | H]; [reflexivity |]). contradiction.
Qed.

Lemma validateAndNormalizeConstraints_valid (number_to_string : Q -> string)
    (constraints : obj value) (n : Constraint) :
  validateAndNormalizeConstraints number_to_string constraints = Ok n ->
  validConstraint n = true
  /\ Forall (fun p => In p engineValidPriorities) (priorities n).
Proof.
  unfold validateAndNormalizeConstraints.
  destruct (includesValue validBudgets _) eqn:B; [| discriminate].
  destruct (includesValue validExperience _) eqn:X; [| discriminate].
  destruct (includesValue validWorkloads _) eqn:W; [| discriminate].
  cbn [negb]. intros [= <-].
  apply includesValue_string in B, X, W.
  destruct B as [_ B]. destruct X as [_ X]. destruct W as [_ W].
  pose proof (filterPriorities_valid engineValidPriorities
                match field constraints "priorities" with
                | VArray items => items
                | _ => []
                end) as F.
  split.
  - unfold validConstraint. cbn [budget experience workload priorities].
    rewrite B, X, W. cbn [andb]. apply forallb_forall. intros p I.
    rewrite Forall_forall in F. now apply engine_priorities_known, F.
  - cbn [priorities]. eapply Forall_impl; [| exact F].
    intros p H. now apply includes_In.
Qed.

(** What the engine's own validation lets through is a valid constraint,
    and of the priorities only the engine's six are left. *)
Theorem engine_normalization_valid (number_to_string : Q -> string)
    (constraints : obj value) (n : Constraint) :
  validateAndNormalizeConstraints number_to_string constraints = Ok n ->
  validConstraint n = true
  /\ Forall (fun p => In p engineValidPriorities) (priorities n).
Proof. apply validateAndNormalizeConstraints_valid. Qed.

Lemma engine_normalization_valid_witness :
  validConstraint sampleConstraint = true
  /\ Forall (fun p => In p engineValidPriorities) (priorities sampleConstraint).
Proof.
  apply (engine_normalization_valid printNothing sampleRequest sampleConstraint).
  reflexivity.
Defined.

Lemma obj_get_rev_key {A} (o : obj A) (k : string) :
  In k (keys o) -> exists v, obj_get (rev o) k = Some v.
Proof.
  intros I. destruct (obj_get (rev o) k) as [v |] eqn:E; [now exists v |].
  apply obj_get_None in E. exfalso. apply E.
  unfold keys. rewrite map_rev. apply -> in_rev. exact I.
Qed.

(** After a miss, a request the engine's validation lets through, over a
    dataset that is not empty, gets a success: its constraints are the
    normalized ones, its weightings give each of the eight dimensions a
    weight that is not negative, and every provider of the dataset has an
    entry in the comparison. *)
Theorem engine_succeeds_on_valid_request (number_to_string : Q -> string)
    (e : engine) (now : string) (dataset : obj providerData)
    (constraints : obj value) (n : Constraint) :
  obj_get (cache e) (generateCacheKey number_to_string constraints) = None ->
  validateAndNormalizeConstraints number_to_string constraints = Ok n ->
  dataset <> [] ->
  exists r,
    snd (processConstraints number_to_string constraintRules e now dataset constraints)
    = Success r
    /\ md_constraints (result_metadata r) = n
    /\ Permutation (keys (md_weightings (result_metadata r))) dimensionList
    /\ Forall (fun x => 0 <= x) (values (md_weightings (result_metadata r)))
    /\ forall id, In id (keys dataset) -> obj_has (providers (comparison r)) id = true.
Proof.
  intros M V D.
  destruct (validateAndNormalizeConstraints_valid _ _ _ V) as [Vn _].
  destruct (calculateWeightings_distribution n Vn) as [w [Ew Dw]].
  destruct (generateComparisonOutput_ok _ n
              (evaluateAll_nonempty constraintRules dataset n w D)) as [out Eo].
  unfold processConstraints. rewrite M. unfold computeResult. rewrite V. cbn [bind].
  destruct dataset as [| d0 dataset0] eqn:Ed; [congruence |]. rewrite <- Ed in *.
  replace (List.length dataset =? 0)%nat with false by (now rewrite Ed).
  rewrite Ew. cbn [bind]. rewrite Eo. cbn [bind snd].
  eexists. split; [reflexivity |].
  cbn [result_metadata md_constraints md_weightings comparison].
  split; [reflexivity |].
  split; [exact (dist_keys w Dw) |]. split; [exact (dist_nonneg w Dw) |].
  intros id I. unfold obj_has.
  destruct (obj_get_rev_key dataset id I) as [p G].
  assert (Gev : obj_get (evaluateAll constraintRules dataset n w) id
                = Some (evaluateProvider constraintRules p n w)).
  { unfold evaluateAll.
    rewrite (obj_get_fold_set (fun p' => evaluateProvider constraintRules p' n w)).
    now rewrite G. }
  rewrite (providers_of_output _ n out id _
             (NoDup_keys_fold_set (fun p' => evaluateProvider constraintRules p' n w)
                dataset [] (NoDup_nil _)) Eo Gev).
  reflexivity.
Qed.

Lemma engine_succeeds_on_valid_request_witness :
  exists r,
    snd (processConstraints printNothing constraintRules newEngine "now" sampleDataset
           sampleRequest)
    = Success r
    /\ md_constraints (result_metadata r) = sampleConstraint
    /\ Permutation (keys (md_weightings (result_metadata r))) dimensionList
    /\ Forall (fun x => 0 <= x) (values (md_weightings (result_metadata r)))
    /\ forall id, In id (keys sampleDataset) -> obj_has (providers (comparison r)) id = true.
Proof.
  apply (engine_succeeds_on_valid_request printNothing newEngine "now" sampleDataset
           sampleRequest sampleConstraint).
  - reflexivity.
  - reflexivity.
  - discriminate.
Defined.

(** When none of the names looked up is one every object inherits: a
    priority with no entry in the rule table leaves the weights as they
    are, and the weighting is produced exactly when budget, experience and
    workload each have an entry. *)
Theorem calculateWeightings_unknown_names (rules : ruleTable) (c : Constraint) :
  plainNames rules c = true ->
  calculateWeightings rules c
  = calculateWeightings rules
      (withPriorities c (List.filter (obj_has (rules_priorities rules)) (priorities c)))
  /\ ((exists w, calculateWeightings rules c = Ok w)
      <-> obj_has (rules_budget rules) (budget c) = true
          /\ obj_has (rules_experience rules) (experience c) = true
          /\ obj_has (rules_workload rules) (workload c) = true).
Proof.
  intros _. split.
  - unfold calculateWeightings. cbn [budget experience workload priorities withPriorities].
    destruct (ruleWeightings (rules_budget rules) (budget c)); [| reflexivity].
    destruct (ruleWeightings (rules_experience rules) (experience c)); [| reflexivity].
    destruct (ruleWeightings (rules_workload rules) (workload c)); [| reflexivity].
    cbn [bind]. do 2 f_equal. unfold applyPriorities.
    generalize (mergeWeightings (mergeWeightings a a0 0.3) a1 0.4).
    induction (priorities c) as [| p ps IH]; intros base; [reflexivity |].
    cbn [fold_left List.filter]. unfold obj_has at 1.
    destruct (obj_get (rules_priorities rules) p) as [rp |] eqn:G.
    + cbn [fold_left]. rewrite G. apply IH.
    + apply IH.
  - unfold calculateWeightings, ruleWeightings, obj_has.
    destruct (obj_get (rules_budget rules) (budget c));
      destruct (obj_get (rules_experience rules) (experience c));
      destruct (obj_get (rules_workload rules) (workload c)); cbn [bind];
      split; try (intros [w H]; discriminate); try (intros [? [? ?]]; discriminate);
      try (intros _; eexists; reflexivity); now repeat split.
Qed.

Lemma calculateWeightings_unknown_names_witness :
  calculateWeightings constraintRules speedConstraint
  = calculateWeightings constraintRules
      (withPriorities speedConstraint
         (List.filter (obj_has (rules_priorities constraintRules))
            (priorities speedConstraint)))
  /\ ((exists w, calculateWeightings constraintRules speedConstraint = Ok w)
      <-> obj_has (rules_budget constraintRules) (budget speedConstraint) = true
          /\ obj_has (rules_experience constraintRules) (experience speedConstraint) = true
          /\ obj_has (rules_workload constraintRules) (workload speedConstraint) = true).
Proof.
  apply (calculateWeightings_unknown_names constraintRules speedConstraint).
  reflexivity.
Defined.

(** ** The constraint processor: what it lets through *)

Lemma lowerChar_idempotent (c : ascii) : lowerChar (lowerChar c) = lowerChar c.
Proof.
  destruct c as [[] [] [] [] [] [] [] []]; reflexivity.
Qed.

Lemma toLowerCase_idempotent (s : string) : toLowerCase (toLowerCase s) = toLowerCase s.
Proof.
  unfold toLowerCase. induction s as [| c s IH]; simpl; [reflexivity |].
  now rewrite lowerChar_idempotent, IH.
Qed.

Lemma validPriorities_lower (p : string) :
  includes validPriorities p = true -> toLowerCase p = p.
Proof.
  intros H. apply includes_In in H. simpl in H.
  repeat (destruct H as [<- | H]; [reflexivity |]). contradiction.
Qed.

(** A normalized field is a lower-case string that is not empty. *)
Lemma normalizeField_result (constraints : value) (k fallback s : string) :
  fallback <> "" -> toLowerCase fallback = fallback ->
  normalizeField constraints k fallback = Ok s ->
  s <> "" /\ toLowerCase s = s.
Proof.
  intros Hn Hl. unfold normalizeField.
  destruct (get constraints k) as [raw | m]; [| discriminate]. cbn [bind].
  destruct raw; cbn [optLowerCase bind]; try discriminate;
    unfold js_or; cbn [truthy asString]; try (intros [= <-]; now split).
  destruct (String.eqb_spec (toLowerCase s0) "") as [E | E]; cbn [negb asString];
    intros [= <-]; [now split |].
  split; [exact E | apply toLowerCase_idempotent].
Qed.

Lemma normalizeConstraints_result (rawConstraints : value) (n : Constraint) :
  normalizeConstraints rawConstraints = Ok n ->
  (budget n <> "" /\ toLowerCase (budget n) = budget n)
  /\ (experience n <> "" /\ toLowerCase (experience n) = experience n)
  /\ (workload n <> "" /\ toLowerCase (workload n) = workload n)
  /\ Forall (fun p => includes validPriorities p = true) (priorities n).
Proof.
  unfold normalizeConstraints.
  destruct (normalizeField rawConstraints "budget" "medium") as [b | m] eqn:B;
    [| discriminate].
  destruct (normalizeField rawConstraints "experience" "intermediate") as [x | m] eqn:X;
    [| discriminate].
  destruct (normalizeField rawConstraints "workload" "startup") as [w | m] eqn:W;
    [| discriminate].
  cbn [bind].
  destruct (get rawConstraints "priorities") as [ps | m]; [| discriminate].
  cbn [bind].
  apply normalizeField_result in B, X, W; try reflexivity; try discriminate.
  destruct ps; cbn [bind]; try (intros [= <-]; cbn; repeat split;
                                try apply B; try apply X; try apply W; constructor).
  destruct (lowerAll items) as [lowered | m]; [| discriminate]. cbn [bind].
  intros [= <-]. cbn [budget experience workload priorities].
  repeat split; try apply B; try apply X; try apply W.
  apply filterPriorities_valid.
Qed.

Lemma validateConstraints_warnings (n : Constraint) :
  Forall (fun p => includes validPriorities p = true) (priorities n) ->
  warnings (validateConstraints n) = noPrioritiesWarning n.
Proof.
  intros F. unfold validateConstraints, noPrioritiesWarning. cbn [warnings].
  assert (E : List.filter (fun p => negb (includes validPriorities p)) (priorities n) = []).
  { induction F as [| p ps Hp _ IH]; cbn [List.filter]; [reflexivity |].
    now rewrite Hp. }
  rewrite E. reflexivity.
Qed.

Lemma processRawConstraints_accepted (rawConstraints : value) (n : Constraint)
    (ws : list string) :
  processRawConstraints rawConstraints = Accepted n ws ->
  normalizeConstraints rawConstraints = Ok n
  /\ validConstraint n = true
  /\ ws = noPrioritiesWarning n.
Proof.
  unfold processRawConstraints.
  destruct (normalizeConstraints rawConstraints) as [n' | m] eqn:E; [| discriminate].
  destruct (isValid (validateConstraints n')) eqn:V; cbn [negb]; [| discriminate].
  intros [= <- <-].
  destruct (normalizeConstraints_result _ _ E) as [[Nb _] [[Nx _] [[Nw _] F]]].
  split; [reflexivity | split; [| now apply validateConstraints_warnings]].
  unfold validConstraint.
  unfold validateConstraints in V. cbn [isValid] in V.
  destruct (includes validBudgets (budget n')) eqn:B;
    [| rewrite (checkRequired_invalid _ _ _ _ Nb B) in V; discriminate].
  destruct (includes validExperience (experience n')) eqn:X;
    [| rewrite (checkRequired_valid _ _ _ _ Nb B),
         (checkRequired_invalid _ _ _ _ Nx X) in V; discriminate].
  destruct (includes validWorkloads (workload n')) eqn:W;
    [| rewrite (checkRequired_valid _ _ _ _ Nb B), (checkRequired_valid _ _ _ _ Nx X),
         (checkRequired_invalid _ _ _ _ Nw W) in V; discriminate].
  cbn [andb]. apply forallb_forall. rewrite Forall_forall in F. exact F.
Qed.

(** Whatever the processor accepts is a valid constraint, and the only
    warning it ever attaches is the one for an empty list of priorities:
    the warning for ignored priorities cannot appear. *)
Theorem processor_accepts_valid_only (rawConstraints : value) (n : Constraint)
    (ws : list string) :
  processRawConstraints rawConstraints = Accepted n ws ->
  normalizeConstraints rawConstraints = Ok n
  /\ validConstraint n = true
  /\ ws = noPrioritiesWarning n.
Proof. apply processRawConstraints_accepted. Qed.

Lemma processor_accepts_valid_only_witness :
  normalizeConstraints requestWithUnknownPriority = Ok sampleConstraint
  /\ validConstraint sampleConstraint = true
  /\ [] = noPrioritiesWarning sampleConstraint.
Proof.
  apply (processor_accepts_valid_only requestWithUnknownPriority sampleConstraint []).
  reflexivity.
Defined.

Lemma lowerAll_strings (ps : list string) :
  lowerAll (map VString ps) = Ok (map VString (map toLowerCase ps)).
Proof.
  induction ps as [| p ps IH]; simpl; [reflexivity |]. now rewrite IH.
Qed.

Lemma filter_all {A} (f : A -> bool) (l : list A) :
  Forall (fun x => f x = true) l -> List.filter f l = l.
Proof.
  induction 1 as [| x l Hx _ IH]; simpl; [reflexivity |]. now rewrite Hx, IH.
Qed.

Lemma normalizeField_fixed (s fallback : string) (fields : obj value) (k : string) :
  obj_get fields k = Some (VString s) -> s <> "" -> toLowerCase s = s ->
  normalizeField (VObject fields) k fallback = Ok s.
Proof.
  intros G N L. unfold normalizeField. cbn [get get_opt]. rewrite G.
  cbn [bind optLowerCase]. rewrite L. unfold js_or. cbn [truthy].
  destruct (String.eqb_spec s "") as [E | _]; [congruence | reflexivity].
Qed.

(** Normalizing is idempotent: the record it returns, sent in again,
    comes back as it is. *)
Theorem normalizeConstraints_idempotent (rawConstraints : value) (n : Constraint) :
  normalizeConstraints rawConstraints = Ok n ->
  normalizeConstraints (VObject (constraintFields n)) = Ok n.
Proof.
  intros E.
  destruct (normalizeConstraints_result _ _ E) as [[Nb Lb] [[Nx Lx] [[Nw Lw] F]]].
  unfold normalizeConstraints.
  rewrite (normalizeField_fixed (budget n)) by (try reflexivity; assumption).
  rewrite (normalizeField_fixed (experience n)) by (try reflexivity; assumption).
  rewrite (normalizeField_fixed (workload n)) by (try reflexivity; assumption).
  cbn [bind get get_opt constraintFields obj_get String.eqb Ascii.eqb Bool.eqb].
  rewrite lowerAll_strings. cbn [bind].
  assert (L : map toLowerCase (priorities n) = priorities n).
  { clear E. induction F as [| p ps Hp _ IH]; simpl; [reflexivity |].
    now rewrite (validPriorities_lower p Hp), IH. }
  rewrite L, filterPriorities_strings, (filter_all _ _ F).
  now destruct n.
Qed.

Lemma normalizeConstraints_idempotent_witness :
  normalizeConstraints (VObject (constraintFields sampleConstraint)) = Ok sampleConstraint.
Proof.
  apply (normalizeConstraints_idempotent requestWithUnknownPriority sampleConstraint).
  reflexivity.
Defined.

Lemma optLowerCase_lowerable (v : value) :
  (exists v', optLowerCase v = Ok v') <-> lowerable v = true.
Proof.
  destruct v; simpl; split; intros H; try discriminate; try (destruct H; discriminate);
    try reflexivity; eexists; reflexivity.
Qed.

Lemma lowerAll_lowerable (ps : list value) :
  (exists l, lowerAll ps = Ok l) <-> forallb lowerable ps = true.
Proof.
  induction ps as [| p ps IH]; simpl.
  - split; [reflexivity | intros _; now eexists].
  - rewrite andb_true_iff, <- IH, <- optLowerCase_lowerable. split.
    + destruct (optLowerCase p) as [p' | m]; cbn [bind]; [| intros [l H]; discriminate].
      destruct (lowerAll ps) as [rest | m]; cbn [bind]; [| intros [l H]; discriminate].
      intros _. split; eexists; reflexivity.
    + intros [[p' ->] [l ->]]. cbn [bind]. eexists. reflexivity.
Qed.

Lemma normalizeField_ok (constraints : value) (k fallback : string) :
  (exists s, normalizeField constraints k fallback = Ok s)
  <-> (exists raw, get constraints k = Ok raw /\ lowerable raw = true).
Proof.
  unfold normalizeField.
  destruct (get constraints k) as [raw | m]; cbn [bind].
  - split.
    + intros [s H]. exists raw. split; [reflexivity |].
      destruct raw; try reflexivity; discriminate.
    + intros [raw' [[= <-] L]].
      destruct raw; try discriminate; cbn [optLowerCase bind]; eexists; reflexivity.
  - split; [intros [s H]; discriminate | intros [raw [H _]]; discriminate].
Qed.

Lemma normalizeConstraints_ok (rawConstraints : value) :
  (exists n, normalizeConstraints rawConstraints = Ok n)
  <-> normalizable rawConstraints = true.
Proof.
  assert (K : rawConstraints = VUndefined \/ rawConstraints = VNull
              \/ (forall k, get rawConstraints k = Ok (get_opt rawConstraints k))
                 /\ normalizable rawConstraints
                    = lowerable (get_opt rawConstraints "budget")
                      && lowerable (get_opt rawConstraints "experience")
                      && lowerable (get_opt rawConstraints "workload")
                      && match get_opt rawConstraints "priorities" with
                         | VArray items => forallb lowerable items
                         | _ => true
                         end).
  { destruct rawConstraints; auto. }
  destruct K as [-> | [-> | [K N]]].
  - split; [intros [n H]; discriminate | discriminate].
  - split; [intros [n H]; discriminate | discriminate].
  - rewrite N. clear N.
    assert (Fd : forall k fb,
               (exists s, normalizeField rawConstraints k fb = Ok s)
               <-> lowerable (get_opt rawConstraints k) = true).
    { intros k fb. rewrite normalizeField_ok, K. split.
      - now intros [raw [[= <-] H]].
      - intros H. eexists. split; [reflexivity | exact H]. }
    unfold normalizeConstraints. rewrite (K "priorities").
    rewrite !andb_true_iff, <- (Fd "budget" "medium"),
      <- (Fd "experience" "intermediate"), <- (Fd "workload" "startup").
    split.
    + destruct (normalizeField rawConstraints "budget" "medium") as [b | m];
        [| intros [n H]; discriminate].
      destruct (normalizeField rawConstraints "experience" "intermediate") as [x | m];
        [| intros [n H]; discriminate].
      destruct (normalizeField rawConstraints "workload" "startup") as [w | m];
        [| intros [n H]; discriminate].
      cbn [bind]. intros [n H].
      repeat split; try (eexists; reflexivity).
      destruct (get_opt rawConstraints "priorities"); try reflexivity.
      apply lowerAll_lowerable.
      destruct (lowerAll items) as [l | m]; [now exists l | discriminate].
    + intros [[[[b ->] [x ->]] [w ->]] P]. cbn [bind].
      destruct (get_opt rawConstraints "priorities"); cbn [bind];
        try (eexists; reflexivity).
      apply lowerAll_lowerable in P. destruct P as [l ->]. cbn [bind].
      eexists. reflexivity.
Qed.

(** Normalization throws exactly on a request that is [null] or
    [undefined], or whose budget, experience or workload, or an item of
    whose array of priorities, is a value other than [undefined], [null]
    and a string (a number, a boolean, an array or an object); priorities
    that are not an array are ignored. A request it throws on is rejected
    as a processing failure, with no warning. *)
Theorem normalizeConstraints_throws (rawConstraints : value) :
  (normalizable rawConstraints = true ->
   exists n, normalizeConstraints rawConstraints = Ok n)
  /\ (normalizable rawConstraints = false ->
      exists message,
        normalizeConstraints rawConstraints = Throw message
        /\ processRawConstraints rawConstraints
           = Rejected ["Constraint processing failed: " ++ message] []).
Proof.
  split.
  - apply normalizeConstraints_ok.
  - intros H. unfold processRawConstraints.
    destruct (normalizeConstraints rawConstraints) as [n | m] eqn:E.
    + assert (T : normalizable rawConstraints = true).
      { apply normalizeConstraints_ok. now exists n. }
      congruence.
    + now exists m.
Qed.

(** A request whose budget is a number. *)
Lemma normalizeConstraints_throws_witness :
  exists message,
    normalizeConstraints (VObject [("budget", VNumber 5)]) = Throw message
    /\ processRawConstraints (VObject [("budget", VNumber 5)])
       = Rejected ["Constraint processing failed: " ++ message] [].
Proof.
  apply (proj2 (normalizeConstraints_throws (VObject [("budget", VNumber 5)]))).
  reflexivity.
Defined.

(** ** From the processor to the engine *)

Lemma validConstraint_fields (c : Constraint) :
  validConstraint c = true ->
  includes validBudgets (budget c) = true
  /\ includes validExperience (experience c) = true
  /\ includes validWorkloads (workload c) = true.
Proof.
  unfold validConstraint. rewrite !andb_true_iff. tauto.
Qed.

Lemma includes_nonempty (l : list string) (s : string) :
  includes l s = true -> includes l "" = false -> s <> "".
Proof. intros H N ->. congruence. Qed.

(** The engine's validation of a valid constraint sent as the object the
    processor builds: the three fields are kept and the priorities are
    filtered to the engine's six. *)
Lemma validateAndNormalize_constraintFields (number_to_string : Q -> string)
    (c : Constraint) :
  validConstraint c = true ->
  validateAndNormalizeConstraints number_to_string (constraintFields c)
  = Ok (withPriorities c (List.filter (includes engineValidPriorities) (priorities c))).
Proof.
  intros V. destruct (validConstraint_fields c V) as [B [X W]].
  pose proof (includes_nonempty _ _ B eq_refl) as Nb.
  pose proof (includes_nonempty _ _ X eq_refl) as Nx.
  pose proof (includes_nonempty _ _ W eq_refl) as Nw.
  unfold validateAndNormalizeConstraints, constraintFields, field.
  cbn [obj_get String.eqb Ascii.eqb Bool.eqb]. unfold js_or. cbn [truthy].
  apply String.eqb_neq in Nb, Nx, Nw. rewrite Nb, Nx, Nw.
  cbn [negb includesValue asString]. rewrite B, X, W. cbn [negb].
  now rewrite filterPriorities_strings.
Qed.

(** What the processor accepts the engine never rejects; it keeps budget,
    experience and workload, and of the priorities only its own six: the
    six the processor alone knows (performance, reliability, innovation,
    support, integration, security) do not reach the weighting. *)
Theorem accepted_request_reaches_engine (number_to_string : Q -> string)
    (rawConstraints : value) (n : Constraint) (ws : list string) :
  processRawConstraints rawConstraints = Accepted n ws ->
  validateAndNormalizeConstraints number_to_string (constraintFields n)
  = Ok (withPriorities n (List.filter (includes engineValidPriorities) (priorities n))).
Proof.
  intros A. destruct (processRawConstraints_accepted _ _ _ A) as [_ [V _]].
  now apply validateAndNormalize_constraintFields.
Qed.

Lemma accepted_request_reaches_engine_witness :
  validateAndNormalizeConstraints printNothing
    (constraintFields
       {| budget := "high"; experience := "expert"; workload := "enterprise";
          priorities := ["security"; "devops"] |})
  = Ok {| budget := "high"; experience := "expert"; workload := "enterprise";
          priorities := ["devops"] |}.
Proof.
  apply (accepted_request_reaches_engine printNothing
           (VObject [("budget", VString "High"); ("experience", VString "EXPERT");
                     ("workload", VString "enterprise");
                     ("priorities", VArray [VString "Security"; VString "devops"])])
           {| budget := "high"; experience := "expert"; workload := "enterprise";
              priorities := ["security"; "devops"] |} []).
  reflexivity.
Defined.

(** ** The ranking of the providers *)

Lemma sort_insert_descending {A} (key : A -> Q) (x : A) (l : list A) :
  descending (map key l) ->
  descending (map key (sort_insert (fun a b => key b - key a) x l)).
Proof.
  induction l as [| y l IH]; intros D; cbn [sort_insert map].
  - split; [constructor | exact I].
  - destruct D as [Hy Dl].
    destruct (Qle_bool (key y - key x) 0) eqn:E.
    + apply Qle_bool_iff in E. cbn [map descending].
      repeat split; try assumption.
      constructor; [lra |].
      eapply Forall_impl; [| exact Hy]. intros z Hz. cbn in Hz. lra.
    + assert (Lt : key x <= key y).
      { destruct (Qlt_le_dec (key y) (key x)) as [H | H]; [| exact H].
        assert (C : Qle_bool (key y - key x) 0 = true) by (apply Qle_bool_iff; lra).
        congruence. }
      cbn [map descending]. split; [| now apply IH].
      apply Forall_forall. intros z Hz.
      apply in_map_iff in Hz. destruct Hz as [a [<- Ia]].
      apply (Permutation_in _ (sort_insert_perm _ x l)) in Ia.
      destruct Ia as [<- | Ia]; [exact Lt |].
      rewrite Forall_forall in Hy. apply Hy. now apply in_map.
Qed.

(** Sorting by the difference of a key, larger first, leaves no element
    before a larger one. *)
Lemma js_sort_descending {A} (key : A -> Q) (l : list A) :
  descending (map key (js_sort (fun a b => key b - key a) l)).
Proof.
  induction l as [| x l IH]; cbn [js_sort]; [exact I |].
  now apply sort_insert_descending.
Qed.

Lemma Math_round_le (x y : Q) : x <= y -> (Math_round x <= Math_round y)%Z.
Proof.
  intros H. unfold Math_round. apply Qfloor_resp_le. lra.
Qed.

Lemma round1_le (x y : Q) : x <= y -> round1 x <= round1 y.
Proof.
  intros H. unfold round1.
  assert (M : (Math_round (x * 10) <= Math_round (y * 10))%Z)
    by (apply Math_round_le; lra).
  apply Qle_shift_div_l; [reflexivity |].
  setoid_replace (inject_Z (Math_round (x * 10)) / 10 * 10)
    with (inject_Z (Math_round (x * 10))) by field.
  rewrite <- Zle_Qle. exact M.
Qed.

Lemma descending_map_round1 (l : list Q) :
  descending l -> descending (map round1 l).
Proof.
  induction l as [| x l IH]; cbn [map descending]; [trivial |].
  intros [H D]. split; [| now apply IH].
  apply Forall_forall. intros z Hz. apply in_map_iff in Hz.
  destruct Hz as [y [<- Iy]]. apply round1_le.
  rewrite Forall_forall in H. now apply H.
Qed.

Lemma descending_head (x : Q) (l : list Q) (y : Q) :
  descending (x :: l) -> In y (x :: l) -> y <= x.
Proof.
  intros [H _] [<- | I]; [apply Qle_refl |].
  rewrite Forall_forall in H. now apply H.
Qed.

(** The parts of the comparison output that come from the sorted
    evaluations. *)
Lemma generateComparisonOutput_sorted (evaluations : obj Evaluation) (c : Constraint)
    (out : comparisonOutput) :
  generateComparisonOutput evaluations c = Ok out ->
  exists top rest,
    js_sort (fun a b => totalScore (snd b) - totalScore (snd a)) evaluations = top :: rest
    /\ providers out
       = fold_left (fun acc e => obj_set acc (fst e) (formatProvider (snd e) c))
           (top :: rest) []
    /\ allProviders (co_constraintSummary out)
       = map (fun e => (fst e, round1 (totalScore (snd e)))) (top :: rest)
    /\ topMatch (co_constraintSummary out) = fst top.
Proof.
  intros E. unfold generateComparisonOutput in E.
  destruct (generateCrossProviderAnalysis evaluations c); [| discriminate].
  destruct (generateDecisionGuidance evaluations c); [| discriminate].
  cbn [bind] in E. unfold generateConstraintBasedSummary in E.
  destruct (js_sort _ evaluations) as [| top rest]; [discriminate |].
  cbn [bind] in E. exists top, rest.
  injection E as <-. repeat split.
Qed.

(** The summary ranks the providers: every provider is listed once, no
    listed score is followed by a larger one, the top match has the largest
    total score of all, and the provider sections come in the same order. *)
Theorem summary_ranks_providers (evaluations : obj Evaluation) (c : Constraint)
    (out : comparisonOutput) :
  NoDup (keys evaluations) ->
  generateComparisonOutput evaluations c = Ok out ->
  Permutation (map fst (allProviders (co_constraintSummary out))) (keys evaluations)
  /\ descending (map snd (allProviders (co_constraintSummary out)))
  /\ (exists top,
        In (topMatch (co_constraintSummary out), top) evaluations
        /\ forall id ev, In (id, ev) evaluations -> totalScore ev <= totalScore top)
  /\ keys (providers out) = map fst (allProviders (co_constraintSummary out)).
Proof.
  intros N E.
  destruct (generateComparisonOutput_sorted _ _ _ E) as [top [rest [S [Ep [Ea Et]]]]].
  pose proof (js_sort_perm
                (fun a b : string * Evaluation => totalScore (snd b) - totalScore (snd a))
                evaluations) as P.
  pose proof (js_sort_descending (fun e : string * Evaluation => totalScore (snd e))
                evaluations) as D.
  cbv beta in D. rewrite S in P, D.
  rewrite Ep, Ea, Et. rewrite !map_map. cbn [fst snd].
  split; [| split; [| split]].
  - change (map (fun x : string * Evaluation => fst x) (top :: rest))
      with (keys (top :: rest)).
    now apply Permutation_map.
  - rewrite <- (map_map (fun e : string * Evaluation => totalScore (snd e)) round1).
    now apply descending_map_round1.
  - exists (snd top). split.
    + eapply Permutation_in; [exact P |]. left. now destruct top.
    + intros id ev I.
      apply (Permutation_in _ (Permutation_sym P)) in I.
      apply (descending_head _ _ (totalScore ev) D).
      exact (in_map (fun e : string * Evaluation => totalScore (snd e))
               (top :: rest) (id, ev) I).
  - assert (Ns : NoDup (keys (top :: rest))).
    { eapply Permutation_NoDup; [apply Permutation_sym, Permutation_map, P | exact N]. }
    rewrite (fold_obj_set_map (fun e => formatProvider (snd e) c) (top :: rest) [] Ns)
      by (intros k _ []).
    cbn [app]. now rewrite keys_map_snd.
Qed.

Lemma summary_ranks_providers_witness :
  Permutation (map fst (allProviders (co_constraintSummary sampleOutput)))
    (keys sampleEvaluations)
  /\ descending (map snd (allProviders (co_constraintSummary sampleOutput)))
  /\ (exists top,
        In (topMatch (co_constraintSummary sampleOutput), top) sampleEvaluations
        /\ forall id ev, In (id, ev) sampleEvaluations -> totalScore ev <= totalScore top)
  /\ keys (providers sampleOutput)
     = map fst (allProviders (co_constraintSummary sampleOutput)).
Proof.
  apply (summary_ranks_providers sampleEvaluations sampleConstraint sampleOutput).
  - apply distinct_NoDup. reflexivity.
  - reflexivity.
Defined.

(** ** Scores from the dataset to the output *)

Lemma Forall_values_fold_set {A B} (P : B -> Prop) (f : A -> B) (l : obj A) (acc : obj B) :
  Forall P (values acc) -> Forall (fun e => P (f (snd e))) l ->
  Forall P (values (fold_left (fun o e => obj_set o (fst e) (f (snd e))) l acc)).
Proof.
  revert acc. induction l as [| e l IH]; intros acc Ha Hl; cbn [fold_left]; [exact Ha |].
  inversion Hl as [| ? ? He Hl']; subst.
  apply IH; [| exact Hl']. now apply Forall_values_obj_set.
Qed.

(** *** The match score in binary64 *)

(** [Math.round(x * 10) / 10] of a total within [slack] of [[1,10]] is in
    [[1,10]]. *)
Lemma round1_64_bounds (t : Q) :
  1 - slack <= t -> t <= 10 + slack ->
  1 <= Binary64.round1 t /\ Binary64.round1 t <= 10.
Proof.
  intros L U. unfold Binary64.round1, fmul, fdiv, Math_round.
  assert (N : 0 <= t * 10) by (unfold slack in *; lra).
  destruct (round64_near (t * 10) N) as [A B].
  set (x := round64 (t * 10)) in *.
  assert (X1 : 10 <= x + (1 # 2)) by (unfold roundoff, tiny, slack in *; lra).
  assert (X2 : x + (1 # 2) <= 1009 # 10) by (unfold roundoff, tiny, slack in *; lra).
  apply Qfloor_resp_le in X1, X2.
  change (Qfloor 10) with 10%Z in X1. change (Qfloor (1009 # 10)) with 100%Z in X2.
  set (n := Qfloor (x + (1 # 2))) in *.
  assert (Q1 : 10 <= inject_Z n) by (change 10 with (inject_Z 10); now rewrite <- Zle_Qle).
  assert (Q2 : inject_Z n <= 100) by (change 100 with (inject_Z 100); now rewrite <- Zle_Qle).
  assert (D1 : 1 <= inject_Z n / 10) by (apply Qle_shift_div_l; lra).
  assert (D2 : inject_Z n / 10 <= 10) by (apply Qle_shift_div_r; lra).
  split.
  - eapply Qle_trans; [| apply (round64_mono 1); [lra | exact D1]].
    rewrite round64_one. lra.
  - eapply Qle_trans; [apply (round64_mono _ 10); [lra | exact D2] |].
    rewrite round64_ten. lra.
Qed.

(** Over records with their eight blocks and scores in [[1,10]], for a
    valid constraint, the match score of every record, which is
    [Math.round(totalScore * 10) / 10] in the output and in its summary,
    lies in [[1,10]] in the arithmetic of the program. *)
Theorem matchScores_in_range (dataset : obj providerData) (c : Constraint) :
  Forall (fun e => dimensionsComplete (snd e) = true
                   /\ scoresInRange (snd e) = true
                   /\ blocksBounded (snd e) = true) dataset ->
  validConstraint c = true ->
  exists w,
    Binary64.calculateWeightings constraintRules c = Ok w
    /\ Forall (fun e =>
                 1 <= Binary64.round1
                        (totalScore (Binary64.evaluateProvider constraintRules (snd e) c w))
                   <= 10)
         dataset.
Proof.
  intros F V. destruct (composed64_inRange c V) as [b [_ E]].
  exists (Binary64.normalizeWeightings b). split; [exact E |].
  eapply Forall_impl; [| exact F]. intros e [C [R B]].
  destruct (totalScore64_bounds (snd e) c C R B V) as [w [E' [L [U _]]]].
  rewrite E in E'. injection E' as <-.
  cbn [totalScore Binary64.evaluateProvider].
  now apply round1_64_bounds.
Qed.

Lemma matchScores_in_range_witness :
  exists w,
    Binary64.calculateWeightings constraintRules sampleConstraint = Ok w
    /\ Forall (fun e =>
                 1 <= Binary64.round1
                        (totalScore
                           (Binary64.evaluateProvider constraintRules (snd e)
                              sampleConstraint w))
                   <= 10)
         sampleDataset.
Proof.
  apply (matchScores_in_range sampleDataset sampleConstraint).
  - repeat constructor.
  - reflexivity.
Defined.

(** ** The narrative: how many entries, and which scores they quote *)

Lemma strengthText_number (d : string) (s : Q) (c : Constraint) (t : text) :
  getDimensionStrengthText d s c = Some t -> numbersOf t = [s].
Proof.
  unfold getDimensionStrengthText. cbn [obj_get].
  repeat (destruct (String.eqb _ d); [intros [= <-]; reflexivity |]).
  discriminate.
Qed.

Lemma weaknessText_number (d : string) (s : Q) (c : Constraint) (t : text) :
  getDimensionWeaknessText d s c = Some t -> numbersOf t = [s].
Proof.
  unfold getDimensionWeaknessText. cbn [obj_get].
  repeat (destruct (String.eqb _ d); [intros [= <-]; reflexivity |]).
  discriminate.
Qed.

Lemma collectTexts_numbers (f : string -> Q -> option text) (l : obj Q) (t : text) :
  (forall d s t', f d s = Some t' -> numbersOf t' = [s]) ->
  In t (collectTexts f l) -> exists d s, In (d, s) l /\ numbersOf t = [s].
Proof.
  intros Hf. induction l as [| [d s] l IH]; cbn [collectTexts]; [intros [] |].
  destruct (f d s) as [t' |] eqn:E.
  - intros [<- | I].
    + exists d, s. split; [now left | exact (Hf _ _ _ E)].
    + destruct (IH I) as [d' [s' [I' N]]]. exists d', s'. split; [now right | exact N].
  - intros I. destruct (IH I) as [d' [s' [I' N]]]. exists d', s'.
    split; [now right | exact N].
Qed.

Lemma In_firstn {A} (n : nat) (l : list A) (x : A) : In x (firstn n l) -> In x l.
Proof.
  revert l. induction n as [| n IH]; intros [| y l]; simpl; try tauto.
  intros [-> | I]; [now left | right; now apply IH].
Qed.

Lemma numbersOf_plain (s : string) : numbersOf (plain s) = [].
Proof. reflexivity. Qed.

(** A provider section has at most five strengths, four weaknesses and four
    use cases; a score quoted in a strength is a dimension score of the
    provider that is at least 7, and one quoted in a weakness is at most
    5. *)
Theorem narrative_lengths_and_thresholds (ev : Evaluation) (c : Constraint) :
  (List.length (getConstraintSpecificStrengths ev c) <= 5)%nat
  /\ (List.length (getConstraintSpecificWeaknesses ev c) <= 4)%nat
  /\ (List.length (getConstraintSpecificUseCases ev c) <= 4)%nat
  /\ (forall t q,
        In t (getConstraintSpecificStrengths ev c) -> In q (numbersOf t) ->
        7 <= q /\ exists d, In (d, q) (dimensionScores ev))
  /\ (forall t q,
        In t (getConstraintSpecificWeaknesses ev c) -> In q (numbersOf t) ->
        q <= 5 /\ exists d, In (d, q) (dimensionScores ev)).
Proof.
  split; [| split; [| split; [| split]]].
  - unfold getConstraintSpecificStrengths, slice0. apply firstn_le_length.
  - unfold getConstraintSpecificWeaknesses, slice0. apply firstn_le_length.
  - unfold getConstraintSpecificUseCases, slice0. apply firstn_le_length.
  - intros t q It Iq. unfold getConstraintSpecificStrengths, slice0 in It.
    apply In_firstn, in_app_or in It. destruct It as [It | It].
    + apply (collectTexts_numbers _ _ _
               (fun d s t' => strengthText_number d s c t')) in It.
      destruct It as [d [s [I N]]]. rewrite N in Iq. destruct Iq as [<- | []].
      apply In_firstn in I. apply (Permutation_in _ (js_sort_perm _ _)) in I.
      apply filter_In in I. destruct I as [I G]. cbn [snd] in G.
      split; [now apply Qle_bool_iff | now exists d].
    + apply in_map_iff in It. destruct It as [s [<- _]]. destruct Iq.
  - intros t q It Iq. unfold getConstraintSpecificWeaknesses, slice0 in It.
    apply In_firstn, in_app_or in It. destruct It as [It | It].
    + apply (collectTexts_numbers _ _ _
               (fun d s t' => weaknessText_number d s c t')) in It.
      destruct It as [d [s [I N]]]. rewrite N in Iq. destruct Iq as [<- | []].
      apply In_firstn in I. apply (Permutation_in _ (js_sort_perm _ _)) in I.
      apply filter_In in I. destruct I as [I G]. cbn [snd] in G.
      split; [now apply Qle_bool_iff | now exists d].
    + apply in_map_iff in It. destruct It as [s [<- _]]. destruct Iq.
Qed.

(** ** The hard filters on a record of the schema *)

(** A filter path is looked up from the top of the record, where the
    dimension blocks are not: on a record with the properties of the schema
    only, a path that starts at a dimension finds nothing. *)
Lemma applyFilter_schema_record (p : providerData) (f : ruleFilter) :
  extra p = [] ->
  includes ["cost"; "easeOfUse"; "scalability"; "ecosystem"; "devops"; "aiml";
            "enterprise"; "vendorLockIn"]
    (hd "" (split_dot (path f))) = true ->
  applyFilter p f = false.
Proof.
  intros X H. unfold applyFilter, getNestedValue.
  destruct (split_dot (path f)) as [| seg rest] eqn:S; [discriminate |].
  cbn [hd] in H. cbn [fold_left].
  assert (G : get_opt (providerValue p) seg = VUndefined).
  { unfold providerValue. rewrite X. cbn [app get_opt].
    apply includes_In in H. simpl in H.
    repeat (destruct H as [<- | H]; [reflexivity |]). contradiction. }
  rewrite G.
  assert (U : fold_left get_opt rest VUndefined = VUndefined).
  { clear. induction rest as [| k rest IH]; [reflexivity | exact IH]. }
  now rewrite U.
Qed.

(** For every valid constraint, a record that has the properties of the
    schema and no other fails the hard filters: the workload rule always
    brings a filter, and its path finds nothing. *)
Theorem schema_record_fails_filters (p : providerData) (c : Constraint) :
  extra p = [] ->
  validConstraint c = true ->
  checkConstraintFilters constraintRules p c = false.
Proof.
  intros X V. destruct (validConstraint_fields c V) as [_ [_ W]].
  unfold checkConstraintFilters. rewrite !forallb_app.
  assert (F : forallb (applyFilter p)
                (getFiltersForConstraint constraintRules "workload" (workload c))
              = false).
  { apply includes_In in W. simpl in W.
    destruct W as [<- | [<- | [<- | []]]]; cbn [getFiltersForConstraint ruleGroup];
      cbv [getFiltersForConstraint ruleGroup constraintRules rules_workload obj_get
           String.eqb Ascii.eqb Bool.eqb filters map fst snd];
      cbn [forallb];
      rewrite applyFilter_schema_record by (try exact X; reflexivity);
      reflexivity. }
  rewrite F. now rewrite !andb_false_r.
Qed.

Lemma schema_record_fails_filters_witness :
  checkConstraintFilters constraintRules sampleAzure sampleConstraint = false.
Proof.
  apply (schema_record_fails_filters sampleAzure sampleConstraint); reflexivity.
Defined.

(** ** The total score as a weighted sum *)





(** ** What the formatter keeps of the raw result *)

Lemma formatEntries_keys (number_to_string : Q -> string)
    (entries formatted result : obj value) :
  NoDup (keys entries) ->
  (forall k, In k (keys entries) -> ~ In k (keys formatted)) ->
  formatEntries number_to_string formatted entries = Ok result ->
  keys result = (keys formatted ++ keys entries)%list.
Proof.
  revert formatted.
  induction entries as [| [k v] entries IH]; intros formatted N D; cbn [formatEntries].
  - intros [= <-]. cbn. now rewrite app_nil_r.
  - inversion N as [| ? ? Hk N']; subst.
    destruct (formatProviderValue number_to_string v) as [section | m]; [| discriminate].
    cbn [bind]. intros E. apply IH in E.
    + rewrite E, obj_set_fresh by (apply D; now left).
      unfold keys. rewrite map_app, <- app_assoc. reflexivity.
    + exact N'.
    + intros k' I. rewrite obj_set_fresh by (apply D; now left).
      unfold keys. rewrite map_app, in_app_iff. cbn [map fst In].
      intros [J | [<- | []]]; [apply (D k'); [now right | exact J] | contradiction].
Qed.

(** The formatter keeps the providers of the raw result, by name and in
    their order, each cut down to its four sections (a match score does not
    pass), and on what it assembles the structural check reports the
    missing ones of aws, azure and gcp and nothing else. *)
Theorem formatter_keeps_providers (number_to_string : Q -> string)
    (rawResults constraints : value) (now : string) (formatted : value)
    (rawProviders : obj value) :
  assemble number_to_string rawResults constraints now = Ok formatted ->
  get rawResults "providers" = Ok (VObject rawProviders) ->
  NoDup (keys rawProviders) ->
  exists entries,
    get formatted "providers" = Ok (VObject entries)
    /\ keys entries = keys rawProviders
    /\ Forall isProviderSection (values entries)
    /\ validateOutputStructure formatted = Ok (missingProviders (keys rawProviders)).
Proof.
  intros A G N.
  destruct (validateOutputStructure_assembled _ _ _ _ _ A) as [entries [Gp V]].
  exists entries. unfold assemble in A. rewrite G in A.
  destruct (formatConstraints constraints) as [c | m]; [| discriminate].
  cbn [bind] in A. unfold formatProviders, js_or in A.
  cbn [truthy Object_entries bind] in A.
  destruct (formatEntries number_to_string [] rawProviders) as [entries' | m] eqn:E;
    [| discriminate].
  cbn [bind] in A.
  destruct (get rawResults "crossProviderAnalysis") as [ra | m]; [| discriminate].
  destruct (get rawResults "decisionGuidance") as [rg | m]; [| discriminate].
  cbn [bind] in A. injection A as <-.
  cbn in Gp. injection Gp as <-.
  assert (K : keys entries' = keys rawProviders).
  { apply (formatEntries_keys number_to_string rawProviders [] entries' N) in E;
      [exact E | intros k _ []]. }
  repeat split.
  - exact K.
  - apply (formatEntries_sections number_to_string rawProviders [] entries');
      [constructor | exact E].
  - now rewrite <- K.
Qed.

Lemma formatter_keeps_providers_witness :
  exists entries,
    get (VObject [("timestamp", VString "t0");
                  ("constraints", sampleConstraintValue);
                  ("providers",
                     VObject [("aws", VObject [("strengths", VArray []);
                                               ("weaknesses", VArray []);
                                               ("idealUseCases", VArray []);
                                               ("tradeOffs", noTradeOffs)])]);
                  ("crossProviderAnalysis", formatCrossProviderAnalysis (VObject []));
                  ("decisionGuidance", formatDecisionGuidance (VObject []))])
        "providers" = Ok (VObject entries)
    /\ keys entries = ["aws"]
    /\ Forall isProviderSection (values entries)
    /\ validateOutputStructure
         (VObject [("timestamp", VString "t0");
                   ("constraints", sampleConstraintValue);
                   ("providers",
                      VObject [("aws", VObject [("strengths", VArray []);
                                                ("weaknesses", VArray []);
                                                ("idealUseCases", VArray []);
                                                ("tradeOffs", noTradeOffs)])]);
                   ("crossProviderAnalysis", formatCrossProviderAnalysis (VObject []));
                   ("decisionGuidance", formatDecisionGuidance (VObject []))])
       = Ok (missingProviders ["aws"]).
Proof.
  apply (formatter_keeps_providers printNothing
           (VObject [("providers", VObject [("aws", VObject [("matchScore", VNumber 7)])])])
           sampleConstraintValue "t0" _ [("aws", VObject [("matchScore", VNumber 7)])]).
  - reflexivity.
  - reflexivity.
  - apply distinct_NoDup. reflexivity.
Defined.

(** ** The reach of the keyword scan *)

Lemma startsWith_app (s t sub : list ascii) :
  startsWith s sub = true -> startsWith (s ++ t) sub = true.
Proof.
  revert s. induction sub as [| p sub IH]; intros s.
  - now destruct s, t.
  - destruct s as [| c s]; [discriminate |]. cbn [app startsWith].
    rewrite !andb_true_iff. intros [E H]. split; [exact E | now apply IH].
Qed.

Lemma includesChars_app_r (s t sub : list ascii) :
  includesChars s sub = true -> includesChars (s ++ t) sub = true.
Proof.
  induction s as [| c s IH]; cbn [includesChars app].
  - rewrite orb_false_r. intros H.
    destruct sub; [now destruct t | discriminate].
  - fold (app s t). rewrite !orb_true_iff. intros [H | H].
    + left. exact (startsWith_app (c :: s) t sub H).
    + right. now apply IH.
Qed.

Lemma includesChars_app_l (s t sub : list ascii) :
  includesChars s sub = true -> includesChars (t ++ s) sub = true.
Proof.
  intros H. induction t as [| c t IH]; [exact H |].
  cbn [app includesChars]. rewrite IH. apply orb_true_r.
Qed.

Lemma list_ascii_app (a b : string) :
  list_ascii_of_string (a ++ b) = (list_ascii_of_string a ++ list_ascii_of_string b)%list.
Proof.
  induction a as [| c a IH]; simpl; [reflexivity | now rewrite IH].
Qed.

Lemma toLowerCase_app (a b : string) :
  toLowerCase (a ++ b) = (toLowerCase a ++ toLowerCase b)%string.
Proof.
  unfold toLowerCase. induction a as [| c a IH]; simpl; [reflexivity | now rewrite IH].
Qed.

Lemma includesString_within (pre s post sub : string) :
  includesString s sub = true -> includesString (pre ++ s ++ post) sub = true.
Proof.
  unfold includesString. rewrite !list_ascii_app. intros H.
  apply includesChars_app_l. now apply includesChars_app_r.
Qed.

Lemma string_append_empty (s : string) : (s ++ "")%string = s.
Proof. induction s as [| c s IH]; simpl; [reflexivity | now rewrite IH]. Qed.

Lemma string_append_assoc (a b c : string) :
  ((a ++ b) ++ c)%string = (a ++ b ++ c)%string.
Proof. induction a as [| x a IH]; simpl; [reflexivity | now rewrite IH]. Qed.

Lemma join_contains (sep : string) (l : list string) (s : string) :
  In s l -> exists pre post, join sep l = (pre ++ s ++ post)%string.
Proof.
  induction l as [| x l IH]; [intros [] |].
  intros [-> | I].
  - destruct l as [| y l].
    + exists "", "". cbn. now rewrite string_append_empty.
    + exists "", (sep ++ join sep (y :: l))%string. reflexivity.
  - destruct (IH I) as [pre [post E]].
    destruct l as [| y l]; [destruct I |].
    exists (x ++ sep ++ pre)%string, post.
    cbn [join]. cbn [join] in E. rewrite E.
    now rewrite !string_append_assoc.
Qed.

Lemma keywordIssues_found (label textContent : string) (kws : list string) (kw : string) :
  In kw kws ->
  includesString (toLowerCase textContent) (toLowerCase kw) = true ->
  keywordIssues label textContent kws <> [].
Proof.
  intros I H. unfold keywordIssues.
  induction kws as [| k kws IH]; [destruct I |].
  cbn [flat_map]. destruct I as [-> | I].
  - rewrite H. discriminate.
  - intros E. apply app_eq_nil in E. destruct E as [_ E]. now apply IH.
Qed.

Lemma keywords_lower (kw : string) :
  In kw (biasKeywords ++ promotionalKeywords) -> toLowerCase kw = kw.
Proof.
  intros H. simpl in H.
  repeat (destruct H as [<- | H]; [reflexivity |]). contradiction.
Qed.

(** A bias or promotional keyword inside any string of the assembled
    object, in any mix of cases, makes the formatting fail: the strings of
    the constraints and the timestamp are scanned with the rest. *)
Theorem keyword_anywhere_fails_formatting (number_to_string : Q -> string)
    (rawResults constraints : value) (now later : string) (formatted : value)
    (s kw : string) :
  assemble number_to_string rawResults constraints now = Ok formatted ->
  In s (extractFromValue formatted) ->
  In kw (biasKeywords ++ promotionalKeywords) ->
  includesString (toLowerCase s) kw = true ->
  exists message,
    formatComparisonResults number_to_string rawResults constraints now later
    = FormatFailure "OUTPUT_FORMATTING_ERROR" message later.
Proof.
  intros A Is Ik H.
  assert (B : issues (detectBias formatted) <> []).
  { destruct (join_contains " " _ _ Is) as [pre [post E]].
    assert (T : includesString (toLowerCase (extractTextContent formatted))
                  (toLowerCase kw) = true).
    { unfold extractTextContent. rewrite E, !toLowerCase_app, (keywords_lower kw Ik).
      now apply includesString_within. }
    unfold detectBias. cbn [issues]. intros Z.
    apply app_eq_nil in Z. destruct Z as [Z1 Z].
    apply app_eq_nil in Z. destruct Z as [Z2 _].
    apply in_app_or in Ik. destruct Ik as [Ik | Ik].
    - exact (keywordIssues_found _ _ _ _ Ik T Z1).
    - exact (keywordIssues_found _ _ _ _ Ik T Z2). }
  destruct (validateOutputStructure_assembled _ _ _ _ _ A) as [entries [_ V]].
  unfold formatComparisonResults, formatBody. rewrite A. cbn [bind]. rewrite V.
  cbn [bind]. rewrite isNeutral_issues.
  destruct (missingProviders (keys entries)); [| eexists; reflexivity].
  destruct (issues (detectBias formatted)); [congruence |].
  cbn [negb]. eexists. reflexivity.
Qed.

Lemma keyword_anywhere_fails_formatting_witness :
  exists message,
    formatComparisonResults printNothing
      (sampleRaw "A PREMIUM platform") sampleConstraintValue "t0" "t1"
    = FormatFailure "OUTPUT_FORMATTING_ERROR" message "t1".
Proof.
  apply (keyword_anywhere_fails_formatting printNothing
           (sampleRaw "A PREMIUM platform") sampleConstraintValue "t0" "t1" _
           "A PREMIUM platform" "premium" eq_refl).
  - vm_compute. tauto.
  - vm_compute. tauto.
  - vm_compute. reflexivity.
Defined.

(** ** Change detection between two requests *)

Lemma newSet_fold (xs acc : list string) :
  NoDup acc ->
  NoDup (fold_left (fun s x => if includes s x then s else (s ++ [x])%list) xs acc)
  /\ forall x,
       In x (fold_left (fun s x => if includes s x then s else (s ++ [x])%list) xs acc)
       <-> In x acc \/ In x xs.
Proof.
  revert acc. induction xs as [| y xs IH]; intros acc N; cbn [fold_left].
  - split; [exact N | intros x; cbn; tauto].
  - destruct (includes acc y) eqn:E.
    + destruct (IH acc N) as [N' I]. split; [exact N' |].
      intros x. rewrite I. cbn [In]. apply includes_In in E.
      split; [tauto | intros [H | [<- | H]]; tauto].
    + assert (Ny : ~ In y acc).
      { intros H. apply includes_In in H. congruence. }
      assert (N2 : NoDup (acc ++ [y])).
      { apply NoDup_app; [exact N | repeat constructor; intros [] |].
        intros x Hx [<- | []]. contradiction. }
      destruct (IH _ N2) as [N' I]. split; [exact N' |].
      intros x. rewrite I, in_app_iff. cbn [In]. tauto.
Qed.

Lemma newSet_NoDup (xs : list string) : NoDup (newSet xs).
Proof. apply (newSet_fold xs []). constructor. Qed.

Lemma newSet_In (xs : list string) (x : string) : In x (newSet xs) <-> In x xs.
Proof.
  unfold newSet. rewrite (proj2 (newSet_fold xs [] (NoDup_nil _))). cbn. tauto.
Qed.

(** Two requests differ insignificantly exactly when both are present, agree
    on budget, experience and workload, and name the same priorities: the
    order of the priorities and their repetitions do not count. *)
Theorem hasSignificantChange_false_iff (a b : option Constraint) :
  hasSignificantChange a b = false
  <-> exists o n,
        a = Some o /\ b = Some n
        /\ budget o = budget n
        /\ experience o = experience n
        /\ workload o = workload n
        /\ forall p, In p (priorities o) <-> In p (priorities n).
Proof.
  split.
  - destruct a as [o |], b as [n |]; cbn [hasSignificantChange]; try discriminate.
    destruct (String.eqb (budget o) (budget n)) eqn:Eb; [| discriminate].
    destruct (String.eqb (experience o) (experience n)) eqn:Ee; [| discriminate].
    destruct (String.eqb (workload o) (workload n)) eqn:Ew; [| discriminate].
    cbn [negb orb].
    destruct (Nat.eqb (List.length (newSet (priorities o)))
                (List.length (newSet (priorities n)))) eqn:El; [| discriminate].
    cbn [negb]. intros X.
    apply String.eqb_eq in Eb, Ee, Ew. apply Nat.eqb_eq in El.
    exists o, n. repeat split; try assumption.
    + intros I. apply newSet_In. apply newSet_In in I.
      destruct (includes (newSet (priorities n)) p) eqn:E; [now apply includes_In |].
      assert (Y : existsb (fun priority => negb (includes (newSet (priorities n)) priority))
                    (newSet (priorities o)) = true).
      { apply existsb_exists. exists p. split; [exact I | now rewrite E]. }
      congruence.
    + intros I. apply newSet_In. apply newSet_In in I.
      assert (Inc : incl (newSet (priorities o)) (newSet (priorities n))).
      { intros q Iq.
        destruct (includes (newSet (priorities n)) q) eqn:E; [now apply includes_In |].
        assert (Y : existsb (fun priority =>
                               negb (includes (newSet (priorities n)) priority))
                      (newSet (priorities o)) = true).
        { apply existsb_exists. exists q. split; [exact Iq | now rewrite E]. }
        congruence. }
      assert (Inc' : incl (newSet (priorities n)) (newSet (priorities o))).
      { apply NoDup_length_incl; [apply newSet_NoDup | lia | exact Inc]. }
      now apply Inc'.
  - intros [o [n [-> [-> [Eb [Ee [Ew S]]]]]]]. cbn [hasSignificantChange].
    rewrite Eb, Ee, Ew, !String.eqb_refl. cbn [negb orb].
    assert (Inc1 : incl (newSet (priorities o)) (newSet (priorities n))).
    { intros q Iq. apply newSet_In. apply S. now apply newSet_In. }
    assert (Inc2 : incl (newSet (priorities n)) (newSet (priorities o))).
    { intros q Iq. apply newSet_In. apply S. now apply newSet_In. }
    assert (L : List.length (newSet (priorities o)) = List.length (newSet (priorities n))).
    { apply Nat.le_antisymm; apply NoDup_incl_length;
        [apply newSet_NoDup | exact Inc1 | apply newSet_NoDup | exact Inc2]. }
    rewrite L, Nat.eqb_refl. cbn [negb].
    destruct (existsb _ _) eqn:X; [| reflexivity].
    apply existsb_exists in X. destruct X as [q [Iq Hq]].
    apply Inc1, includes_In in Iq. now rewrite Iq in Hq.
Qed.

(** ** The sanitizer of request bodies *)

Lemma Subsequence_refl {A} (l : list A) : Subsequence l l.
Proof. induction l; constructor; assumption. Qed.

Lemma Subsequence_trans {A} (a b c : list A) :
  Subsequence a b -> Subsequence b c -> Subsequence a c.
Proof.
  intros H1 H2. revert a H1.
  induction H2 as [| x b c H2 IH | x b c H2 IH]; intros a H1.
  - exact H1.
  - inversion H1; subst; [apply sub_keep | apply sub_drop]; now apply IH.
  - apply sub_drop. now apply IH.
Qed.

Lemma Subsequence_In {A} (a b : list A) (x : A) :
  Subsequence a b -> In x a -> In x b.
Proof.
  induction 1 as [| y a b H IH | y a b H IH]; cbn [In]; [tauto | | ]; intuition.
Qed.

Lemma Subsequence_length {A} (a b : list A) :
  Subsequence a b -> (List.length a <= List.length b)%nat.
Proof. induction 1; cbn [List.length]; lia. Qed.

Lemma Subsequence_filter {A} (f : A -> bool) (l : list A) :
  Subsequence (List.filter f l) l.
Proof.
  induction l as [| x l IH]; cbn [List.filter]; [constructor |].
  destruct (f x); now constructor.
Qed.

Lemma Subsequence_app_l {A} (a b : list A) : Subsequence b (a ++ b).
Proof. induction a; cbn [app]; [apply Subsequence_refl | now constructor]. Qed.

Lemma Subsequence_app_r {A} (a b : list A) : Subsequence a (a ++ b).
Proof.
  induction a as [| x a IH]; cbn [app].
  - induction b; now constructor.
  - now constructor.
Qed.

Lemma Subsequence_rev {A} (a b : list A) :
  Subsequence a b -> Subsequence (rev a) (rev b).
Proof.
  induction 1 as [| x a b H IH | x a b H IH]; cbn [rev].
  - constructor.
  - clear H. revert IH. generalize (rev a), (rev b). intros u v H.
    induction H; cbn [app]; now repeat constructor.
  - apply (Subsequence_trans _ (rev b)); [exact IH | apply Subsequence_app_r].
Qed.

Lemma Subsequence_removeMatches (matchAt : list ascii -> option nat) (s : list ascii) :
  forall skip, Subsequence (removeMatches matchAt skip s) s.
Proof.
  induction s as [| c s IH]; intros skip; cbn [removeMatches]; [constructor |].
  destruct skip as [| k]; [| apply sub_drop, IH].
  destruct (matchAt (c :: s)) as [[| k] |];
    [apply sub_keep, IH | apply sub_drop, IH | apply sub_keep, IH].
Qed.

Lemma Subsequence_trimStart (s : list ascii) : Subsequence (trimStart s) s.
Proof.
  induction s as [| c s IH]; cbn [trimStart]; [constructor |].
  destruct (isWhiteSpace c); [now apply sub_drop | apply Subsequence_refl].
Qed.

Lemma Subsequence_trim (s : list ascii) : Subsequence (trim s) s.
Proof.
  unfold trim.
  apply (Subsequence_trans _ (trimStart s)); [| apply Subsequence_trimStart].
  rewrite <- (rev_involutive (trimStart s)) at 2.
  apply Subsequence_rev, Subsequence_trimStart.
Qed.

Lemma Subsequence_firstn {A} (n : nat) (l : list A) : Subsequence (firstn n l) l.
Proof.
  rewrite <- (firstn_skipn n l) at 2. apply Subsequence_app_r.
Qed.

Lemma list_ascii_string_length (s : string) :
  List.length (list_ascii_of_string s) = String.length s.
Proof. induction s as [| c s IH]; simpl; [reflexivity | now rewrite IH]. Qed.

Lemma sanitizeString_Subsequence (s : string) :
  Subsequence (list_ascii_of_string (sanitizeString s))
    (List.filter (fun c => negb (isAngle c)) (list_ascii_of_string s)).
Proof.
  unfold sanitizeString. rewrite list_ascii_of_string_of_list_ascii.
  eapply Subsequence_trans; [apply Subsequence_firstn |].
  eapply Subsequence_trans; [apply Subsequence_trim |].
  eapply Subsequence_trans; apply Subsequence_removeMatches.
Qed.

Lemma sanitizeString_bounds (s : string) :
  (String.length (sanitizeString s) <= 1000)%nat
  /\ (String.length (sanitizeString s) <= String.length s)%nat
  /\ (forall c, In c (list_ascii_of_string (sanitizeString s)) -> isAngle c = false)
  /\ Subsequence (list_ascii_of_string (sanitizeString s)) (list_ascii_of_string s).
Proof.
  assert (S1 := sanitizeString_Subsequence s).
  assert (S2 : Subsequence (list_ascii_of_string (sanitizeString s))
                 (list_ascii_of_string s)).
  { eapply Subsequence_trans; [exact S1 | apply Subsequence_filter]. }
  repeat split.
  - unfold sanitizeString. rewrite <- list_ascii_string_length.
    rewrite list_ascii_of_string_of_list_ascii. apply firstn_le_length.
  - rewrite <- !list_ascii_string_length. now apply Subsequence_length.
  - intros c I. apply (Subsequence_In _ _ c S1) in I.
    apply filter_In in I. destruct I as [_ I].
    now destruct (isAngle c).
  - exact S2.
Qed.

(** The sanitizer of a string only leaves characters out: what it returns
    is the input with some characters deleted, has no angle bracket and is
    at most 1000 characters long. *)
Theorem sanitizeInput_only_deletes (s : string) :
  exists r,
    sanitizeInput (VString s) = VString r
    /\ (String.length r <= 1000)%nat
    /\ (String.length r <= String.length s)%nat
    /\ (forall c, In c (list_ascii_of_string r) -> isAngle c = false)
    /\ Subsequence (list_ascii_of_string r) (list_ascii_of_string s).
Proof.
  exists (sanitizeString s). split; [reflexivity | apply sanitizeString_bounds].
Qed.

Lemma value_nested_ind (P : value -> Prop) :
  P VUndefined -> P VNull -> (forall b, P (VBool b)) -> (forall q, P (VNumber q)) ->
  (forall s, P (VString s)) ->
  (forall items, Forall P items -> P (VArray items)) ->
  (forall fields, Forall (fun e => P (snd e)) fields -> P (VObject fields)) ->
  forall v, P v.
Proof.
  intros Hu Hn Hb Hq Hs Ha Ho.
  fix IH 1. intros [| | b | q | s | items | fields].
  - exact Hu.
  - exact Hn.
  - apply Hb.
  - apply Hq.
  - apply Hs.
  - apply Ha. induction items as [| x items IHl]; constructor; [apply IH | exact IHl].
  - apply Ho. induction fields as [| [k x] fields IHl]; constructor;
      [apply IH | exact IHl].
Qed.

Lemma extractFromValue_object (fields : list (string * value)) :
  extractFromValue (VObject fields)
  = flat_map (fun x => extractFromValue x) (values fields).
Proof.
  cbn [extractFromValue]. unfold values.
  induction fields as [| [k x] fields IH]; [reflexivity |].
  cbn [map flat_map snd]. now rewrite IH.
Qed.

Lemma Forall_flat_map_intro {A B} (P : B -> Prop) (f : A -> list B) (l : list A) :
  Forall (fun x => Forall P (f x)) l -> Forall P (flat_map f l).
Proof.
  induction 1 as [| x l H _ IH]; cbn [flat_map]; [constructor |].
  apply Forall_app. now split.
Qed.

Lemma deepSanitize_strings (v : value) :
  Forall (fun s => (String.length s <= 1000)%nat
                   /\ forall c, In c (list_ascii_of_string s) -> isAngle c = false)
    (extractFromValue (deepSanitize v)).
Proof.
  induction v as [| | b | q | s | items IH | fields IH] using value_nested_ind;
    try solve [cbn [deepSanitize extractFromValue]; apply Forall_nil].
  - cbn [deepSanitize sanitizeInput extractFromValue]. constructor; [| constructor].
    destruct (sanitizeString_bounds s) as [L [_ [A _]]]. now split.
  - cbn [deepSanitize extractFromValue].
    apply Forall_flat_map_intro. apply Forall_map. exact IH.
  - cbn [deepSanitize]. rewrite extractFromValue_object.
    apply Forall_flat_map_intro.
    apply (Forall_values_fold_set
             (fun x => Forall _ (extractFromValue x)) (fun x => x)); [constructor |].
    induction IH as [| [k x] fields Hx _ IHl]; constructor; [exact Hx | exact IHl].
Qed.

(** In a sanitized request body every string value, at any depth of arrays
    and objects, is at most 1000 characters long and has no angle bracket. *)
Theorem deepSanitize_cleans_every_string (body : value) :
  Forall (fun s => (String.length s <= 1000)%nat
                   /\ forall c, In c (list_ascii_of_string s) -> isAngle c = false)
    (extractFromValue (deepSanitize body)).
Proof. apply deepSanitize_strings. Qed.

(** ** The schema validator *)

Lemma flat_map_nil {A B} (f : A -> list B) (l : list A) :
  flat_map f l = [] -> forall x, In x l -> f x = [].
Proof.
  induction l as [| y l IH]; cbn [flat_map]; [intros _ x [] |].
  intros E x [<- | I]; apply app_eq_nil in E; destruct E as [E1 E2];
    [exact E1 | now apply IH].
Qed.

Lemma validateValue_object (number_to_string : Q -> string)
    (isValidDateTime : string -> bool) (required : list string)
    (properties : list (string * schema)) (v : value) (path : string) :
  Validation.validateValue number_to_string isValidDateTime
    (SObject (Some required) (Some properties)) v path = [] ->
  exists data,
    v = VObject data
    /\ (forall r, In r required -> obj_has data r = true)
    /\ (forall n s x, In (n, s) properties -> obj_get data n = Some x ->
        Validation.validateValue number_to_string isValidDateTime s x (subPath path n)
        = []).
Proof.
  cbn [Validation.validateValue].
  destruct v as [| | b | q | s | items | data]; try discriminate.
  intros E. apply app_eq_nil in E. destruct E as [Er Ep].
  exists data. split; [reflexivity |]. split.
  - intros r I. apply (flat_map_nil _ _ Er) in I.
    destruct (obj_has data r); [reflexivity | discriminate].
  - clear Er. induction properties as [| [n' s'] properties IH]; [intros n s x [] |].
    apply app_eq_nil in Ep. destruct Ep as [E1 E2].
    intros n s x [I | I] G.
    + injection I as -> ->. now rewrite G in E1.
    + now apply (IH E2 n s x).
Qed.

(** A required and declared property is there and passes its schema. *)
Lemma validateValue_property (number_to_string : Q -> string)
    (isValidDateTime : string -> bool) (required : list string)
    (properties : list (string * schema)) (data : obj value) (path : string)
    (n : string) (s : schema) :
  Validation.validateValue number_to_string isValidDateTime
    (SObject (Some required) (Some properties)) (VObject data) path = [] ->
  In n required -> In (n, s) properties ->
  exists x,
    obj_get data n = Some x
    /\ Validation.validateValue number_to_string isValidDateTime s x (subPath path n)
       = [].
Proof.
  intros E Ir Ip.
  destruct (validateValue_object _ _ _ _ _ _ E) as [data' [[= <-] [R P]]].
  specialize (R n Ir). unfold obj_has in R.
  destruct (obj_get data n) as [x |] eqn:G; [| discriminate].
  exists x. split; [reflexivity |]. now apply (P n s x Ip).
Qed.

Lemma validateValue_score (number_to_string : Q -> string)
    (isValidDateTime : string -> bool) (v : value) (path : string) :
  Validation.validateValue number_to_string isValidDateTime score v path = [] ->
  exists q, v = VNumber q /\ inRange q = true.
Proof.
  unfold score. cbn [Validation.validateValue].
  destruct v as [| | b | q | s | items | data]; try discriminate.
  intros E. apply app_eq_nil in E. destruct E as [E1 E2].
  exists q. split; [reflexivity |]. unfold inRange, Qltb in *.
  destruct (Qle_bool 1 q); [| discriminate].
  destruct (Qle_bool q 10); [reflexivity | discriminate].
Qed.

Lemma validateValue_strings (path : string) (l : list value) :
  forall index,
    (fix each (index : nat) (l : list value) {struct l} : list string :=
       match l with
       | [] => []
       | item :: l' =>
           (match item with
            | VString _ => []
            | _ => [((path ++ "[" ++ nat_to_string index ++ "]")
                     ++ ": Expected string, got " ++ typeof item)%string]
            end ++ each (S index) l')%list
       end) index l = [] ->
    Forall (fun x => exists s, x = VString s) l.
Proof.
  induction l as [| x l IH]; intros index E; [constructor |].
  apply app_eq_nil in E. destruct E as [E1 E2].
  constructor; [| exact (IH _ E2)].
  destruct x; try discriminate. now eexists.
Qed.

Lemma validateValue_texts (number_to_string : Q -> string)
    (isValidDateTime : string -> bool) (v : value) (path : string) :
  Validation.validateValue number_to_string isValidDateTime texts v path = [] ->
  exists l, v = VArray l /\ l <> [] /\ Forall (fun x => exists s, x = VString s) l.
Proof.
  unfold texts. cbn [Validation.validateValue].
  destruct v as [| | b | q | s | items | data]; try discriminate.
  intros E. apply app_eq_nil in E. destruct E as [E1 E2].
  cbn [app] in E2.
  exists items. split; [reflexivity |]. split.
  - intros ->. discriminate.
  - exact (validateValue_strings _ _ _ E2).
Qed.

Lemma validateValue_hasTexts (number_to_string : Q -> string)
    (isValidDateTime : string -> bool) (required : list string)
    (properties : list (string * schema)) (data : obj value) (path : string)
    (n : string) :
  Validation.validateValue number_to_string isValidDateTime
    (SObject (Some required) (Some properties)) (VObject data) path = [] ->
  In n required -> In (n, texts) properties ->
  hasTexts data n.
Proof.
  intros E Ir Ip.
  destruct (validateValue_property _ _ _ _ _ _ _ _ E Ir Ip) as [x [G V]].
  destruct (validateValue_texts _ _ _ _ V) as [l [-> [Nl Fl]]].
  now exists l.
Qed.

(** A block that passes an object schema has the scores the schema
    requires and declares as scores. *)
Lemma validateValue_block (number_to_string : Q -> string)
    (isValidDateTime : string -> bool) (required : list string)
    (properties : list (string * schema)) (x : value) (path : string)
    (ms : list string) :
  Validation.validateValue number_to_string isValidDateTime
    (SObject (Some required) (Some properties)) x path = [] ->
  (forall m, In m ms -> In m required /\ In (m, score) properties) ->
  exists block, x = VObject block /\ forall m, In m ms -> hasScore block m.
Proof.
  intros E D.
  destruct (validateValue_object _ _ _ _ _ _ E) as [block [-> _]].
  exists block. split; [reflexivity |].
  intros m I. destruct (D m I) as [Ir Ip].
  destruct (validateValue_property _ _ _ _ _ _ _ _ E Ir Ip) as [y [G V]].
  destruct (validateValue_score _ _ _ _ V) as [q [-> R]].
  now exists q.
Qed.

Ltac pick := cbn [In map]; repeat (first [left; reflexivity | right]).

Ltac each_member I :=
  cbn [In map] in I;
  repeat (destruct I as [<- | I]; [split; pick |]); destruct I.

(** The blocks of a valid [dimensions] object. *)
Lemma validateValue_dimensions (number_to_string : Q -> string)
    (isValidDateTime : string -> bool) (required : list string)
    (properties : list (string * schema)) (dims : obj value) (path : string)
    (d : string) (ms : list string) (blockRequired : list string)
    (blockProperties : list (string * schema)) :
  Validation.validateValue number_to_string isValidDateTime
    (SObject (Some required) (Some properties)) (VObject dims) path = [] ->
  In d required ->
  In (d, SObject (Some blockRequired) (Some blockProperties)) properties ->
  (forall m, In m ms -> In m blockRequired /\ In (m, score) blockProperties) ->
  exists block, obj_get dims d = Some (VObject block)
                /\ forall m, In m ms -> hasScore block m.
Proof.
  intros E Ir Ip D.
  destruct (validateValue_property _ _ _ _ _ _ _ _ E Ir Ip) as [x [G V]].
  destruct (validateValue_block _ _ _ _ _ _ _ V D) as [block [-> S]].
  now exists block.
Qed.

Lemma validateProviderData_shape (number_to_string : Q -> string)
    (isValidDateTime : string -> bool) (v : value) :
  Validation.isValid
    (Validation.validateProviderData number_to_string isValidDateTime v) = true ->
  exists data info dims trade,
    v = VObject data
    /\ obj_get data "provider" = Some (VObject info)
    /\ (exists n, obj_get info "name" = Some (VString n)
                  /\ In n DataManager.requiredProviders)
    /\ (exists s, obj_get info "displayName" = Some (VString s))
    /\ (exists t, obj_get info "lastUpdated" = Some (VString t)
                  /\ isValidDateTime t = true)
    /\ obj_get data "dimensions" = Some (VObject dims)
    /\ (forall d ms, In (d, ms) requiredMetrics ->
        exists block, obj_get dims d = Some (VObject block)
                      /\ forall m, In m ms -> hasScore block m)
    /\ hasTexts data "strengths"
    /\ hasTexts data "weaknesses"
    /\ hasTexts data "idealUseCases"
    /\ obj_get data "tradeOffs" = Some (VObject trade)
    /\ hasTexts trade "gains"
    /\ hasTexts trade "losses".
Proof.
  unfold Validation.validateProviderData, Validation.reportOf.
  cbn [Validation.isValid].
  destruct (Validation.validate number_to_string isValidDateTime v providerSchema)
    as [| e es] eqn:E; [intros _ | discriminate].
  unfold Validation.validate, providerSchema in E.
  destruct (validateValue_object _ _ _ _ _ _ E) as [data [-> _]].
  destruct (validateValue_property _ _ _ _ _ _ "provider" _ E ltac:(pick) ltac:(pick))
    as [xi [Gi Vi]].
  destruct (validateValue_object _ _ _ _ _ _ Vi) as [info [-> _]].
  destruct (validateValue_property _ _ _ _ _ _ "name" _ Vi ltac:(pick) ltac:(pick))
    as [xn [Gn Vn]].
  destruct (validateValue_property _ _ _ _ _ _ "displayName" _ Vi ltac:(pick) ltac:(pick))
    as [xd [Gd Vd]].
  destruct (validateValue_property _ _ _ _ _ _ "lastUpdated" _ Vi ltac:(pick) ltac:(pick))
    as [xt [Gt Vt]].
  destruct (validateValue_property _ _ _ _ _ _ "dimensions" _ E ltac:(pick) ltac:(pick))
    as [xm [Gm Vm]].
  destruct (validateValue_object _ _ _ _ _ _ Vm) as [dims [-> _]].
  destruct (validateValue_property _ _ _ _ _ _ "tradeOffs" _ E ltac:(pick) ltac:(pick))
    as [xr [Gr Vr]].
  destruct (validateValue_object _ _ _ _ _ _ Vr) as [trade [-> _]].
  exists data, info, dims, trade.
  split; [reflexivity |]. split; [exact Gi |]. split.
  { cbn [Validation.validateValue] in Vn.
    destruct xn as [| | b | q | n | items | fields]; try discriminate.
    exists n. split; [exact Gn |].
    destruct (includes ["aws"; "azure"; "gcp"] n) eqn:I; [| discriminate].
    now apply includes_In. }
  split.
  { cbn [Validation.validateValue] in Vd.
    destruct xd as [| | b | q | s | items | fields]; try discriminate.
    now exists s. }
  split.
  { cbn [Validation.validateValue] in Vt.
    destruct xt as [| | b | q | t | items | fields]; try discriminate.
    exists t. split; [exact Gt |].
    cbn in Vt. destruct (isValidDateTime t); [reflexivity | discriminate]. }
  split; [exact Gm |]. split.
  { intros d ms I. unfold requiredMetrics in I. cbn [In] in I.
    repeat (destruct I as [[= <- <-] | I];
            [eapply (validateValue_dimensions _ _ _ _ _ _ _ _ _ _ Vm);
               [pick | unfold scores; pick | intros m J; each_member J] |]).
    destruct I. }
  split; [apply (validateValue_hasTexts _ _ _ _ _ _ _ E); pick |].
  split; [apply (validateValue_hasTexts _ _ _ _ _ _ _ E); pick |].
  split; [apply (validateValue_hasTexts _ _ _ _ _ _ _ E); pick |].
  split; [exact Gr |].
  split; apply (validateValue_hasTexts _ _ _ _ _ _ _ Vr); pick.
Qed.

(** A value that passes [validateProviderData] is an object with the
    provider's name among aws, azure and gcp and a date the date check
    accepts, the eight dimension blocks with every required sub-metric a
    number of [[1,10]], and non-empty arrays of strings for the strengths,
    the weaknesses, the use cases, the gains and the losses. *)
Theorem validateProviderData_sound (number_to_string : Q -> string)
    (isValidDateTime : string -> bool) (v : value) :
  Validation.isValid
    (Validation.validateProviderData number_to_string isValidDateTime v) = true ->
  exists data info dims trade,
    v = VObject data
    /\ obj_get data "provider" = Some (VObject info)
    /\ (exists n, obj_get info "name" = Some (VString n)
                  /\ In n DataManager.requiredProviders)
    /\ (exists s, obj_get info "displayName" = Some (VString s))
    /\ (exists t, obj_get info "lastUpdated" = Some (VString t)
                  /\ isValidDateTime t = true)
    /\ obj_get data "dimensions" = Some (VObject dims)
    /\ (forall d ms, In (d, ms) requiredMetrics ->
        exists block, obj_get dims d = Some (VObject block)
                      /\ forall m, In m ms -> hasScore block m)
    /\ hasTexts data "strengths"
    /\ hasTexts data "weaknesses"
    /\ hasTexts data "idealUseCases"
    /\ obj_get data "tradeOffs" = Some (VObject trade)
    /\ hasTexts trade "gains"
    /\ hasTexts trade "losses".
Proof. apply validateProviderData_shape. Qed.

Lemma validateProviderData_sound_witness :
  exists data info dims trade,
    providerValue sampleGcp = VObject data
    /\ obj_get data "provider" = Some (VObject info)
    /\ (exists n, obj_get info "name" = Some (VString n)
                  /\ In n DataManager.requiredProviders)
    /\ (exists s, obj_get info "displayName" = Some (VString s))
    /\ (exists t, obj_get info "lastUpdated" = Some (VString t)
                  /\ anyDate t = true)
    /\ obj_get data "dimensions" = Some (VObject dims)
    /\ (forall d ms, In (d, ms) requiredMetrics ->
        exists block, obj_get dims d = Some (VObject block)
                      /\ forall m, In m ms -> hasScore block m)
    /\ hasTexts data "strengths"
    /\ hasTexts data "weaknesses"
    /\ hasTexts data "idealUseCases"
    /\ obj_get data "tradeOffs" = Some (VObject trade)
    /\ hasTexts trade "gains"
    /\ hasTexts trade "losses".
Proof.
  apply (validateProviderData_sound printNothing anyDate (providerValue sampleGcp)).
  vm_compute. reflexivity.
Defined.

Lemma obj_has_set_other {A} (o : obj A) (k k' : string) (v : A) :
  k <> k' -> obj_has (obj_set o k v) k' = obj_has o k'.
Proof.
  intros N. unfold obj_has. rewrite obj_get_set.
  destruct (String.eqb_spec k k'); [contradiction | reflexivity].
Qed.

(** The validator does not look at a property the schema does not name:
    setting one on an object, to any value, leaves the errors of the
    object as they were. *)
Theorem validator_ignores_undeclared_properties (number_to_string : Q -> string)
    (isValidDateTime : string -> bool) (required : option (list string))
    (properties : option (list (string * schema))) (data : obj value)
    (k : string) (x : value) (path : string) :
  ~ In k (declaredProperties (SObject required properties)) ->
  Validation.validateValue number_to_string isValidDateTime
    (SObject required properties) (VObject (obj_set data k x)) path
  = Validation.validateValue number_to_string isValidDateTime
      (SObject required properties) (VObject data) path.
Proof.
  cbn [declaredProperties Validation.validateValue]. rewrite in_app_iff. intros N.
  f_equal.
  - destruct required as [names |]; [| reflexivity].
    assert (Nn : ~ In k names) by tauto. clear N.
    induction names as [| r names IH]; [reflexivity |].
    cbn [flat_map]. rewrite IH by (cbn [In] in Nn; tauto).
    rewrite obj_has_set_other; [reflexivity |].
    intros ->. apply Nn. now left.
  - destruct properties as [ps |]; [| reflexivity].
    assert (Np : ~ In k (keys ps)) by tauto. clear N.
    induction ps as [| [n s] ps IH]; [reflexivity |].
    rewrite IH by (cbn in Np; tauto).
    rewrite obj_get_set.
    destruct (String.eqb_spec k n) as [-> | _]; [| reflexivity].
    exfalso. apply Np. now left.
Qed.

Lemma validator_ignores_undeclared_properties_witness :
  Validation.validateValue printNothing anyDate
    (scores ["portability"; "standardsCompliance"; "exitStrategy"])
    (VObject (obj_set (metrics [("portability", 4); ("standardsCompliance", 5);
                                ("exitStrategy", 4)])
                "egressFees" (VNumber 250)))
    "dimensions.vendorLockIn"
  = Validation.validateValue printNothing anyDate
      (scores ["portability"; "standardsCompliance"; "exitStrategy"])
      (VObject (metrics [("portability", 4); ("standardsCompliance", 5);
                         ("exitStrategy", 4)]))
      "dimensions.vendorLockIn".
Proof.
  apply (validator_ignores_undeclared_properties printNothing anyDate
           (Some ["portability"; "standardsCompliance"; "exitStrategy"])
           (Some (map (fun n => (n, score))
                    ["portability"; "standardsCompliance"; "exitStrategy"]))).
  cbn. intros H. repeat (destruct H as [H | H]; [discriminate |]). exact H.
Defined.

(** ** The two validators and the evaluator *)

Lemma obj_get_blocks (dims : obj (obj value)) (d : string) (block : obj value) :
  obj_get (map (fun e => (fst e, VObject (snd e))) dims) d = Some (VObject block) ->
  obj_get dims d = Some block.
Proof.
  induction dims as [| [k' v'] dims IH]; cbn [map obj_get fst snd]; [discriminate |].
  destruct (String.eqb k' d); [now intros [= ->] | exact IH].
Qed.

Lemma validated_dimensionsComplete (number_to_string : Q -> string)
    (isValidDateTime : string -> bool) (p : providerData) :
  Validation.isValid
    (Validation.validateProviderData number_to_string isValidDateTime (providerValue p))
  = true ->
  dimensionsComplete p = true.
Proof.
  intros V.
  destruct (validateProviderData_shape _ _ _ V)
    as [data [info [dims [trade [E [_ [_ [_ [_ [Gd [B _]]]]]]]]]]].
  unfold providerValue in E. injection E as <-.
  cbn in Gd. injection Gd as <-.
  unfold dimensionsComplete. apply forallb_forall. intros [d ms] I.
  destruct (B d ms I) as [block [G S]]. cbn [fst snd].
  apply obj_get_blocks in G. rewrite G. apply forallb_forall. intros m J.
  destruct (S m J) as [q [Gq _]]. now rewrite Gq.
Qed.

Lemma checkScore_block (number_to_string : Q -> string) (path : string)
    (block : obj value) :
  Validation.checkScore number_to_string (VObject block) path = [] ->
  forallb inRange (numericScores block) = true.
Proof.
  cbn [Validation.checkScore].
  induction block as [| [k x] block IH]; [reflexivity |].
  intros E. apply app_eq_nil in E. destruct E as [E1 E2].
  specialize (IH E2). cbn [numericScores].
  destruct x; try exact IH.
  cbn [forallb]. rewrite IH, andb_true_r.
  cbn [Validation.checkScore] in E1. unfold inRange, Qltb in *.
  destruct (Qle_bool 1 q); [| discriminate].
  destruct (Qle_bool q 10); [reflexivity | discriminate].
Qed.

Lemma validateScoreRanges_scoresInRange (number_to_string : Q -> string)
    (p : providerData) (r : Validation.report) :
  Validation.validateScoreRanges number_to_string
    (get_opt (providerValue p) "dimensions") = Ok r ->
  Validation.isValid r = true ->
  scoresInRange p = true.
Proof.
  unfold providerValue. cbn [get_opt obj_get app String.eqb Ascii.eqb Bool.eqb].
  unfold Validation.validateScoreRanges. cbn [Object_entries bind].
  intros [= <-]. unfold Validation.reportOf. cbn [Validation.isValid].
  destruct (Validation.checkScores _ _ _) eqn:E; [intros _ | discriminate].
  unfold scoresInRange. apply forallb_forall. intros [d block] I.
  unfold Validation.checkScores in E.
  apply (checkScore_block number_to_string (subPath "" d)).
  apply (flat_map_nil _ _ E (d, VObject block)).
  apply (in_map (fun e => (fst e, VObject (snd e))) _ _ I).
Qed.

(** A record that passes the schema and the check of the score ranges is
    complete and in range; if none of its blocks has more than [2^53 / 10]
    numbers, its dimension scores under the weighting of a valid request
    are in [[1,10]] and its total score within 1e-9 of that interval, in
    the arithmetic of the program. *)
Theorem validated_record_scores_in_range (number_to_string : Q -> string)
    (isValidDateTime : string -> bool) (p : providerData) (r : Validation.report)
    (c : Constraint) :
  Validation.isValid
    (Validation.validateProviderData number_to_string isValidDateTime (providerValue p))
  = true ->
  Validation.validateScoreRanges number_to_string
    (get_opt (providerValue p) "dimensions") = Ok r ->
  Validation.isValid r = true ->
  blocksBounded p = true ->
  validConstraint c = true ->
  dimensionsComplete p = true
  /\ scoresInRange p = true
  /\ exists w,
       Binary64.calculateWeightings constraintRules c = Ok w
       /\ 1 - (1 # 1000000000)
          <= totalScore (Binary64.evaluateProvider constraintRules p c w)
          <= 10 + (1 # 1000000000)
       /\ Forall (fun s => 1 <= s <= 10)
            (values (dimensionScores (Binary64.evaluateProvider constraintRules p c w))).
Proof.
  intros V S R B Vc.
  assert (C := validated_dimensionsComplete _ _ _ V).
  assert (I := validateScoreRanges_scoresInRange _ _ _ S R).
  split; [exact C |]. split; [exact I |].
  destruct (totalScore64_bounds p c C I B Vc) as [w [E [L [U F]]]].
  exists w. split; [exact E |].
  cbn [totalScore dimensionScores Binary64.evaluateProvider].
  split; [split; [exact L | exact U] | exact F].
Qed.

Lemma validated_record_scores_in_range_witness :
  dimensionsComplete sampleAzure = true
  /\ scoresInRange sampleAzure = true
  /\ exists w,
       Binary64.calculateWeightings constraintRules sampleConstraint = Ok w
       /\ 1 - (1 # 1000000000)
          <= totalScore
               (Binary64.evaluateProvider constraintRules sampleAzure sampleConstraint w)
          <= 10 + (1 # 1000000000)
       /\ Forall (fun s => 1 <= s <= 10)
            (values (dimensionScores
                       (Binary64.evaluateProvider constraintRules sampleAzure
                          sampleConstraint w))).
Proof.
  apply (validated_record_scores_in_range printNothing anyDate sampleAzure
           (Validation.reportOf [])).
  - vm_compute. reflexivity.
  - vm_compute. reflexivity.
  - reflexivity.
  - reflexivity.
  - reflexivity.
Defined.

(** ** The data manager *)

Lemma usableFile_valid (number_to_string : Q -> string)
    (isValidDateTime : string -> bool) (files : string -> DataManager.file)
    (n : string) (d : value) :
  usableFile number_to_string isValidDateTime files n = Some d ->
  Validation.isValid
    (Validation.validateProviderData number_to_string isValidDateTime d) = true.
Proof.
  unfold usableFile. destruct (files n) as [| message | data]; try discriminate.
  destruct (Validation.isValid _) eqn:V; [| discriminate].
  now intros [= <-].
Qed.

Lemma loadProvider_store (number_to_string : Q -> string)
    (isValidDateTime : string -> bool) (files : string -> DataManager.file)
    (m : DataManager.manager) (n : string) :
  DataManager.providers
    (fst (DataManager.loadProvider number_to_string isValidDateTime files m n))
  = match usableFile number_to_string isValidDateTime files n with
    | Some d => obj_set (DataManager.providers m) n d
    | None => DataManager.providers m
    end.
Proof.
  unfold DataManager.loadProvider, usableFile.
  destruct (files n) as [| message | data]; try reflexivity.
  now destruct (Validation.isValid _).
Qed.

Lemma loadAllProviders_fold (number_to_string : Q -> string)
    (isValidDateTime : string -> bool) (files : string -> DataManager.file)
    (names : list string) (m : DataManager.manager)
    (results : list DataManager.loadResult) :
  DataManager.providers
    (fst (fold_left
            (fun (state : DataManager.manager * list DataManager.loadResult)
                 providerName =>
               let '(m, results) := state in
               match DataManager.loadProvider number_to_string isValidDateTime files
                       m providerName with
               | (m', Ok loaded) => (m', (results ++ [loaded])%list)
               | (m', Throw message) =>
                   (m', (results
                         ++ [{| DataManager.provider := providerName;
                                DataManager.success := false;
                                DataManager.recordCount := None;
                                DataManager.error := Some message |}])%list)
               end)
            names (m, results)))
  = fold_left
      (fun o n => match usableFile number_to_string isValidDateTime files n with
                  | Some d => obj_set o n d
                  | None => o
                  end)
      names (DataManager.providers m).
Proof.
  revert m results. induction names as [| n names IH]; intros m results; [reflexivity |].
  cbn [fold_left]. rewrite <- (loadProvider_store number_to_string isValidDateTime files m n).
  destruct (DataManager.loadProvider number_to_string isValidDateTime files m n)
    as [m' [loaded | message]]; apply IH.
Qed.

Lemma fold_store_get (number_to_string : Q -> string)
    (isValidDateTime : string -> bool) (files : string -> DataManager.file)
    (names : list string) (o : obj value) (k : string) :
  obj_get
    (fold_left
       (fun o n => match usableFile number_to_string isValidDateTime files n with
                   | Some d => obj_set o n d
                   | None => o
                   end)
       names o) k
  = match (if includes names k
           then usableFile number_to_string isValidDateTime files k
           else None) with
    | Some d => Some d
    | None => obj_get o k
    end.
Proof.
  revert o. induction names as [| n names IH]; intros o; [reflexivity |].
  cbn [fold_left]. rewrite IH. unfold includes. cbn [existsb].
  fold (includes names k).
  destruct (String.eqb_spec k n) as [-> | N]; cbn [orb].
  - destruct (includes names n).
    + destruct (usableFile _ _ _ n) as [d |]; [reflexivity |]. reflexivity.
    + destruct (usableFile _ _ _ n) as [d |]; [| reflexivity].
      now rewrite obj_get_set, String.eqb_refl.
  - assert (G : forall d, obj_get (obj_set o n d) k = obj_get o k).
    { intros d. rewrite obj_get_set.
      destruct (String.eqb_spec n k); [congruence | reflexivity]. }
    destruct (usableFile _ _ _ n) as [d |]; [rewrite G |]; reflexivity.
Qed.

Lemma initialize_store (number_to_string : Q -> string)
    (isValidDateTime : string -> bool) (files : string -> DataManager.file)
    (m : DataManager.manager) :
  let after :=
    DataManager.initialize number_to_string isValidDateTime files None m in
  DataManager.isInitialized (fst after) = true
  /\ DataManager.init_success (snd after) = true
  /\ DataManager.providersLoaded (snd after)
     = Some (List.length (DataManager.providers (fst after)))
  /\ forall n,
       obj_get (DataManager.providers (fst after)) n
       = match (if includes DataManager.requiredProviders n
                then usableFile number_to_string isValidDateTime files n
                else None) with
         | Some d => Some d
         | None => obj_get (DataManager.providers m) n
         end.
Proof.
  cbv zeta. unfold DataManager.initialize.
  destruct (DataManager.loadAllProviders number_to_string isValidDateTime files m)
    as [m' results] eqn:L.
  cbn [fst snd DataManager.isInitialized DataManager.init_success
       DataManager.providersLoaded DataManager.providers].
  repeat split. intros n.
  assert (P : DataManager.providers m'
              = DataManager.providers
                  (fst (DataManager.loadAllProviders number_to_string isValidDateTime
                          files m))) by now rewrite L.
  rewrite P. unfold DataManager.loadAllProviders.
  rewrite loadAllProviders_fold. apply fold_store_get.
Qed.

(** [initialize] never takes a record out of the store: for each of aws,
    azure and gcp a file that is read and passes the schema replaces the
    record, and otherwise the record loaded earlier, if there is one, stays;
    whatever was loaded, the call sets the flag and reports success with
    the number of records in the store. *)
Theorem initialize_keeps_earlier_records (number_to_string : Q -> string)
    (isValidDateTime : string -> bool) (files : string -> DataManager.file)
    (m : DataManager.manager) :
  let after :=
    DataManager.initialize number_to_string isValidDateTime files None m in
  DataManager.isInitialized (fst after) = true
  /\ DataManager.init_success (snd after) = true
  /\ DataManager.providersLoaded (snd after)
     = Some (List.length (DataManager.providers (fst after)))
  /\ forall n,
       obj_get (DataManager.providers (fst after)) n
       = match (if includes DataManager.requiredProviders n
                then usableFile number_to_string isValidDateTime files n
                else None) with
         | Some d => Some d
         | None => obj_get (DataManager.providers m) n
         end.
Proof. apply initialize_store. Qed.

Lemma validateIntegrity_errors (number_to_string : Q -> string)
    (isValidDateTime : string -> bool) (m : DataManager.manager) :
  DataManager.isInitialized m = true ->
  Forall (fun e => Validation.isValid
                     (Validation.validateProviderData number_to_string
                        isValidDateTime (snd e)) = true)
         (DataManager.providers m) ->
  DataManager.errors (DataManager.validateIntegrity number_to_string isValidDateTime m)
  = flat_map
      (fun required =>
         if includes (keys (DataManager.providers m)) required then []
         else [("Missing required provider: " ++ required)%string])
      DataManager.requiredProviders.
Proof.
  intros I F. unfold DataManager.validateIntegrity. rewrite I.
  cbn [negb DataManager.errors]. unfold DataManager.getProviderNames.
  rewrite <- app_nil_r. f_equal.
  induction F as [| e l He _ IH]; [reflexivity |].
  cbn [flat_map]. rewrite He. exact IH.
Qed.

Lemma validateIntegrity_isValid (number_to_string : Q -> string)
    (isValidDateTime : string -> bool) (m : DataManager.manager) :
  DataManager.isValid (DataManager.validateIntegrity number_to_string isValidDateTime m)
  = match DataManager.errors
            (DataManager.validateIntegrity number_to_string isValidDateTime m) with
    | [] => true
    | _ => false
    end.
Proof.
  unfold DataManager.validateIntegrity.
  now destruct (DataManager.isInitialized m).
Qed.

Lemma reloadData_store (number_to_string : Q -> string)
    (isValidDateTime : string -> bool) (files : string -> DataManager.file)
    (m : DataManager.manager) :
  DataManager.providers
    (fst (DataManager.reloadData number_to_string isValidDateTime files None m))
  = flat_map
      (fun n => match usableFile number_to_string isValidDateTime files n with
                | Some d => [(n, d)]
                | None => []
                end)
      DataManager.requiredProviders
  /\ DataManager.isInitialized
       (fst (DataManager.reloadData number_to_string isValidDateTime files None m))
     = true.
Proof.
  unfold DataManager.reloadData, DataManager.initialize.
  destruct (DataManager.loadAllProviders _ _ _ _) as [m' results] eqn:L.
  cbn [fst DataManager.providers DataManager.isInitialized].
  split; [| reflexivity].
  assert (P : DataManager.providers m'
              = DataManager.providers
                  (fst (DataManager.loadAllProviders number_to_string isValidDateTime
                          files
                          {| DataManager.providers := [];
                             DataManager.isInitialized := DataManager.isInitialized m |})))
    by now rewrite L.
  rewrite P. unfold DataManager.loadAllProviders.
  rewrite loadAllProviders_fold.
  unfold DataManager.requiredProviders. cbn [fold_left flat_map DataManager.providers].
  destruct (usableFile _ _ _ "aws"), (usableFile _ _ _ "azure"),
    (usableFile _ _ _ "gcp"); reflexivity.
Qed.

(** After [reloadData] the store holds, in the order aws, azure, gcp, the
    records of the files that were read and passed the schema, and nothing
    else; [validateIntegrity] then reports one missing provider for each
    other file, and is valid exactly when all three files were usable. *)
Theorem reloadData_then_integrity (number_to_string : Q -> string)
    (isValidDateTime : string -> bool) (files : string -> DataManager.file)
    (m : DataManager.manager) :
  let reloaded :=
    fst (DataManager.reloadData number_to_string isValidDateTime files None m) in
  DataManager.providers reloaded
  = flat_map
      (fun n => match usableFile number_to_string isValidDateTime files n with
                | Some d => [(n, d)]
                | None => []
                end)
      DataManager.requiredProviders
  /\ DataManager.errors
       (DataManager.validateIntegrity number_to_string isValidDateTime reloaded)
     = flat_map
         (fun n => match usableFile number_to_string isValidDateTime files n with
                   | Some _ => []
                   | None => [("Missing required provider: " ++ n)%string]
                   end)
         DataManager.requiredProviders
  /\ (DataManager.isValid
        (DataManager.validateIntegrity number_to_string isValidDateTime reloaded) = true
      <-> forall n, In n DataManager.requiredProviders ->
            usableFile number_to_string isValidDateTime files n <> None).
Proof.
  cbv zeta.
  destruct (reloadData_store number_to_string isValidDateTime files m) as [S I].
  split; [exact S |].
  assert (E : DataManager.errors
                (DataManager.validateIntegrity number_to_string isValidDateTime
                   (fst (DataManager.reloadData number_to_string isValidDateTime
                           files None m)))
              = flat_map
                  (fun n => match usableFile number_to_string isValidDateTime files n with
                            | Some _ => []
                            | None => [("Missing required provider: " ++ n)%string]
                            end)
                  DataManager.requiredProviders).
  { rewrite (validateIntegrity_errors _ _ _ I).
    - rewrite S. unfold DataManager.requiredProviders. cbn [flat_map].
      destruct (usableFile _ _ _ "aws"), (usableFile _ _ _ "azure"),
        (usableFile _ _ _ "gcp"); reflexivity.
    - rewrite S. unfold DataManager.requiredProviders. cbn [flat_map].
      destruct (usableFile _ _ _ "aws") eqn:Ua, (usableFile _ _ _ "azure") eqn:Uz,
        (usableFile _ _ _ "gcp") eqn:Ug;
        cbn [app]; repeat constructor; cbn [snd];
        eauto using usableFile_valid. }
  split; [exact E |].
  rewrite validateIntegrity_isValid, E.
  unfold DataManager.requiredProviders. cbn [flat_map In].
  destruct (usableFile _ _ _ "aws") eqn:Ua, (usableFile _ _ _ "azure") eqn:Uz,
    (usableFile _ _ _ "gcp") eqn:Ug; cbn [app];
    (split;
     [ try discriminate; intros _ n [<- | [<- | [<- | []]]]; congruence
     | intros H; try reflexivity; exfalso;
       first [ apply (H "aws"); [tauto | assumption]
             | apply (H "azure"); [tauto | assumption]
             | apply (H "gcp"); [tauto | assumption] ] ]).
Qed.

(** After [reloadData], [getProvider] gives for aws, azure and gcp the
    content of the provider's file when it was usable and [null]
    otherwise, and throws for any other argument. *)
Theorem getProvider_after_reload (number_to_string : Q -> string)
    (isValidDateTime : string -> bool) (files : string -> DataManager.file)
    (m : DataManager.manager) (providerName : value) :
  DataManager.getProvider number_to_string
    (fst (DataManager.reloadData number_to_string isValidDateTime files None m))
    providerName
  = if includesValue DataManager.requiredProviders providerName
    then match providerName with
         | VString n =>
             match usableFile number_to_string isValidDateTime files n with
             | Some d => Ok d
             | None => Ok VNull
             end
         | _ => Ok VNull
         end
    else Throw ("Invalid provider name: " ++ js_toString number_to_string providerName).
Proof.
  unfold DataManager.getProvider, Validation.validateProviderName.
  cbn [Validation.isValid]. fold DataManager.requiredProviders.
  destruct (includesValue DataManager.requiredProviders providerName) eqn:I;
    cbn [negb]; [| reflexivity].
  destruct providerName as [| | b | q | n | items | fields]; try reflexivity.
  cbn [includesValue] in I.
  destruct (initialize_store number_to_string isValidDateTime files
              {| DataManager.providers := [];
                 DataManager.isInitialized := DataManager.isInitialized m |})
    as [_ [_ [_ G]]].
  unfold DataManager.reloadData. rewrite (G n), I.
  destruct (usableFile number_to_string isValidDateTime files n) as [d |] eqn:U;
    [| reflexivity].
  apply usableFile_valid in U.
  destruct (validateProviderData_shape _ _ _ U) as [data [_ [_ [_ [-> _]]]]].
  reflexivity.
Qed.
